(** * Schema migrations of the browser extension: [UpdateApi]

    A shallow embedding of [Extension/src/background/api/update/main.ts]
    and the properties of its migration engine.

    The file has four layers:
    - [JS]: the values found in [browser.storage] and the object
      operations the migrations perform on them;
    - [JSON]: [JSON.stringify] and [JSON.parse] on those values;
    - [Zod]: the validators the migrations build inline;
    - [UpdateApi]: the storages, the four migration steps, the runner
      and [update]. *)

From Stdlib Require Import ZArith Ascii String List Bool Lia.
From stdpp Require Import base option list gmap strings fin_maps pretty.

Open Scope Z_scope.

(* ===================================================================== *)
(** ** Values and objects *)
(* ===================================================================== *)

Module JS.

(** A stored value. Numbers are the integer-valued ones (identifiers,
    timestamps, periods), and they are exact: what JavaScript holds of
    an integer below [2^53] in magnitude. A string is the UTF-8 text of
    the JavaScript string. [undefined] is not a stored value and shows
    up as [None] where a property is read. An object lists its
    properties in the order in which JavaScript enumerates them: for the
    keys the migrations name, the order in which they were added. (The
    keys that read as array indices JavaScript enumerates first and in
    ascending order; they are taken to come in that order. The
    statements that depend on the order or on the numbers say so, see
    [native] below.) *)
#[warnings="-register-all"]
Inductive value : Type :=
| Null
| Bool (b : bool)
| Num (n : Z)
| Str (s : string)
| Arr (xs : list value)
| Obj (ps : list (string * value)).

Abbreviation props := (list (string * value)).

(** [o[k]] *)
Fixpoint get {A : Type} (k : string) (ps : list (string * A)) : option A :=
  match ps with
  | [] => None
  | (k', v) :: ps' => if String.eqb k k' then Some v else get k ps'
  end.

(** [o[k] = v]: an own property keeps its place, a new one goes last. *)
Fixpoint set {A : Type} (k : string) (v : A) (ps : list (string * A)) : list (string * A) :=
  match ps with
  | [] => [(k, v)]
  | (k', v') :: ps' =>
      if String.eqb k k' then (k, v) :: ps' else (k', v') :: set k v ps'
  end.

(** [delete o[k]] *)
Fixpoint del {A : Type} (k : string) (ps : list (string * A)) : list (string * A) :=
  match ps with
  | [] => []
  | (k', v') :: ps' =>
      if String.eqb k k' then del k ps' else (k', v') :: del k ps'
  end.

(** [Object.assign(target, source)]; [{...a, ...b}] is
    [assign (assign [] a) b]. *)
Definition assign {A : Type} (target source : list (string * A)) : list (string * A) :=
  fold_left (fun acc p => set (fst p) (snd p) acc) source target.

Definition spread2 {A : Type} (a b : list (string * A)) : list (string * A) :=
  assign (assign [] a) b.

Definition keys {A : Type} (ps : list (string * A)) : list string := map fst ps.

(** [Boolean(x)], also the test of [if (x)]. *)
Definition truthy (x : option value) : bool :=
  match x with
  | None => false
  | Some Null => false
  | Some (Bool b) => b
  | Some (Num n) => negb (n =? 0)
  | Some (Str s) => negb (String.eqb s EmptyString)
  | Some (Arr _) => true
  | Some (Obj _) => true
  end.

Definition isString (x : option value) : option string :=
  match x with
  | Some (Str s) => Some s
  | _ => None
  end.

(** An induction principle that reaches the values inside arrays and
    objects. *)
Fixpoint value_deep_ind (P : value -> Prop)
  (HNull : P Null) (HBool : forall b, P (Bool b)) (HNum : forall n, P (Num n))
  (HStr : forall s, P (Str s))
  (HArr : forall xs, Forall P xs -> P (Arr xs))
  (HObj : forall ps, Forall (fun p => P (snd p)) ps -> P (Obj ps))
  (v : value) {struct v} : P v :=
  match v with
  | Null => HNull
  | Bool b => HBool b
  | Num n => HNum n
  | Str s => HStr s
  | Arr xs =>
      HArr xs
        ((fix go (l : list value) : Forall P l :=
            match l with
            | [] => List.Forall_nil P
            | x :: l' =>
                List.Forall_cons P x l'
                  (value_deep_ind P HNull HBool HNum HStr HArr HObj x) (go l')
            end) xs)
  | Obj ps =>
      HObj ps
        ((fix go (l : props) : Forall (fun p => P (snd p)) l :=
            match l with
            | [] => List.Forall_nil _
            | (k, x) :: l' =>
                List.Forall_cons (fun p => P (snd p)) (k, x) l'
                  (value_deep_ind P HNull HBool HNum HStr HArr HObj x) (go l')
            end) ps)
  end.

(** How deep arrays and objects nest in a value. *)
Fixpoint depth (v : value) : nat :=
  match v with
  | Arr xs => S (fold_right (fun x d => Nat.max (depth x) d) O xs)
  | Obj ps => S (fold_right (fun p d => Nat.max (depth (snd p)) d) O ps)
  | _ => 1%nat
  end.

(** No object in the value has a key twice: what holds of every value
    JavaScript can build. *)
Fixpoint wellKeyed (v : value) : Prop :=
  match v with
  | Arr xs => fold_right (fun x rest => wellKeyed x /\ rest) True xs
  | Obj ps =>
      NoDup (keys ps) /\ fold_right (fun p rest => wellKeyed (snd p) /\ rest) True ps
  | _ => True
  end.

End JS.
Export JS.

(* ===================================================================== *)
(** ** JSON text *)
(* ===================================================================== *)

Module JSON.

Definition dquote : ascii := ascii_of_nat 34.
Definition backslash : ascii := ascii_of_nat 92.

Definition hexDigit (n : nat) : ascii :=
  ascii_of_nat (if Nat.ltb n 10 then 48 + n else 87 + n).

(** One character of a string literal as [JSON.stringify] writes it. *)
Definition escapeChar (c : ascii) : string :=
  let n := nat_of_ascii c in
  if Nat.eqb n 34 then String backslash (String dquote EmptyString)
  else if Nat.eqb n 92 then String backslash (String backslash EmptyString)
  else if Nat.eqb n 8 then String backslash "b"
  else if Nat.eqb n 9 then String backslash "t"
  else if Nat.eqb n 10 then String backslash "n"
  else if Nat.eqb n 12 then String backslash "f"
  else if Nat.eqb n 13 then String backslash "r"
  else if Nat.ltb n 32 then
    String backslash
      (String "u" (String "0" (String "0"
         (String (hexDigit (Nat.div n 16))
            (String (hexDigit (Nat.modulo n 16)) EmptyString)))))
  else String c EmptyString.

Fixpoint escape (s : string) : string :=
  match s with
  | EmptyString => EmptyString
  | String c r => escapeChar c +:+ escape r
  end.

Definition quote (s : string) : string :=
  String dquote (escape s +:+ String dquote EmptyString).

Fixpoint join (sep : string) (l : list string) : string :=
  match l with
  | [] => EmptyString
  | [x] => x
  | x :: l' => x +:+ sep +:+ join sep l'
  end.

(** [JSON.stringify(v)] (no indentation argument). *)
Fixpoint stringify (v : value) : string :=
  match v with
  | Null => "null"
  | Bool true => "true"
  | Bool false => "false"
  | Num n => pretty n
  | Str s => quote s
  | Arr xs => "[" +:+ join "," (map stringify xs) +:+ "]"
  | Obj ps =>
      "{" +:+ join "," (map (fun p => quote (fst p) +:+ ":" +:+ stringify (snd p)) ps)
          +:+ "}"
  end.

(** *** [JSON.parse] *)

Definition isWs (c : ascii) : bool :=
  let n := nat_of_ascii c in
  Nat.eqb n 32 || Nat.eqb n 9 || Nat.eqb n 10 || Nat.eqb n 13.

Fixpoint skipWs (s : string) : string :=
  match s with
  | String c r => if isWs c then skipWs r else s
  | EmptyString => s
  end.

(** [s] after its first character, when that is [c]. *)
Definition after (c : ascii) (s : string) : option string :=
  match s with
  | String c' r => if Ascii.eqb c c' then Some r else None
  | EmptyString => None
  end.

Definition digitOf (c : ascii) : option Z :=
  let n := Z.of_nat (nat_of_ascii c) in
  if (48 <=? n) && (n <=? 57) then Some (n - 48) else None.

Definition hexOf (c : ascii) : option nat :=
  let n := nat_of_ascii c in
  if Nat.leb 48 n && Nat.leb n 57 then Some (n - 48)%nat
  else if Nat.leb 97 n && Nat.leb n 102 then Some (n - 87)%nat
  else if Nat.leb 65 n && Nat.leb n 70 then Some (n - 55)%nat
  else None.

Fixpoint readDigits (s : string) (acc : Z) : Z * string :=
  match s with
  | String c r =>
      match digitOf c with
      | Some d => readDigits r (10 * acc + d)
      | None => (acc, s)
      end
  | EmptyString => (acc, s)
  end.

(** After an integer literal no fraction or exponent may follow: such
    numbers are outside [value], and a text that holds one is not read
    (see [parse]). *)
Definition endsInteger (s : string) : bool :=
  match s with
  | String c _ =>
      let n := nat_of_ascii c in
      negb (Nat.eqb n 46 || Nat.eqb n 101 || Nat.eqb n 69)
  | EmptyString => true
  end.

Definition parseUnsigned (s : string) : option (Z * string) :=
  match s with
  | String c r =>
      match digitOf c with
      | None => None
      | Some d =>
          let '(n, rest) :=
            if d =? 0 then (0, r) else readDigits r d in
          match rest with
          | String c' _ =>
              match digitOf c' with
              | Some _ => None
              | None => if endsInteger rest then Some (n, rest) else None
              end
          | EmptyString => Some (n, rest)
          end
      end
  | EmptyString => None
  end.



Definition parseNumber (s : string) : option (Z * string) :=
  match after "-" s with
  | Some r =>
      match parseUnsigned r with
      | Some (n, rest) => Some (- n, rest)
      | None => None
      end
  | None => parseUnsigned s
  end.

Definition unescape (c : ascii) : option ascii :=
  let n := nat_of_ascii c in
  if Nat.eqb n 34 then Some dquote
  else if Nat.eqb n 92 then Some backslash
  else if Nat.eqb n 47 then Some "/"%char
  else if Nat.eqb n 98 then Some (ascii_of_nat 8)
  else if Nat.eqb n 116 then Some (ascii_of_nat 9)
  else if Nat.eqb n 110 then Some (ascii_of_nat 10)
  else if Nat.eqb n 102 then Some (ascii_of_nat 12)
  else if Nat.eqb n 114 then Some (ascii_of_nat 13)
  else None.

Definition consChar (c : ascii) (r : option (string * string)) : option (string * string) :=
  match r with
  | Some (s, rest) => Some (String c s, rest)
  | None => None
  end.

(** The UTF-8 bytes of a code point from U+0080 up. *)
Definition utf8 (cp : N) : string :=
  let byte (n : N) := ascii_of_N n in
  (if cp <? 2048 then
     String (byte (192 + cp / 64)) (String (byte (128 + cp mod 64)) EmptyString)
   else if cp <? 65536 then
     String (byte (224 + cp / 4096))
       (String (byte (128 + (cp / 64) mod 64))
          (String (byte (128 + cp mod 64)) EmptyString))
   else
     String (byte (240 + cp / 262144))
       (String (byte (128 + (cp / 4096) mod 64))
          (String (byte (128 + (cp / 64) mod 64))
             (String (byte (128 + cp mod 64)) EmptyString))))%N.

(** The code unit four hexadecimal digits spell. *)
Definition codeUnit (h1 h2 h3 h4 : ascii) : option N :=
  match hexOf h1, hexOf h2, hexOf h3, hexOf h4 with
  | Some a, Some b, Some c, Some d =>
      Some (((N.of_nat a * 16 + N.of_nat b) * 16 + N.of_nat c) * 16 + N.of_nat d)%N
  | _, _, _, _ => None
  end.

Definition isHighSurrogate (u : N) : bool := ((55296 <=? u) && (u <? 56320))%N.

Definition isLowSurrogate (u : N) : bool := ((56320 <=? u) && (u <? 57344))%N.

Definition consText (s : string) (r : option (string * string)) : option (string * string) :=
  match r with
  | Some (t, rest) => Some (s +:+ t, rest)
  | None => None
  end.

(** The characters of a string literal after its opening quote, up to
    and including the closing one. A [\uXXXX] escape stands for its
    code unit, two of them for a code point when they are a surrogate
    pair; a surrogate on its own has no UTF-8 text and is not read. *)
Fixpoint parseChars (s : string) : option (string * string) :=
  match s with
  | EmptyString => None
  | String c r =>
      let n := nat_of_ascii c in
      if Nat.eqb n 34 then Some (EmptyString, r)
      else if Nat.eqb n 92 then
        match r with
        | String e r' =>
            match unescape e with
            | Some ch => consChar ch (parseChars r')
            | None =>
                if Nat.eqb (nat_of_ascii e) 117 then
                  match r' with
                  | String h1 (String h2 (String h3 (String h4 r''))) =>
                      match codeUnit h1 h2 h3 h4 with
                      | Some code =>
                          if (code <? 128)%N
                          then consChar (ascii_of_N code) (parseChars r'')
                          else if isHighSurrogate code then
                            match r'' with
                            | String b (String u (String g1 (String g2
                                (String g3 (String g4 r3))))) =>
                                if Nat.eqb (nat_of_ascii b) 92 && Nat.eqb (nat_of_ascii u) 117
                                then
                                  match codeUnit g1 g2 g3 g4 with
                                  | Some low =>
                                      if isLowSurrogate low
                                      then consText
                                             (utf8 (65536 + (code - 55296) * 1024
                                                      + (low - 56320))%N)
                                             (parseChars r3)
                                      else None
                                  | None => None
                                  end
                                else None
                            | _ => None
                            end
                          else if isLowSurrogate code then None
                          else consText (utf8 code) (parseChars r'')
                      | None => None
                      end
                  | _ => None
                  end
                else None
            end
        | EmptyString => None
        end
      else if Nat.ltb n 32 then None
      else consChar c (parseChars r)
  end.

Definition parseString (s : string) : option (string * string) :=
  match s with
  | String c r => if Nat.eqb (nat_of_ascii c) 34 then parseChars r else None
  | EmptyString => None
  end.

(** [s] without its prefix [lit], when it has it. *)
Fixpoint stripPrefix (lit s : string) : option string :=
  match lit with
  | EmptyString => Some s
  | String c lit' =>
      match s with
      | String c' s' => if Ascii.eqb c c' then stripPrefix lit' s' else None
      | EmptyString => None
      end
  end.

Definition expect (lit : string) (v : value) (s : string) : option (value * string) :=
  match stripPrefix lit s with
  | Some rest => Some (v, rest)
  | None => None
  end.


(** The elements of an array after the first bracket, [k] of them at
    most, each read by [item]. *)
Fixpoint parseElements (item : string -> option (value * string))
  (k : nat) (acc : list value) (t : string) : option (value * string) :=
  match k with
  | O => None
  | S k' =>
      match item t with
      | None => None
      | Some (v, t1) =>
          match after "," (skipWs t1) with
          | Some t2 => parseElements item k' (acc ++ [v]) t2
          | None =>
              match after "]" (skipWs t1) with
              | Some t2 => Some (Arr (acc ++ [v]), t2)
              | None => None
              end
          end
      end
  end.

(** The members of an object after the first brace; a key that comes
    again overwrites the value it had. *)
Fixpoint parseMembers (item : string -> option (value * string))
  (k : nat) (acc : props) (t : string) : option (value * string) :=
  match k with
  | O => None
  | S k' =>
      match parseString (skipWs t) with
      | None => None
      | Some (key, t1) =>
          match after ":" (skipWs t1) with
          | None => None
          | Some t2 =>
              match item t2 with
              | None => None
              | Some (v, t3) =>
                  match after "," (skipWs t3) with
                  | Some t4 => parseMembers item k' (set key v acc) t4
                  | None =>
                      match after "}" (skipWs t3) with
                      | Some t4 => Some (Obj (set key v acc), t4)
                      | None => None
                      end
                  end
              end
          end
      end
  end.

(** A recursive-descent reader. [fuel] bounds how deep arrays and
    objects nest, which the length of the text always does; the two
    inner loops are given the length of what is left to read. *)
Fixpoint parseValue (fuel : nat) (s : string) : option (value * string) :=
  match fuel with
  | O => None
  | S fuel' =>
      match skipWs s with
      | EmptyString => None
      | String c r as s' =>
          if Ascii.eqb c "{" then
            match after "}" (skipWs r) with
            | Some r' => Some (Obj [], r')
            | None => parseMembers (parseValue fuel') (String.length r) [] r
            end
          else if Ascii.eqb c "[" then
            match after "]" (skipWs r) with
            | Some r' => Some (Arr [], r')
            | None => parseElements (parseValue fuel') (String.length r) [] r
            end
          else if Ascii.eqb c dquote then
            match parseChars r with
            | Some (str, rest) => Some (Str str, rest)
            | None => None
            end
          else if Ascii.eqb c "t" then expect "true" (Bool true) s'
          else if Ascii.eqb c "f" then expect "false" (Bool false) s'
          else if Ascii.eqb c "n" then expect "null" Null s'
          else
            match parseNumber s' with
            | Some (z, rest) => Some (Num z, rest)
            | None => None
            end
      end
  end.

(** [JSON.parse(text)]; [None] stands for the [SyntaxError] it throws.
    It is also what a text gets that is JSON and holds what [value] does
    not: a number with a fraction or an exponent, a surrogate on its
    own. Object members are kept in the order of the text, the order in
    which JavaScript enumerates them when array indices come first and
    ascending, as [JSON.stringify] writes them. *)
Definition parse (text : string) : option value :=
  match parseValue (S (String.length text)) text with
  | Some (v, rest) =>
      match skipWs rest with
      | EmptyString => Some v
      | _ => None
      end
  | None => None
  end.

(** JSON text written with apostrophes where the quotation marks go,
    for the examples. *)
Fixpoint text (s : string) : string :=
  match s with
  | EmptyString => EmptyString
  | String c r => String (if Nat.eqb (nat_of_ascii c) 39 then dquote else c) (text r)
  end.

End JSON.

(* ===================================================================== *)
(** ** Validators *)
(* ===================================================================== *)

Module Zod.

(** A schema applied to a defined value: [None] is a failed parse,
    [Some v] the parsed data. *)
Definition schema := value -> option value.

(** A schema at an object key, where the property may be missing: the
    input and the parsed data may both be [undefined]. *)
Definition field := option value -> option (option value).

Definition string_ : schema :=
  fun v => match v with Str _ => Some v | _ => None end.

Definition number : schema :=
  fun v => match v with Num _ => Some v | _ => None end.

Definition boolean : schema :=
  fun v => match v with Bool _ => Some v | _ => None end.

Definition unknown : schema := fun v => Some v.

Definition or (a b : schema) : schema :=
  fun v => match a v with Some r => Some r | None => b v end.

Definition enum (options : list string) : schema :=
  fun v =>
    match v with
    | Str s => if existsb (String.eqb s) options then Some v else None
    | _ => None
    end.

Definition required (s : schema) : field :=
  fun x => match x with Some v => Some <$> s v | None => None end.

Definition optional (s : schema) : field :=
  fun x => match x with Some v => Some <$> s v | None => Some None end.

(** [schema.array()] *)
Definition array (s : schema) : schema :=
  fun v => match v with Arr xs => Arr <$> mapM s xs | _ => None end.

Inductive unknownKeys := Strip | Passthrough | Strict.

(** The declared keys, in the order of the declaration; a key whose
    parsed data is [undefined] is not set. *)
Fixpoint parseShape (shape : list (string * field)) (data : props) : option props :=
  match shape with
  | [] => Some []
  | (k, f) :: shape' =>
      match f (get k data), parseShape shape' data with
      | Some r, Some out =>
          Some (match r with Some v => (k, v) :: out | None => out end)
      | _, _ => None
      end
  end.

Definition extraKeys (shape : list (string * field)) (data : props) : props :=
  List.filter (fun p => negb (existsb (String.eqb (fst p)) (map fst shape))) data.

(** The parsed data is a new object on which the parsed pairs are set
    one by one ([mergeObjectSync]); a pair whose key is [__proto__] is
    left out. *)
Definition settable (k : string) : bool := negb (String.eqb k "__proto__").

Definition withoutProto {A : Type} (pairs : list (string * A)) : list (string * A) :=
  List.filter (fun p => settable (fst p)) pairs.

(** [zod.object(shape)], [.passthrough()], [.strict()]: the input has to
    be an object; the parsed data holds the declared keys first and,
    with [Passthrough], the other keys after them as they came, a key
    [__proto__] apart. (No shape of the migrations declares that key.) *)
Definition object (shape : list (string * field)) (mode : unknownKeys) (v : value)
  : option props :=
  match v with
  | Obj data =>
      match parseShape shape data with
      | None => None
      | Some out =>
          match mode with
          | Strip => Some out
          | Passthrough => Some (out ++ withoutProto (extraKeys shape data))
          | Strict =>
              match extraKeys shape data with
              | [] => Some out
              | _ => None
              end
          end
      end
  | _ => None
  end.

(** [zod.record(keySchema, valueSchema)]: every key and every value is
    parsed; the parsed data is a new object filled key by key, a key
    [__proto__] apart. *)
Fixpoint recordEntries (keyOf : string -> option string) (s : schema)
  (data : props) (acc : props) : option props :=
  match data with
  | [] => Some acc
  | (k, v) :: data' =>
      match keyOf k, s v with
      | Some k', Some v' =>
          recordEntries keyOf s data' (if settable k' then set k' v' acc else acc)
      | _, _ => None
      end
  end.

Definition recordWith (keyOf : string -> option string) (s : schema) : schema :=
  fun v =>
    match v with
    | Obj data => Obj <$> recordEntries keyOf s data []
    | _ => None
    end.

(** [zod.record(valueSchema)] *)
Definition record (s : schema) : schema := recordWith Some s.

End Zod.

(* ===================================================================== *)
(** ** The update API *)
(* ===================================================================== *)

Module UpdateApi.

(** *** Errors, collaborators and state *)

(** What a migration can throw: a failed [parse] of a validator, a
    failed [JSON.parse], a rejected storage connection, or an [Error]
    made by the runner itself, which keeps its cause. *)
#[warnings="-register-all"]
Inductive error :=
| ZodError
| SyntaxError
| Rejected (reason : string)
| Error (message : string) (cause : option error).

(** The constants and helpers [main.ts] imports from the rest of the
    extension ([storages], [common/constants], [schema],
    [common/settings], [common/error]). *)
Record Externals := {
  RAW_FILTER_KEY_PREFIX : string;
  FILTER_KEY_PREFIX : string;
  FiltersStorage_extractFilterIdFromFilterKey : string -> option Z;
  FiltersStorage_prepareFilterForStorage : Z -> list string -> list (string * string);
  RawFiltersStorage_extractFilterIdFromFilterKey : string -> option Z;
  SbCache_CACHE_TTL_MS : Z;
  ADGUARD_SETTINGS_KEY : string;
  APP_VERSION_KEY : string;
  CLIENT_ID_KEY : string;
  SCHEMA_VERSION_KEY : string;
  (** [text.split(NEWLINE_CHAR_REGEX)] *)
  NEWLINE_CHAR_REGEX_split : string -> list string;
  (** [SchemaPreprocessor]: both validators are fed the property as it
      is, also when it is missing. *)
  SchemaPreprocessor_booleanValidator : option value -> option bool;
  SchemaPreprocessor_numberValidator : option value -> option Z;
  SettingOption_FiltersVersion : string;
  defaultSettings : props;
  getErrorMessage : error -> string;
  (** [Number(text)], [None] for [NaN] *)
  Number_ofString : string -> option Z
}.

(** What a run finds around it and does not change. *)
Record Host := {
  (** whether [hybridStorage.setMultiple] commits the given data *)
  hybridCommits : list (string * string) -> bool;
  (** the rows of the [AdguardRulesStorage] database, or why they cannot
      be read *)
  idbRows : error + value;
  (** [Date.now()] *)
  now : Z;
  (** [InstallApi.genClientId()] *)
  genClientId : string
}.

Inductive level := LError | LInfo | LDebug.

Record World := mkWorld {
  (** [browserStorage], over [browser.storage.local] *)
  browser : gmap string value;
  (** [hybridStorage] *)
  hybrid : gmap string string;
  (** [window.localStorage] *)
  localStorage : gmap string string;
  (** what [logger] was given, oldest first *)
  logs : list (level * string)
}.

Definition withBrowser (f : gmap string value -> gmap string value) (w : World) : World :=
  mkWorld (f (browser w)) (hybrid w) (localStorage w) (logs w).

(** An asynchronous function: it runs on the state and either resolves
    or rejects, the state being the one reached in both cases. *)
Inductive result (A : Type) :=
| Ok (a : A) (w : World)
| Throw (e : error) (w : World).
Arguments Ok {A} a w.
Arguments Throw {A} e w.

Definition M (A : Type) := World -> result A.

Definition ret {A} (a : A) : M A := fun w => Ok a w.

Definition bind {A B} (m : M A) (k : A -> M B) : M B :=
  fun w => match m w with
           | Ok a w' => k a w'
           | Throw e w' => Throw e w'
           end.

Definition throw {A} (e : error) : M A := fun w => Throw e w.

(** [try { m } catch (e) { handler e }] *)
Definition tryCatch {A} (m : M A) (handler : error -> M A) : M A :=
  fun w => match m w with
           | Ok a w' => Ok a w'
           | Throw e w' => handler e w'
           end.

Declare Scope js_scope.
Delimit Scope js_scope with js.
Notation "x <- m ;; k" := (bind m (fun x => k))
  (at level 100, m at next level, right associativity) : js_scope.
Notation "m ;; k" := (bind m (fun _ => k))
  (at level 100, right associativity) : js_scope.
Open Scope js_scope.

Definition worldOf {A} (r : result A) : World :=
  match r with Ok _ w => w | Throw _ w => w end.

(** [schema.parse(x)] and [JSON.parse(text)] as steps that may throw. *)
Definition parseOrThrow {A} (r : option A) : M A :=
  match r with Some a => ret a | None => throw ZodError end.

Definition JSON_parse (raw : string) : M value :=
  match JSON.parse raw with Some v => ret v | None => throw SyntaxError end.

(** *** Storage and logging primitives

    Every read and write is acknowledged, as the storage interface has
    it: a storage that refuses a write is not part of the model. *)

Definition browserStorage_get (key : string) : M (option value) :=
  fun w => Ok (browser w !! key) w.

Definition browserStorage_set (key : string) (v : value) : M unit :=
  fun w => Ok tt (withBrowser (insert key v) w).

Definition browserStorage_entries : M (gmap string value) :=
  fun w => Ok (browser w) w.

Definition removeAll (ks : list string) (m : gmap string value) : gmap string value :=
  fold_left (fun acc k => delete k acc) ks m.

Definition browserStorage_removeMultiple (ks : list string) : M unit :=
  fun w => Ok tt (withBrowser (removeAll ks) w).

Definition setAll (data : list (string * string)) (m : gmap string string) : gmap string string :=
  fold_left (fun acc p => <[fst p := snd p]> acc) data m.

Definition localStorage_removeItem (key : string) : M unit :=
  fun w => Ok tt (mkWorld (browser w) (hybrid w) (delete key (localStorage w)) (logs w)).

Definition logger (l : level) (msg : string) : M unit :=
  fun w => Ok tt (mkWorld (browser w) (hybrid w) (localStorage w) (logs w ++ [(l, msg)])).

(** [text.split(/\r?\n/)] *)
Fixpoint splitLinesGo (s : string) : string * list string :=
  match s with
  | EmptyString => (EmptyString, [])
  | String c r =>
      let '(l, ls) := splitLinesGo r in
      let n := nat_of_ascii c in
      if Nat.eqb n 10 then (EmptyString, l :: ls)
      else if Nat.eqb n 13 && String.prefix (String (ascii_of_nat 10) EmptyString) r
           then (l, ls)
           else (String c l, ls)
  end.

Definition splitLines (s : string) : list string :=
  let '(l, ls) := splitLinesGo s in l :: ls.

Abbreviation migrationData := (list (string * string)).
Abbreviation diagnostics := (list (level * string)).

(** What the runner did with one version: [(v, true)] when the step
    registered for [v] was awaited and resolved, [(v, false)] when it
    was awaited and rejected. *)
Abbreviation journal := (list (Z * bool)).

Section Engine.

Variable C : Externals.
Variable H : Host.

(** All-or-nothing, as the storage interface promises. *)
Definition hybridStorage_setMultiple (data : list (string * string)) : M bool :=
  fun w =>
    if hybridCommits H data
    then Ok true (mkWorld (browser w) (setAll data (hybrid w)) (localStorage w) (logs w))
    else Ok false w.

(** *** [moveStorageData] *)

Definition moveStorageData (key : string) (currentSettings : props) : M props :=
  let data := get key currentSettings in
  if truthy data then
    match data with
    | Some d => browserStorage_set key d ;; ret (del key currentSettings)
    | None => ret currentSettings
    end
  else ret currentSettings.

(** *** Migration from schema v0 to schema v1 *)

(** [zod.record(zod.unknown()).parse(storageData)] *)
Definition recordOfUnknown (storageData : option value) : option props :=
  match storageData with
  | Some (Obj data) => Zod.recordEntries Some Zod.unknown data []
  | _ => None
  end.

(** [if (settings[key]) delete settings[key]] *)
Definition deleteIfTruthy (key : string) (settings : props) : props :=
  if truthy (get key settings) then del key settings else settings.

(** [if (settings[old] !== undefined) { settings[new] = settings[old];
    delete settings[old] }] *)
Definition renameField (old new : string) (settings : props) : props :=
  match get old settings with
  | Some v => del old (set new v settings)
  | None => settings
  end.

(** [JSON.stringify(transformer.parse(JSON.parse(raw)))] *)
Definition reserialize (transformer : Zod.schema) (raw : string) : M string :=
  parsed <- JSON_parse raw ;;
  data <- parseOrThrow (transformer parsed) ;;
  ret (JSON.stringify data).

(** [if (typeof settings[key] === 'string') settings[key] =
    JSON.stringify(transformer.parse(JSON.parse(settings[key])))] *)
Definition reshapeField (key : string) (transformer : Zod.schema) (settings : props)
  : M props :=
  match get key settings with
  | Some (Str raw) =>
      text <- reserialize transformer raw ;;
      ret (set key (Str text) settings)
  | _ => ret settings
  end.

Definition groupsStateTransformer : Zod.schema :=
  Zod.record (fun v =>
    data ← Zod.object [("enabled", Zod.optional Zod.boolean)] Zod.Passthrough v;
    let enabled := truthy (get "enabled" data) in
    Some (Obj (assign (assign [] data)
                 [("enabled", Bool enabled); ("touched", Bool enabled)]))).

Definition filtersStateTransformer : Zod.schema :=
  Zod.record (fun v =>
    data ← Zod.object [("enabled", Zod.optional Zod.boolean);
                       ("installed", Zod.optional Zod.boolean)] Zod.Passthrough v;
    let installed := get "installed" data in
    let enabled := get "enabled" data in
    let rest := del "enabled" (del "installed" data) in
    Some (Obj (assign (assign [] rest)
                 [("enabled", Bool (truthy enabled));
                  ("installed", Bool (truthy installed))]))).

(** [Number(x)] of a validated number or string; [NaN] is written as
    [Null], which is what [JSON.stringify] makes of it. *)
Definition Number_ (v : value) : value :=
  match v with
  | Num n => Num n
  | Str s => match Number_ofString C s with Some n => Num n | None => Null end
  | _ => Null
  end.

Definition customFiltersDataTransformerV0 : Zod.schema :=
  Zod.array (fun v =>
    data ← Zod.object [("trusted", Zod.optional Zod.boolean);
                       ("timeUpdated", Zod.optional (Zod.or Zod.number Zod.string_))]
                      Zod.Passthrough v;
    let trusted := truthy (get "trusted" data) in
    let timeUpdated :=
      match get "timeUpdated" data with
      | None => Num 0
      | Some t => Number_ t
      end in
    let data := del "languages" data in
    Some (Obj (assign (assign [] data)
                 [("trusted", Bool trusted); ("timeUpdated", timeUpdated)]))).

Definition filtersVersionsTransformer : Zod.schema :=
  Zod.record (fun v =>
    data ← Zod.object [("lastUpdateTime", Zod.optional Zod.number)] Zod.Passthrough v;
    let lastUpdateTime := get "lastUpdateTime" data in
    let rest := del "lastUpdateTime" data in
    Some (Obj (assign (assign [] rest)
                 [("lastUpdateTime", default (Num 0) lastUpdateTime)]))).

Fixpoint includesChar (c : ascii) (s : string) : bool :=
  match s with
  | EmptyString => false
  | String c' r => Ascii.eqb c c' || includesChar c r
  end.

(** The preprocessor in front of ['appearance-theme']: a string with a
    quotation mark in it is read as JSON. *)
Definition appearanceThemePreprocess (x : option value) : M (option value) :=
  match x with
  | Some (Str s) =>
      if includesChar JSON.dquote s
      then (v <- JSON_parse s ;; ret (Some v))
      else ret x
  | _ => ret x
  end.

Definition booleanField : Zod.field :=
  fun x => (fun b => Some (Bool b)) <$> SchemaPreprocessor_booleanValidator C x.

Definition numberField : Zod.field :=
  fun x => (fun n => Some (Num n)) <$> SchemaPreprocessor_numberValidator C x.

Definition settingsShape (theme : option value) : list (string * Zod.field) :=
  [ ("appearance-theme",
      fun _ => Zod.required (Zod.enum ["system"; "dark"; "light"]) theme);
    ("disable-show-page-statistic", booleanField);
    ("detect-filters-disabled", booleanField);
    ("safebrowsing-disabled", booleanField);
    ("filters-update-period", numberField);
    ("use-optimized-filters", booleanField);
    ("hits-count-disabled", booleanField);
    ("context-menu-disabled", booleanField);
    ("show-info-about-adguard-disabled", booleanField);
    ("show-app-updated-disabled", booleanField);
    ("hide-rate-block", booleanField);
    ("user-rules-editor-wrap", booleanField);
    ("allowlist-domains", Zod.required Zod.string_);
    ("block-list-domains", Zod.required Zod.string_);
    ("allowlist-enabled", booleanField);
    ("default-allowlist-mode", booleanField);
    ("stealth-disable-stealth-mode", booleanField);
    ("stealth-hide-referrer", booleanField);
    ("stealth-hide-search-queries", booleanField);
    ("stealth-send-do-not-track", booleanField);
    ("stealth-block-webrtc", booleanField);
    ("stealth-remove-x-client", booleanField);
    ("stealth-block-third-party-cookies", booleanField);
    ("stealth-block-third-party-cookies-time", numberField);
    ("stealth-block-first-party-cookies", booleanField);
    ("stealth-block-first-party-cookies-time", numberField);
    ("user-filter-enabled", booleanField);
    ("filters-state", Zod.optional Zod.string_);
    ("filters-version", Zod.optional Zod.string_);
    ("groups-state", Zod.optional Zod.string_);
    ("custom-filters", Zod.optional Zod.string_);
    ("adguard-disabled", booleanField) ].

(** [settingsValidator.parse(merged)]: the preprocessor of the first key
    runs first and may throw on its own; unknown keys are stripped. *)
Definition settingsValidator (merged : props) : M props :=
  theme <- appearanceThemePreprocess (get "appearance-theme" merged) ;;
  parseOrThrow (Zod.object (settingsShape theme) Zod.Strip (Obj merged)).

(** The field-level edits of [migrateFromV0toV1]: everything up to, and
    not including, the merge with the defaults. *)
Definition editSettingsV0toV1 : M props :=
  localStorage_removeItem "viewed-notifications" ;;
  localStorage_removeItem "viewed-notification-time" ;;
  storageData <- browserStorage_get "adguard-settings" ;;
  currentSettings <- parseOrThrow (recordOfUnknown storageData) ;;
  let currentSettings := deleteIfTruthy "app-version" currentSettings in
  let currentSettings := deleteIfTruthy "filters-i18n-metadata" currentSettings in
  let currentSettings := deleteIfTruthy "filters-metadata" currentSettings in
  let currentSettings :=
    renameField "default-whitelist-mode" "default-allowlist-mode" currentSettings in
  let currentSettings :=
    renameField "white-list-domains" "allowlist-domains" currentSettings in
  let currentSettings :=
    renameField "stealth_disable_stealth_mode" "stealth-disable-stealth-mode"
      currentSettings in
  let currentSettings := renameField "custom_filters" "custom-filters" currentSettings in
  currentSettings <- reshapeField "groups-state" groupsStateTransformer currentSettings ;;
  currentSettings <- reshapeField "filters-state" filtersStateTransformer currentSettings ;;
  currentSettings <-
    reshapeField "custom-filters" customFiltersDataTransformerV0 currentSettings ;;
  currentSettings <-
    reshapeField "filters-version" filtersVersionsTransformer currentSettings ;;
  currentSettings <- moveStorageData "viewed-notifications" currentSettings ;;
  currentSettings <- moveStorageData "viewed-notification-time" currentSettings ;;
  currentSettings <- moveStorageData "client-id" currentSettings ;;
  currentSettings <- moveStorageData "page-statistic" currentSettings ;;
  currentSettings <- moveStorageData "safebrowsing-suspended-from" currentSettings ;;
  currentSettings <- moveStorageData "sb-lru-cache" currentSettings ;;
  ret currentSettings.

Definition migrateFromV0toV1 : M unit :=
  currentSettings <- editSettingsV0toV1 ;;
  settings <- settingsValidator (spread2 (defaultSettings C) currentSettings) ;;
  browserStorage_set "adguard-settings" (Obj settings).

(** *** Migration from schema v1 to schema v2 *)

(** [zod.object({ key: zod.string(), value: zod.string() })], read as
    the pair it validates. *)
Definition keyValueRow (mode : Zod.unknownKeys) (v : value) : option (string * string) :=
  data ← Zod.object [("key", Zod.required Zod.string_);
                     ("value", Zod.required Zod.string_)] mode v;
  match get "key" data, get "value" data with
  | Some (Str key), Some (Str val) => Some (key, val)
  | _, _ => None
  end.

Definition keyValueRows (mode : Zod.unknownKeys) (v : value) : option (list (string * string)) :=
  match v with
  | Arr xs => mapM (keyValueRow mode) xs
  | _ => None
  end.

Definition sbRecordV2 (row : string * string) : value :=
  let '(key, val) := row in
  let safebrowsingCacheRecord := [("list", Str val)] in
  let safebrowsingCacheRecord :=
    if negb (String.eqb val "allowlist")
    then set "expires" (Num (now H + SbCache_CACHE_TTL_MS C)) safebrowsingCacheRecord
    else safebrowsingCacheRecord in
  Obj [("key", Str key); ("value", Obj safebrowsingCacheRecord)].

Definition migrateFromV1toV2 : M unit :=
  storageData <- browserStorage_get "sb-lru-cache" ;;
  match storageData with
  | Some (Str text) =>
      parsed <- JSON_parse text ;;
      sbStorageDataV1 <- parseOrThrow (keyValueRows Zod.Strict parsed) ;;
      let sbStorageDataV2 := map sbRecordV2 sbStorageDataV1 in
      browserStorage_set "sb-lru-cache" (Str (JSON.stringify (Arr sbStorageDataV2)))
  | _ => ret tt
  end.

(** *** Migration from schema v2 to schema v3 *)

Fixpoint setEach (lists : list (string * string)) : M unit :=
  match lists with
  | [] => ret tt
  | (key, val) :: lists' =>
      browserStorage_set key (Arr (map Str (splitLines val))) ;;
      setEach lists'
  end.

(** The [try]/[catch]/[finally] block that copies the user rules out of
    the indexed database. *)
Definition migrateUserRules : M unit :=
  tryCatch
    (match idbRows H with
     | inl e => throw e
     | inr data =>
         lists <- parseOrThrow (keyValueRows Zod.Strip data) ;;
         setEach lists
     end)
    (fun e =>
       logger LInfo ("Error while migrate user rules " +:+ getErrorMessage C e)).

Definition customFiltersDataTransformerV2 : Zod.schema :=
  Zod.array (fun v =>
    data ← Zod.object [("trusted", Zod.optional Zod.boolean)] Zod.Passthrough v;
    let trusted := get "trusted" data in
    let rest := del "trusted" data in
    Some (Obj (assign (assign [] rest) [("trusted", Bool (truthy trusted))]))).

Definition migrateFromV2toV3 : M unit :=
  migrateUserRules ;;
  storageData <- browserStorage_get "adguard-settings" ;;
  settings <- parseOrThrow (recordOfUnknown storageData) ;;
  match get "custom-filters" settings with
  | Some (Str customFilters) =>
      text <- reserialize customFiltersDataTransformerV2 customFilters ;;
      browserStorage_set "adguard-settings"
        (Obj (set "custom-filters" (Str text) settings))
  | _ => ret tt
  end.

(** *** Migration from schema v3 to schema v4 *)

Definition filterSchema : Zod.schema :=
  Zod.or Zod.string_ (Zod.array Zod.string_).

(** [Array.isArray(data) ? data : data.split(NEWLINE_CHAR_REGEX)], on
    data that passed [filterSchema]. *)
Definition linesOf (data : value) : list string :=
  match data with
  | Arr xs => omap (fun x => match x with Str s => Some s | _ => None end) xs
  | Str s => NEWLINE_CHAR_REGEX_split C s
  | _ => []
  end.

(** The body of [filterKeys.forEach]. *)
Definition stageFilter (entries : gmap string value)
  (acc : migrationData * diagnostics) (key : string) : migrationData * diagnostics :=
  let '(staged, diag) := acc in
  match FiltersStorage_extractFilterIdFromFilterKey C key with
  | None =>
      (staged,
       diag ++ [(LDebug, "Failed to extract filter ID from the key: " +:+ key
                           +:+ ", skipping")])
  | Some filterId =>
      match entries !! key ≫= filterSchema with
      | None =>
          (staged,
           diag ++ [(LDebug, "Failed to parse data from filter ID " +:+ pretty filterId
                               +:+ " from the old storage: "
                               +:+ getErrorMessage C ZodError)])
      | Some data =>
          (assign staged
             (FiltersStorage_prepareFilterForStorage C filterId (linesOf data)),
           diag)
      end
  end.

(** The body of [rawFilterKeys.forEach]. *)
Definition stageRawFilter (entries : gmap string value)
  (acc : migrationData * diagnostics) (key : string) : migrationData * diagnostics :=
  let '(staged, diag) := acc in
  match RawFiltersStorage_extractFilterIdFromFilterKey C key with
  | None =>
      (staged,
       diag ++ [(LDebug, "Failed to extract raw filter ID from the key: " +:+ key
                           +:+ ", skipping")])
  | Some filterId =>
      match isString (entries !! key) with
      | None =>
          (staged,
           diag ++ [(LDebug, "Failed to parse data from raw filter ID "
                               +:+ pretty filterId +:+ " from the old storage: "
                               +:+ getErrorMessage C ZodError)])
      | Some data => (set key data staged, diag)
      end
  end.

Definition rawFilterKeysOf (entries : gmap string value) : list string :=
  List.filter (String.prefix (RAW_FILTER_KEY_PREFIX C)) (map fst (map_to_list entries)).

Definition filterKeysOf (entries : gmap string value) : list string :=
  List.filter (String.prefix (FILTER_KEY_PREFIX C)) (map fst (map_to_list entries)).

(** Both loops, the processed filters first. *)
Definition stageAll (entries : gmap string value) : migrationData * diagnostics :=
  fold_left (stageRawFilter entries) (rawFilterKeysOf entries)
    (fold_left (stageFilter entries) (filterKeysOf entries) ([], [])).

Fixpoint logAll (diag : diagnostics) : M unit :=
  match diag with
  | [] => ret tt
  | (l, msg) :: diag' => logger l msg ;; logAll diag'
  end.

Definition filterVersionDataValidatorV3 : Zod.schema :=
  fun v =>
    Obj <$> Zod.object [("lastCheckTime", Zod.required Zod.number);
                        ("lastScheduledCheckTime", Zod.optional Zod.number)]
                       Zod.Passthrough v.

Definition filtersVersionDataValidatorV3 (v : value) : option props :=
  match v with
  | Obj data =>
      Zod.recordEntries
        (fun key => pretty <$> SchemaPreprocessor_numberValidator C (Some (Str key)))
        filterVersionDataValidatorV3 data []
  | _ => None
  end.

(** [if (isUndefined(filterData.lastScheduledCheckTime))
    filterData.lastScheduledCheckTime = filterData.lastCheckTime] *)
Definition backfillScheduledCheck (filterData : value) : value :=
  match filterData with
  | Obj ps =>
      match get "lastScheduledCheckTime" ps, get "lastCheckTime" ps with
      | None, Some t => Obj (set "lastScheduledCheckTime" t ps)
      | _, _ => filterData
      end
  | _ => filterData
  end.

Definition backfillAll (filtersVersion : props) : props :=
  map (fun p => (fst p, backfillScheduledCheck (snd p))) filtersVersion.

(** The second half of [migrateFromV3toV4], from the read of the
    settings on. *)
Definition migrateFiltersVersionV3toV4 : M unit :=
  storageData <- browserStorage_get (ADGUARD_SETTINGS_KEY C) ;;
  settings <- parseOrThrow (recordOfUnknown storageData) ;;
  match get (SettingOption_FiltersVersion C) settings with
  | Some (Str rawFiltersVersion) =>
      parsed <- JSON_parse rawFiltersVersion ;;
      match filtersVersionDataValidatorV3 parsed with
      | Some filtersVersion =>
          let filtersVersion := backfillAll filtersVersion in
          let settings :=
            set (SettingOption_FiltersVersion C)
              (Str (JSON.stringify (Obj filtersVersion))) settings in
          browserStorage_set (ADGUARD_SETTINGS_KEY C) (Obj settings) ;;
          logger LDebug "Filters version data successfully migrated from the old storage"
      | None =>
          logger LDebug ("Failed to parse filters version data from the old storage: "
                           +:+ getErrorMessage C ZodError)
      end
  | _ => logger LDebug "Filters version data is not a string, skipping migration"
  end.

Definition migrateFromV3toV4 : M unit :=
  entries <- browserStorage_entries ;;
  let rawFilterKeys := rawFilterKeysOf entries in
  let filterKeys := filterKeysOf entries in
  if Nat.eqb (length rawFilterKeys) 0 && Nat.eqb (length filterKeys) 0 then
    logger LDebug "No filters to migrate from storage to hybrid storage"
  else
    let '(staged, diag) := stageAll entries in
    logAll diag ;;
    transactionResult <- hybridStorage_setMultiple staged ;;
    if negb transactionResult then
      throw (Error
        "Failed to migrate filters from storage to hybrid storage, transaction failed"
        None)
    else
      browserStorage_removeMultiple (rawFilterKeys ++ filterKeys) ;;
      logger LDebug "Filters successfully migrated from storage to hybrid storage" ;;
      migrateFiltersVersionV3toV4.

(** *** The runner *)

Record RunInfo := {
  clientId : option string;
  currentAppVersion : string;
  currentSchemaVersion : Z;
  previousSchemaVersion : Z
}.

Definition errMessage (previousSchemaVersion currentSchemaVersion : Z) (e : error)
  : string :=
  "Error while schema migrating from " +:+ pretty previousSchemaVersion
    +:+ " to " +:+ pretty currentSchemaVersion +:+ ": " +:+ getErrorMessage C e.

Definition runSchemaMigration (schemaMigrationAction : M unit)
  (previousSchemaVersion currentSchemaVersion : Z) : M unit :=
  tryCatch schemaMigrationAction
    (fun e =>
       let errMessage := errMessage previousSchemaVersion currentSchemaVersion e in
       logger LError errMessage ;;
       throw (Error errMessage (Some e))).

Definition cannotFind (previousSchemaVersion currentSchemaVersion : Z) : error :=
  Error ("Cannot find schema migration action from " +:+ pretty previousSchemaVersion
           +:+ " to " +:+ pretty currentSchemaVersion +:+ ".") None.

(** The [catch] block of [runMigrations]. *)
Definition resetSettings (e : error) : M unit :=
  logger LError ("Error while migrate: " +:+ getErrorMessage C e) ;;
  logger LInfo "Reset settings..." ;;
  browserStorage_set (ADGUARD_SETTINGS_KEY C) (Obj (defaultSettings C)).

Section Runner.

(** The runner over any table of steps; [schemaMigrationMap] below is
    the table of the extension. *)
Variable migrationMap : Z -> option (M unit).

(** The [for] loop of [runMigrations], with the versions it went
    through. [n] counts the iterations left: the loop is entered with
    [n = currentSchemaVersion - previousSchemaVersion] (or [0] when that
    is negative). *)
Fixpoint migrationLoop (currentSchemaVersion previousSchemaVersion : Z)
  (n : nat) (schema : Z) (w : World) : journal * result unit :=
  match n with
  | O => ([], Ok tt w)
  | S n' =>
      if schema <? currentSchemaVersion then
        match migrationMap schema with
        | None =>
            ([], Throw (cannotFind previousSchemaVersion currentSchemaVersion) w)
        | Some schemaMigrationAction =>
            match runSchemaMigration schemaMigrationAction schema (schema + 1) w with
            | Ok _ w' =>
                let '(j, r) :=
                  migrationLoop currentSchemaVersion previousSchemaVersion
                    n' (schema + 1) w' in
                ((schema, true) :: j, r)
            | Throw e w' => ([(schema, false)], Throw e w')
            end
        end
      else ([], Ok tt w)
  end.

(** The [try] block of [runMigrations]. *)
Definition tryMigrations (currentSchemaVersion previousSchemaVersion : Z) (w : World)
  : journal * result unit :=
  migrationLoop currentSchemaVersion previousSchemaVersion
    (Z.to_nat (currentSchemaVersion - previousSchemaVersion))
    previousSchemaVersion w.

Definition runMigrationsWith (currentSchemaVersion previousSchemaVersion : Z) (w : World)
  : journal * result unit :=
  let '(j, r) := tryMigrations currentSchemaVersion previousSchemaVersion w in
  (j, match r with
      | Ok _ w' => Ok tt w'
      | Throw e w' => resetSettings e w'
      end).

(** The three writes [update] makes before it runs the migrations. *)
Definition bookkeeping (runInfo : RunInfo) : M unit :=
  (match clientId runInfo with
   | Some id =>
       if truthy (Some (Str id))
       then browserStorage_set (CLIENT_ID_KEY C) (Str id)
       else browserStorage_set (CLIENT_ID_KEY C) (Str (genClientId H))
   | None => browserStorage_set (CLIENT_ID_KEY C) (Str (genClientId H))
   end) ;;
  browserStorage_set (SCHEMA_VERSION_KEY C) (Num (currentSchemaVersion runInfo)) ;;
  browserStorage_set (APP_VERSION_KEY C) (Str (currentAppVersion runInfo)).

Definition updateWith (runInfo : RunInfo) (w : World) : journal * result unit :=
  match bookkeeping runInfo w with
  | Ok _ w' =>
      runMigrationsWith (currentSchemaVersion runInfo) (previousSchemaVersion runInfo) w'
  | Throw e w' => ([], Throw e w')
  end.

End Runner.

Definition schemaMigrationMap (schema : Z) : option (M unit) :=
  match schema with
  | 0 => Some migrateFromV0toV1
  | 1 => Some migrateFromV1toV2
  | 2 => Some migrateFromV2toV3
  | 3 => Some migrateFromV3toV4
  | _ => None
  end.

Definition runMigrations := runMigrationsWith schemaMigrationMap.

Definition update := updateWith schemaMigrationMap.

End Engine.

(** The versions a journal went through, and those among them whose
    step resolved. *)
Definition started (j : journal) : list Z := map fst j.

Definition completed (j : journal) : list Z :=
  map fst (List.filter snd j).

(** The schema version a store has reached when the steps in [done_]
    resolved: one past the highest of them, or [0] when there is none. *)
Definition reachedVersion (done_ : list Z) : Z :=
  fold_right (fun v acc => Z.max (v + 1) acc) 0 done_.

End UpdateApi.

(* ===================================================================== *)
(** ** A concrete configuration *)
(* ===================================================================== *)

Module Sample.
Import UpdateApi.

Definition decimal (s : string) : option Z :=
  match JSON.parseNumber s with
  | Some (n, EmptyString) => Some n
  | _ => None
  end.

Definition isSpace (c : ascii) : bool :=
  let n := nat_of_ascii c in
  Nat.eqb n 32 || (Nat.leb 9 n && Nat.leb n 13).

Fixpoint skipSpace (s : string) : string :=
  match s with
  | String c r => if isSpace c then skipSpace r else s
  | EmptyString => s
  end.

(** Digits in the given radix up to the end of the text, white space
    apart; there has to be one. *)
Fixpoint readRadix (radix : Z) (digit : ascii -> option Z) (s : string)
  (acc : Z) (seen : bool) : option Z :=
  match s with
  | EmptyString => if seen then Some acc else None
  | String c r =>
      match digit c with
      | Some d => readRadix radix digit r (radix * acc + d) true
      | None => if seen && String.eqb (skipSpace s) EmptyString then Some acc else None
      end
  end.

Definition digitBelow (radix : Z) (c : ascii) : option Z :=
  match JSON.hexOf c with
  | Some d => if Z.of_nat d <? radix then Some (Z.of_nat d) else None
  | None => None
  end.

(** Decimal digits, with the number of them. *)
Fixpoint readDecimal (s : string) (acc : Z) (count : nat) : Z * nat * string :=
  match s with
  | String c r =>
      match JSON.digitOf c with
      | Some d => readDecimal r (10 * acc + d) (S count)
      | None => (acc, count, s)
      end
  | EmptyString => (acc, count, s)
  end.

Definition isSafe (n : Z) : bool := Z.abs n <? 9007199254740992.

(** An unsigned decimal literal up to the end of the text: digits, a
    fraction, an exponent. *)
Definition unsignedDecimal (s : string) : option Z :=
  let '(i, ni, s1) := readDecimal s 0 0 in
  let '(m, nf, s2) :=
    match JSON.after "." s1 with
    | Some r => readDecimal r i 0
    | None => (i, 0%nat, s1)
    end in
  if Nat.eqb (ni + nf) 0 then None
  else
    let exponent :=
      match s2 with
      | String c r =>
          if Ascii.eqb c "e" || Ascii.eqb c "E" then
            let '(sign, r1) :=
              match r with
              | String c' r' =>
                  if Ascii.eqb c' "+" then (1, r')
                  else if Ascii.eqb c' "-" then (-1, r')
                  else (1, r)
              | EmptyString => (1, r)
              end in
            let '(e, ne, s3) := readDecimal r1 0 0 in
            if Nat.eqb ne 0 then None else Some (sign * e, s3)
          else Some (0, s2)
      | EmptyString => Some (0, s2)
      end in
    match exponent with
    | None => None
    | Some (e, s3) =>
        if negb (String.eqb (skipSpace s3) EmptyString) then None
        else
          let p := e - Z.of_nat nf in
          if m =? 0 then Some 0
          else if 0 <=? p then
            if (p <? 17) && isSafe (m * 10 ^ p) then Some (m * 10 ^ p) else None
          else if (- p <=? Z.of_nat (ni + nf)) && (m mod 10 ^ (- p) =? 0)
                  && isSafe (m / 10 ^ (- p))
               then Some (m / 10 ^ (- p)) else None
    end.

(** [Number(text)] where the text spells an integer below [2^53] in
    magnitude: ASCII white space around it, a sign, leading zeros, a
    fraction and an exponent that leave an integer, or a binary, octal
    or hexadecimal literal; the empty text gives [0]. [None], for [NaN],
    on a text that is no numeric literal, and on [Infinity], which is
    written as [null] like [NaN]. A text that spells a number with a
    fraction, or a greater one, or that has other white space than
    ASCII's around it, is not part of this configuration. *)
Definition numberOf (s : string) : option Z :=
  match skipSpace s with
  | EmptyString => Some 0
  | String c r as t =>
      let radix :=
        match r with
        | String x r' =>
            if Ascii.eqb c "0" then
              if Ascii.eqb x "x" || Ascii.eqb x "X" then Some (16, r')
              else if Ascii.eqb x "o" || Ascii.eqb x "O" then Some (8, r')
              else if Ascii.eqb x "b" || Ascii.eqb x "B" then Some (2, r')
              else None
            else None
        | EmptyString => None
        end in
      match radix with
      | Some (radix, digits) =>
          match readRadix radix (digitBelow radix) digits 0 false with
          | Some n => if isSafe n then Some n else None
          | None => None
          end
      | None =>
          if Ascii.eqb c "+" then unsignedDecimal r
          else if Ascii.eqb c "-" then Z.opp <$> unsignedDecimal r
          else unsignedDecimal t
      end
  end.

Definition idAfter (prefix key : string) : option Z :=
  if String.prefix prefix key
  then decimal (String.substring (String.length prefix)
                  (String.length key - String.length prefix) key)
  else None.

Definition castBoolean (x : option value) : option bool :=
  match x with
  | Some (Bool b) => Some b
  | Some (Str s) =>
      match JSON.parse s with
      | Some v => Some (truthy (Some v))
      | None => None
      end
  | _ => None
  end.

Definition castNumber (x : option value) : option Z :=
  match x with
  | Some (Num n) => Some n
  | Some (Str s) => numberOf s
  | _ => None
  end.

Definition messageOf (e : error) : string :=
  match e with
  | ZodError => "ZodError"
  | SyntaxError => "SyntaxError"
  | Rejected reason => reason
  | Error message _ => message
  end.

Definition defaults : props :=
  [ ("appearance-theme", Str "system");
    ("disable-show-page-statistic", Bool false);
    ("detect-filters-disabled", Bool false);
    ("safebrowsing-disabled", Bool true);
    ("filters-update-period", Num (-1));
    ("use-optimized-filters", Bool false);
    ("hits-count-disabled", Bool true);
    ("context-menu-disabled", Bool false);
    ("show-info-about-adguard-disabled", Bool false);
    ("show-app-updated-disabled", Bool false);
    ("hide-rate-block", Bool false);
    ("user-rules-editor-wrap", Bool false);
    ("allowlist-domains", Str "[]");
    ("block-list-domains", Str "[]");
    ("allowlist-enabled", Bool true);
    ("default-allowlist-mode", Bool true);
    ("stealth-disable-stealth-mode", Bool true);
    ("stealth-hide-referrer", Bool true);
    ("stealth-hide-search-queries", Bool true);
    ("stealth-send-do-not-track", Bool true);
    ("stealth-block-webrtc", Bool false);
    ("stealth-remove-x-client", Bool true);
    ("stealth-block-third-party-cookies", Bool true);
    ("stealth-block-third-party-cookies-time", Num 2880);
    ("stealth-block-first-party-cookies", Bool false);
    ("stealth-block-first-party-cookies-time", Num 4320);
    ("user-filter-enabled", Bool true);
    ("adguard-disabled", Bool false) ].

(** Modelled from the spec: a configuration for the constants and
    helpers [main.ts] imports, none of which is in the source at hand.
    The settings record and the legacy filter keys are those of the
    examples of the spec (["adguard-settings"], ["filter_1"],
    ["filter_raw_2"]); the other keys are named after what they hold; a
    filter is staged under its legacy key with its lines joined again;
    the two preprocessing validators cast a string before they check
    it. *)
Definition externals : Externals := {|
  RAW_FILTER_KEY_PREFIX := "filter_raw_";
  FILTER_KEY_PREFIX := "filter_";
  FiltersStorage_extractFilterIdFromFilterKey := idAfter "filter_";
  FiltersStorage_prepareFilterForStorage :=
    fun filterId lines =>
      [("filter_" +:+ pretty filterId,
        JSON.join (String (ascii_of_nat 10) EmptyString) lines)];
  RawFiltersStorage_extractFilterIdFromFilterKey := idAfter "filter_raw_";
  SbCache_CACHE_TTL_MS := 2400000;
  ADGUARD_SETTINGS_KEY := "adguard-settings";
  APP_VERSION_KEY := "app-version";
  CLIENT_ID_KEY := "client-id";
  SCHEMA_VERSION_KEY := "schema-version";
  NEWLINE_CHAR_REGEX_split := splitLines;
  SchemaPreprocessor_booleanValidator := castBoolean;
  SchemaPreprocessor_numberValidator := castNumber;
  SettingOption_FiltersVersion := "filters-version";
  defaultSettings := defaults;
  getErrorMessage := messageOf;
  Number_ofString := numberOf
|}.

(** A host whose hybrid storage commits, and one whose does not. *)
Definition host : Host := {|
  hybridCommits := fun _ => true;
  idbRows := inl (Rejected "no database");
  now := 1700000000000;
  genClientId := "generated-client-id"
|}.

Definition failingHost : Host := {|
  hybridCommits := fun _ => false;
  idbRows := inl (Rejected "no database");
  now := 1700000000000;
  genClientId := "generated-client-id"
|}.

Definition store (entries : list (string * value)) : World :=
  mkWorld (list_to_map entries) ∅ ∅ [].

Definition emptyWorld : World := store [].

Definition runInfo (previous current : Z) : RunInfo := {|
  clientId := None;
  currentAppVersion := "5.0.0";
  currentSchemaVersion := current;
  previousSchemaVersion := previous
|}.

(** The per-filter version field of the example: one filter, checked
    at [1000], with no scheduled check. *)
Definition filtersVersionV3 : string := JSON.text "{'3':{'lastCheckTime':1000}}".


Definition settingsV3 : props := [("filters-version", Str filtersVersionV3)].

(** A store at schema v3 with a processed filter, a raw filter and the
    settings of the example. *)
Definition legacyStore : World :=
  store [ ("filter_1", Str ("line1" +:+ String (ascii_of_nat 10) "line2"));
          ("filter_raw_2", Str "rawtext");
          ("adguard-settings", Obj settingsV3) ].


(** A store at schema v0. *)
Definition settingsV0 : props :=
  [ ("default-whitelist-mode", Bool true);
    ("client-id", Str "0123456789abcdef");
    ("groups-state", Str (JSON.text "{'1':{'enabled':true}}"));
    ("filters-version", Str (JSON.text "{'1':{'version':'1.0.0.0'}}")) ].

Definition storeV0 : World := store [ ("adguard-settings", Obj settingsV0) ].

(** A settings object whose theme is not one of the themes. *)
Definition storeV0BadTheme : World :=
  store [ ("adguard-settings", Obj [("appearance-theme", Str "sepia");
                                     ("client-id", Str "0123456789abcdef")]) ].





(** A store that holds a raw filter and no settings record. *)
Definition filtersOnlyStore : World := store [ ("filter_raw_2", Str "rawtext") ].

(** A legacy filter beside settings whose per-filter version field is
    not JSON. *)
Definition badVersionsStore : World :=
  store [ ("filter_raw_2", Str "rawtext");
          ("adguard-settings", Obj [("filters-version", Str "undefined")]) ].

(** Two custom filters, the second without a [trusted] flag, and what
    the v2 to v3 step makes of them. *)
Definition customFiltersV2 : value :=
  Arr [ Obj [("customUrl", Str "https://example.org/a.txt"); ("trusted", Bool true);
             ("title", Str "A")];
        Obj [("customUrl", Str "https://example.org/b.txt")] ].

Definition customFiltersV3 : value :=
  Arr [ Obj [("customUrl", Str "https://example.org/a.txt"); ("title", Str "A");
             ("trusted", Bool true)];
        Obj [("customUrl", Str "https://example.org/b.txt"); ("trusted", Bool false)] ].

(** A store at schema v2 with those custom filters in its settings. *)
Definition settingsV2 : props :=
  [ ("custom-filters", Str (JSON.stringify customFiltersV2)) ].

Definition storeV2 : World := store [ ("adguard-settings", Obj settingsV2) ].

(** A safebrowsing cache at schema v1: an allowlisted host and a
    blocked one. *)
Definition sbCacheV1 : string :=
  JSON.text "[{'key':'a1b2','value':'allowlist'},{'key':'c3d4','value':'adguard-malware-shavar'}]".

Definition sbRowsV1 : list (string * string) :=
  [ ("a1b2", "allowlist"); ("c3d4", "adguard-malware-shavar") ].

Definition storeV1 : World := store [ ("sb-lru-cache", Str sbCacheV1) ].

(** A settings object whose groups state is not JSON. *)
Definition storeV0BadJson : World :=
  store [ ("adguard-settings", Obj [("groups-state", Str "undefined")]) ].

(** Nested structures as a store at schema v0 may hold them. *)
Definition groupsStateV0 : value :=
  Obj [ ("1", Obj [("enabled", Bool true)]); ("2", Obj []) ].

Definition filtersStateV0 : value :=
  Obj [ ("10", Obj [("loaded", Bool true); ("enabled", Bool true)]) ].

Definition filtersVersionV0 : value :=
  Obj [ ("10", Obj [("version", Str "1.0.0.0")]) ].

Definition customFiltersV0 : value :=
  Arr [ Obj [("customUrl", Str "https://example.org/a.txt");
             ("languages", Arr []); ("timeUpdated", Str "1700000000000")] ].

End Sample.

(* ===================================================================== *)
(** ** Notions used in the statements *)
(* ===================================================================== *)

Module Notions.
Import UpdateApi.

(** The journal of [k] steps in a row that resolved, the first of them
    registered for [schema]. *)
Definition resolvedSteps (schema k : Z) : journal :=
  (fun v => (v, true)) <$> seqZ schema k.

(** The state a rejected step leaves to the runner: the one the step
    reached, with the runner's own error line in the log. *)
Definition afterRejection (C : Externals) (w : World) (a b : Z) (e : error) : World :=
  mkWorld (browser w) (hybrid w) (localStorage w)
    (logs w ++ [(LError, errMessage C a b e)]).

(** An asynchronous function that leaves key [K] of the browser storage
    as it found it, whether it resolves or rejects. *)
Definition keeps {A : Type} (K : string) (m : M A) : Prop :=
  ∀ w, browser (worldOf (m w)) !! K = browser w !! K.

(** The keys the v0 to v1 step moves out of the settings. *)
Definition movedKeys : list string :=
  [ "viewed-notifications"; "viewed-notification-time"; "client-id";
    "page-statistic"; "safebrowsing-suspended-from"; "sb-lru-cache" ].

(** The keys the four steps write by name. *)
Definition keysOfSteps : list string := "adguard-settings" :: movedKeys.

(** Key [K] is out of reach of the four steps: they neither write it by
    name, nor find it among the legacy filter keys or among the rows of
    the indexed database. *)
Definition outOfReach (C : Externals) (H : Host) (K : string) : Prop :=
  K ≠ ADGUARD_SETTINGS_KEY C
  ∧ Forall (fun k => K ≠ k) keysOfSteps
  ∧ String.prefix (RAW_FILTER_KEY_PREFIX C) K = false
  ∧ String.prefix (FILTER_KEY_PREFIX C) K = false
  ∧ match idbRows H with
    | inl _ => True
    | inr data =>
        match keyValueRows Zod.Strip data with
        | Some lists => Forall (fun row => K ≠ fst row) lists
        | None => True
        end
    end.

Definition isStr (v : value) : bool :=
  match v with Str _ => true | _ => false end.

(** A processed-filter key the loop passes over: its filter id cannot
    be read from the key, or its value is neither a string nor an array
    of strings. *)
Definition skippedFilter (C : Externals) (entries : gmap string value) (key : string)
  : bool :=
  match FiltersStorage_extractFilterIdFromFilterKey C key with
  | None => true
  | Some _ =>
      match entries !! key with
      | Some (Str _) => false
      | Some (Arr xs) => negb (forallb isStr xs)
      | _ => true
      end
  end.

(** A raw-filter key the loop passes over: its filter id cannot be read
    from the key, or its value is not a string. *)
Definition skippedRawFilter (C : Externals) (entries : gmap string value) (key : string)
  : bool :=
  match RawFiltersStorage_extractFilterIdFromFilterKey C key with
  | None => true
  | Some _ =>
      match entries !! key with
      | Some (Str _) => false
      | _ => true
      end
  end.

(** The legacy storage holds a filter, raw or processed. *)
Definition hasLegacyFilters (C : Externals) (w : World) : Prop :=
  rawFilterKeysOf C (browser w) ≠ [] ∨ filterKeysOf C (browser w) ≠ [].

Definition legacyKeys (C : Externals) (w : World) : list string :=
  rawFilterKeysOf C (browser w) ++ filterKeysOf C (browser w).

(** The state of the v3 to v4 step once the transaction is committed and
    the legacy keys are removed, before the settings are read. *)
Definition afterConsolidation (C : Externals) (w : World) : World :=
  mkWorld (removeAll (legacyKeys C w) (browser w))
    (setAll (stageAll C (browser w)).1 (hybrid w))
    (localStorage w)
    (logs w ++ (stageAll C (browser w)).2
       ++ [(LDebug, "Filters successfully migrated from storage to hybrid storage")]).

Definition transactionFailed : error :=
  Error "Failed to migrate filters from storage to hybrid storage, transaction failed"
    None.

(** A field schema that hands back the property it was given. *)
Definition faithful (f : Zod.field) : Prop := ∀ x y, f x = Some y → y = x.

(** [k] is one of the keys a shape declares. *)
Definition declared (shape : list (string * Zod.field)) (k : string) : bool :=
  existsb (String.eqb k) (map fst shape).


(** What an asynchronous function resolves to satisfies [Q]. *)
Definition ensures {A : Type} (Q : A → Prop) (m : M A) : Prop :=
  ∀ w a w', m w = Ok a w' → Q a.




(** Nothing that could go on a number comes first in [rest]. *)
Definition numberEnd (rest : string) : bool :=
  match rest with
  | EmptyString => true
  | String c _ =>
      match JSON.digitOf c with
      | Some _ => false
      | None => JSON.endsInteger rest
      end
  end.

(** The characters a serialized value can begin with. *)
Definition startsValue (c : ascii) : bool :=
  Ascii.eqb c "{" || Ascii.eqb c "[" || Ascii.eqb c JSON.dquote
  || Ascii.eqb c "t" || Ascii.eqb c "f" || Ascii.eqb c "n" || Ascii.eqb c "-"
  || match JSON.digitOf c with Some _ => true | None => false end.

(** [fuel] is enough to read [v] back, whatever admissible text comes
    after it. *)
Definition reads (fuel : nat) (v : value) : Prop :=
  ∀ rest, numberEnd rest = true →
    JSON.parseValue fuel (JSON.stringify v +:+ rest) = Some (v, rest).

(** An object member as [JSON.stringify] writes it. *)
Definition member (p : string * value) : string :=
  JSON.quote p.1 +:+ ":" +:+ JSON.stringify p.2.

(** The client id [update] stores: the one of the run when it is a
    non-empty string, a generated one otherwise. *)
Definition storedClientId (H : Host) (runInfo : RunInfo) : string :=
  match clientId runInfo with
  | Some id => if String.eqb id EmptyString then genClientId H else id
  | None => genClientId H
  end.

(** [editSettingsV0toV1] in three phases. First the deletions and
    renamings, which touch the settings object only. *)
Definition renamed (settings : props) : props :=
  renameField "custom_filters" "custom-filters"
    (renameField "stealth_disable_stealth_mode" "stealth-disable-stealth-mode"
       (renameField "white-list-domains" "allowlist-domains"
          (renameField "default-whitelist-mode" "default-allowlist-mode"
             (deleteIfTruthy "filters-metadata"
                (deleteIfTruthy "filters-i18n-metadata"
                   (deleteIfTruthy "app-version" settings)))))).

(** Then the four nested fields, read, transformed and written again. *)
Definition reshaped (C : Externals) (settings : props) : M props :=
  settings <- reshapeField "groups-state" groupsStateTransformer settings ;;
  settings <- reshapeField "filters-state" filtersStateTransformer settings ;;
  settings <- reshapeField "custom-filters" (customFiltersDataTransformerV0 C) settings ;;
  reshapeField "filters-version" filtersVersionsTransformer settings.

(** Then [moveStorageData], called on one key after the other. *)
Fixpoint moveEach (ks : list string) (settings : props) : M props :=
  match ks with
  | [] => ret settings
  | key :: ks' => settings <- moveStorageData key settings ;; moveEach ks' settings
  end.

(** The keys of the four nested fields. *)
Definition nestedFields : list string :=
  ["groups-state"; "filters-state"; "custom-filters"; "filters-version"].

(** The keys the deletions and renamings name. *)
Definition editedNames : list string :=
  [ "app-version"; "filters-i18n-metadata"; "filters-metadata";
    "default-whitelist-mode"; "default-allowlist-mode";
    "white-list-domains"; "allowlist-domains";
    "stealth_disable_stealth_mode"; "stealth-disable-stealth-mode";
    "custom_filters"; "custom-filters" ].

(** The storage [proj] shows is as before when [m] is over, whether it
    resolved or rejected. *)
Definition leaves {A X : Type} (proj : World → X) (m : M A) : Prop :=
  ∀ w, proj (worldOf (m w)) = proj w.

(** The keys of the settings schema that may be missing from a
    validated record. *)
Definition optionalSettings : list string :=
  ["filters-state"; "filters-version"; "groups-state"; "custom-filters"].

Definition themes : list string := ["system"; "dark"; "light"].

Definition isScalar (v : value) : bool :=
  match v with Bool _ | Num _ | Str _ => true | _ => false end.

(** [v'] is the object [v], its [__proto__] key apart, with each of its
    values, an object, replaced by one that [R] relates to it; the same
    for the elements of an array. *)
Definition entrywise (R : props → props → Prop) (v v' : value) : Prop :=
  ∃ data out, v = Obj data ∧ v' = Obj out
    ∧ Forall2 (λ p q, p.1 = q.1 ∧ ∃ d o, p.2 = Obj d ∧ q.2 = Obj o ∧ R d o)
        (Zod.withoutProto data) out.

Definition elementwise (R : props → props → Prop) (v v' : value) : Prop :=
  ∃ xs ys, v = Arr xs ∧ v' = Arr ys
    ∧ Forall2 (λ x y, ∃ d o, x = Obj d ∧ y = Obj o ∧ R d o) xs ys.

(** A text that cannot be JSON: it holds nothing but white space, or
    its first character is one no JSON value begins with. [JSON.parse]
    throws a [SyntaxError] on it. *)
Definition cannotBeJSON (text : string) : bool :=
  match JSON.skipWs text with
  | EmptyString => true
  | String c _ => negb (startsValue c)
  end.

(** The steps registered for [schema], [schema + 1], ..., [k] of them,
    ran one after the other from state [w], each on the state the one
    before it left, and each resolved; the last one left [w']. *)
Fixpoint resolvedRun (migrationMap : Z → option (M unit)) (schema : Z) (k : nat)
  (w w' : World) : Prop :=
  match k with
  | O => w' = w
  | S k' =>
      ∃ act w1,
        migrationMap schema = Some act ∧ act w = Ok tt w1
        ∧ resolvedRun migrationMap (schema + 1) k' w1 w'
  end.






(** The keys of the settings schema by the validator they go through. *)
Definition booleanSettings : list string :=
  [ "disable-show-page-statistic"; "detect-filters-disabled"; "safebrowsing-disabled";
    "use-optimized-filters"; "hits-count-disabled"; "context-menu-disabled";
    "show-info-about-adguard-disabled"; "show-app-updated-disabled"; "hide-rate-block";
    "user-rules-editor-wrap"; "allowlist-enabled"; "default-allowlist-mode";
    "stealth-disable-stealth-mode"; "stealth-hide-referrer";
    "stealth-hide-search-queries"; "stealth-send-do-not-track"; "stealth-block-webrtc";
    "stealth-remove-x-client"; "stealth-block-third-party-cookies";
    "stealth-block-first-party-cookies"; "user-filter-enabled"; "adguard-disabled" ].

Definition numberSettings : list string :=
  [ "filters-update-period"; "stealth-block-third-party-cookies-time";
    "stealth-block-first-party-cookies-time" ].

Definition stringSettings : list string := ["allowlist-domains"; "block-list-domains"].

(** What the settings schema asks of the merged object and makes of it,
    key by key: the theme, read as JSON when the text has a quotation
    mark in it, is one of the three themes; each boolean and number
    setting is what its preprocessing validator makes of the merged
    value; each string setting is a string, kept; each nested field is
    a string or missing, kept; no other key is kept. *)
Definition validatedSettings (C : Externals) (merged settings : props) : Prop :=
  (∃ t, t ∈ themes
      ∧ get "appearance-theme" settings = Some (Str t)
      ∧ (get "appearance-theme" merged = Some (Str t)
         ∨ ∃ s, get "appearance-theme" merged = Some (Str s)
             ∧ includesChar JSON.dquote s = true
             ∧ JSON.parse s = Some (Str t)))
  ∧ (∀ k, k ∈ booleanSettings →
       ∃ b, SchemaPreprocessor_booleanValidator C (get k merged) = Some b
         ∧ get k settings = Some (Bool b))
  ∧ (∀ k, k ∈ numberSettings →
       ∃ n, SchemaPreprocessor_numberValidator C (get k merged) = Some n
         ∧ get k settings = Some (Num n))
  ∧ (∀ k, k ∈ stringSettings →
       ∃ s, get k merged = Some (Str s) ∧ get k settings = Some (Str s))
  ∧ (∀ k, k ∈ optionalSettings →
       (get k merged = None ∨ ∃ s, get k merged = Some (Str s))
       ∧ get k settings = get k merged)
  ∧ (∀ k, is_Some (get k settings) →
       k ∈ "appearance-theme"
           :: booleanSettings ++ numberSettings ++ stringSettings ++ optionalSettings)
  ∧ NoDup (keys settings).

(** The fields of a custom filter the v2 to v3 step keeps as they are:
    all but [trusted], and but [__proto__], which the validator leaves
    out. *)
Definition keptFields (data : props) : props := Zod.withoutProto (del "trusted" data).

End Notions.
Import Notions.

(* ===================================================================== *)
(** ** Properties *)
(* ===================================================================== *)

Import UpdateApi.

(** *** Objects *)

Section ObjectLemmas.
Context {A : Type}.
Implicit Types (k : string) (v : A) (ps : list (string * A)).

Lemma eqb_refl_true k : String.eqb k k = true.
Proof. apply String.eqb_refl. Qed.

Lemma eqb_false_of_ne k k' : k ≠ k' → String.eqb k k' = false.
Proof. intros Hne. by apply String.eqb_neq. Qed.

Lemma get_set_eq k v ps : get k (set k v ps) = Some v.
Proof.
  induction ps as [|[k' v'] ps IH]; simpl.
  - by rewrite eqb_refl_true.
  - destruct (String.eqb k k') eqn:E; simpl.
    + by rewrite eqb_refl_true.
    + by rewrite E.
Qed.

Lemma get_set_ne k k' v ps : k ≠ k' → get k' (set k v ps) = get k' ps.
Proof.
  intros Hne. induction ps as [|[k0 v0] ps IH]; simpl.
  - rewrite eqb_false_of_ne; [done | congruence].
  - destruct (String.eqb k k0) eqn:E; simpl.
    + apply String.eqb_eq in E as <-.
      rewrite eqb_false_of_ne; [done | congruence].
    + destruct (String.eqb k' k0); [done | apply IH].
Qed.

Lemma get_del_eq k ps : get k (del k ps) = None.
Proof.
  induction ps as [|[k' v'] ps IH]; simpl; [done|].
  destruct (String.eqb k k') eqn:E; simpl; [done|]. by rewrite E.
Qed.

Lemma get_del_ne k k' ps : k ≠ k' → get k' (del k ps) = get k' ps.
Proof.
  intros Hne. induction ps as [|[k0 v0] ps IH]; simpl; [done|].
  destruct (String.eqb k k0) eqn:E; simpl.
  - apply String.eqb_eq in E as <-.
    rewrite eqb_false_of_ne; [done | congruence].
  - destruct (String.eqb k' k0); [done | apply IH].
Qed.

Lemma get_None_not_key k ps : get k ps = None ↔ k ∉ keys ps.
Proof.
  induction ps as [|[k' v'] ps IH]; simpl.
  - split; [intros _; apply not_elem_of_nil | done].
  - rewrite not_elem_of_cons. destruct (String.eqb k k') eqn:E.
    + apply String.eqb_eq in E. split; [done | tauto].
    + apply String.eqb_neq in E. rewrite IH. tauto.
Qed.

Lemma del_absent k ps : get k ps = None → del k ps = ps.
Proof.
  induction ps as [|[k' v'] ps IH]; simpl; [done|].
  destruct (String.eqb k k'); [done|]. intros Hg. by rewrite IH.
Qed.

(** Writing the value a property already has changes nothing. *)
Lemma set_same k v ps : get k ps = Some v → set k v ps = ps.
Proof.
  induction ps as [|[k' v'] ps IH]; simpl; [done|].
  destruct (String.eqb k k') eqn:E.
  - apply String.eqb_eq in E as ->. by intros [= ->].
  - intros Hg. by rewrite IH.
Qed.

Lemma set_fresh k v ps : get k ps = None → set k v ps = ps ++ [(k, v)].
Proof.
  induction ps as [|[k' v'] ps IH]; simpl; [done|].
  destruct (String.eqb k k'); [done|]. intros Hg. by rewrite IH.
Qed.

Lemma keys_set k v ps :
  keys (set k v ps) =
    match get k ps with Some _ => keys ps | None => keys ps ++ [k] end.
Proof.
  unfold keys. induction ps as [|[k' v'] ps IH]; simpl; [done|].
  destruct (String.eqb k k') eqn:E; simpl.
  - apply String.eqb_eq in E as ->. done.
  - rewrite IH. by destruct (get k ps).
Qed.

Lemma NoDup_keys_set k v ps : NoDup (keys ps) → NoDup (keys (set k v ps)).
Proof.
  intros Hnd. rewrite keys_set. destruct (get k ps) eqn:E; [done|].
  apply NoDup_app. split_and!; [done | | apply NoDup_singleton].
  intros x Hx ->%list_elem_of_singleton. by apply get_None_not_key in E.
Qed.

Lemma keys_del_subseteq k ps : keys (del k ps) ⊆ keys ps.
Proof.
  unfold keys. induction ps as [|[k' v'] ps IH]; simpl; [done|].
  intros x Hx. destruct (String.eqb k k'); simpl in *.
  - right. by apply IH.
  - apply elem_of_cons in Hx as [->|Hx]; [left | right; by apply IH].
Qed.

Lemma NoDup_keys_del k ps : NoDup (keys ps) → NoDup (keys (del k ps)).
Proof.
  induction ps as [|[k' v'] ps IH]; simpl; [done|].
  intros [Hni Hnd]%NoDup_cons. destruct (String.eqb k k'); [by apply IH|].
  simpl. apply NoDup_cons. split; [|by apply IH].
  intros Hin. apply Hni. by apply (keys_del_subseteq k).
Qed.

(** Object spread onto an extension of the target: the properties of a
    source without repeated keys, none of them in the target, are
    appended in their order. *)
Lemma assign_fresh target ps :
  NoDup (keys ps) → (∀ k, k ∈ keys ps → get k target = None) →
  assign target ps = target ++ ps.
Proof.
  unfold assign. revert target.
  induction ps as [|[k v] ps IH]; intros target Hnd Hfresh; simpl.
  - by rewrite app_nil_r.
  - apply NoDup_cons in Hnd as [Hni Hnd].
    rewrite set_fresh by (apply Hfresh; simpl; left).
    rewrite IH; [by rewrite <- app_assoc | done |].
    intros k' Hk'. apply get_None_not_key. unfold keys. rewrite map_app.
    simpl. rewrite not_elem_of_app, not_elem_of_cons. split_and!.
    + apply get_None_not_key, Hfresh. simpl. by right.
    + intros ->. done.
    + apply not_elem_of_nil.
Qed.

Lemma assign_nil ps : NoDup (keys ps) → assign [] ps = ps.
Proof. intros Hnd. by rewrite assign_fresh. Qed.

Lemma NoDup_keys_assign target ps :
  NoDup (keys target) → NoDup (keys (assign target ps)).
Proof.
  unfold assign. revert target.
  induction ps as [|[k v] ps IH]; intros target Hnd; simpl; [done|].
  by apply IH, NoDup_keys_set.
Qed.

(** In [{...a, ...b}] the later source wins. *)
Lemma get_assign k target ps :
  NoDup (keys ps) →
  get k (assign target ps) = match get k ps with Some v => Some v | None => get k target end.
Proof.
  unfold assign. revert target.
  induction ps as [|[k' v'] ps IH]; intros target Hnd; simpl; [done|].
  apply NoDup_cons in Hnd as [Hni Hnd]. rewrite IH by done.
  destruct (String.eqb k k') eqn:E.
  - apply String.eqb_eq in E as ->.
    apply get_None_not_key in Hni. simpl in Hni. rewrite Hni. apply get_set_eq.
  - apply String.eqb_neq in E. destruct (get k ps); [done|].
    apply get_set_ne. congruence.
Qed.

End ObjectLemmas.

(** *** JSON text read back *)

Section TextOfStrings.

Lemma append_cons c s t : String c s +:+ t = String c (s +:+ t).
Proof. reflexivity. Qed.

Lemma append_nil_l t : EmptyString +:+ t = t.
Proof. reflexivity. Qed.

Lemma append_nil_r s : s +:+ EmptyString = s.
Proof. induction s as [|c s IH]; [done|]. by rewrite append_cons, IH. Qed.

Lemma append_assoc s t u : (s +:+ t) +:+ u = s +:+ (t +:+ u).
Proof. induction s as [|c s IH]; [done|]. by rewrite !append_cons, IH. Qed.

Lemma length_append s t :
  String.length (s +:+ t) = (String.length s + String.length t)%nat.
Proof. induction s as [|c s IH]; [done|]. rewrite append_cons. simpl. by rewrite IH. Qed.

Lemma parseChars_escapeChar c t :
  JSON.parseChars (JSON.escapeChar c +:+ t) = JSON.consChar c (JSON.parseChars t).
Proof. destruct c as [[] [] [] [] [] [] [] []]; reflexivity. Qed.

Lemma parseChars_escape s rest :
  JSON.parseChars (JSON.escape s +:+ String JSON.dquote rest) = Some (s, rest).
Proof.
  induction s as [|c s IH]; [done|].
  simpl JSON.escape. rewrite append_assoc, parseChars_escapeChar, IH. done.
Qed.

Lemma parseString_quote s rest :
  JSON.parseString (JSON.quote s +:+ rest) = Some (s, rest).
Proof.
  unfold JSON.quote. rewrite append_cons, append_assoc. simpl.
  apply parseChars_escape.
Qed.

End TextOfStrings.

Section TextOfNumbers.

Lemma digitOf_pretty_N_char d :
  (d < 10)%N → JSON.digitOf (pretty_N_char d) = Some (Z.of_N d).
Proof.
  intros Hd.
  assert (d = 0 ∨ d = 1 ∨ d = 2 ∨ d = 3 ∨ d = 4 ∨ d = 5 ∨ d = 6 ∨ d = 7 ∨ d = 8 ∨ d = 9)%N
    as Hcases by lia.
  repeat destruct Hcases as [->|Hcases]; try reflexivity. by subst.
Qed.

Lemma pretty_N_go_append x : ∀ s r, pretty_N_go x s +:+ r = pretty_N_go x (s +:+ r).
Proof.
  induction (N.lt_wf_0 x) as [x _ IH]; intros s r.
  destruct (decide (x = 0)%N) as [->|Hx]; [by rewrite !pretty_N_go_0|].
  rewrite (pretty_N_go_step x s), (pretty_N_go_step x (s +:+ r)) by lia.
  rewrite IH; [reflexivity|].
  apply N.div_lt; lia.
Qed.

(** Read back, the digits [pretty] wrote continue the number read so
    far. *)
Lemma readDigits_pretty_N_go x :
  ∃ p, ∀ s acc,
    JSON.readDigits (pretty_N_go x s) acc = JSON.readDigits s (acc * p + Z.of_N x).
Proof.
  induction (N.lt_wf_0 x) as [x _ IH].
  destruct (decide (x = 0)%N) as [->|Hx].
  - exists 1. intros s acc. rewrite pretty_N_go_0. f_equal. lia.
  - destruct (IH (x `div` 10)%N) as [p Hp]; [apply N.div_lt; lia|].
    exists (p * 10). intros s acc.
    rewrite pretty_N_go_step, Hp by lia. simpl.
    rewrite digitOf_pretty_N_char by (apply N.mod_lt; lia).
    f_equal. rewrite (N.div_mod x 10) at 3 by lia. lia.
Qed.

Lemma pretty_N_go_first x s :
  (0 < x)%N →
  ∃ c t d, pretty_N_go x s = String c t ∧ JSON.digitOf c = Some d ∧ d ≠ 0.
Proof.
  revert s. induction (N.lt_wf_0 x) as [x _ IH]; intros s Hx.
  rewrite pretty_N_go_step by done.
  destruct (decide (x `div` 10 = 0)%N) as [Hdiv|Hdiv].
  - rewrite Hdiv, pretty_N_go_0.
    assert (x < 10)%N as Hlt.
    { assert (10 ≠ 0)%N as Hten by lia.
      pose proof (N.div_mod x 10 Hten) as Hdm.
      pose proof (N.mod_lt x 10 Hten) as Hm. lia. }
    rewrite N.mod_small by done.
    eexists _, _, _. split; [done|]. split; [by apply digitOf_pretty_N_char | lia].
  - apply IH; [apply N.div_lt; lia | by apply N.neq_0_lt_0].
Qed.

Lemma readDigits_end rest acc :
  numberEnd rest = true → JSON.readDigits rest acc = (acc, rest).
Proof.
  destruct rest as [|c rest]; [done|]. simpl.
  by destruct (JSON.digitOf c).
Qed.

Lemma parseUnsigned_end (n : Z) rest :
  numberEnd rest = true →
  match rest with
  | String c' _ =>
      match JSON.digitOf c' with
      | Some _ => None
      | None => if JSON.endsInteger rest then Some (n, rest) else None
      end
  | EmptyString => Some (n, rest)
  end = Some (n, rest).
Proof.
  destruct rest as [|c rest]; [done|]. unfold numberEnd.
  destruct (JSON.digitOf c); [done|]. by intros ->.
Qed.

Lemma parseUnsigned_pretty_N x rest :
  numberEnd rest = true →
  JSON.parseUnsigned (pretty x +:+ rest) = Some (Z.of_N x, rest).
Proof.
  intros Hend. unfold pretty, pretty_N.
  destruct (decide (x = 0)%N) as [->|Hx].
  - simpl. rewrite !append_nil_l. by apply parseUnsigned_end.
  - rewrite pretty_N_go_append, append_nil_l.
    destruct (pretty_N_go_first x rest) as (c & t & d & Hfirst & Hd & Hnz); [lia|].
    destruct (readDigits_pretty_N_go x) as [p Hp].
    specialize (Hp rest 0). rewrite Hfirst in Hp. simpl in Hp. rewrite Hd in Hp.
    rewrite (readDigits_end rest) in Hp by done.
    rewrite Hfirst. unfold JSON.parseUnsigned. rewrite Hd.
    apply Z.eqb_neq in Hnz. rewrite Hnz.
    replace (10 * 0 + d) with d in Hp by lia. rewrite Hp.
    replace (0 * p + Z.of_N x) with (Z.of_N x) by lia.
    by apply parseUnsigned_end.
Qed.

Lemma digit_is_not_minus c d : JSON.digitOf c = Some d → Ascii.eqb "-" c = false.
Proof. destruct c as [[] [] [] [] [] [] [] []]; done. Qed.

Lemma pretty_Z_first (n : Z) :
  ∃ c t, pretty n = String c t
    ∧ (c = "-"%char ∨ ∃ d, JSON.digitOf c = Some d).
Proof.
  destruct n as [|p|p]; unfold pretty, pretty_Z.
  - eexists _, _. split; [done|]. right. by eexists.
  - unfold pretty, pretty_positive, pretty, pretty_N. simpl.
    destruct (pretty_N_go_first (N.pos p) EmptyString) as (c & t & d & -> & Hd & _); [lia|].
    eexists _, _. split; [done|]. right. by eexists.
  - eexists _, _. split; [done|]. by left.
Qed.

Lemma parseNumber_pretty (n : Z) rest :
  numberEnd rest = true →
  JSON.parseNumber (pretty n +:+ rest) = Some (n, rest).
Proof.
  intros Hend. destruct n as [|p|p]; unfold pretty, pretty_Z.
  - unfold JSON.parseNumber. simpl. rewrite !append_nil_l. by apply parseUnsigned_end.
  - pose proof (parseUnsigned_pretty_N (N.pos p) rest Hend) as Hu.
    change (pretty (N.pos p)) with (pretty p) in Hu.
    unfold JSON.parseNumber.
    destruct (pretty_N_go_first (N.pos p) rest) as (c & t & d & Hfirst & Hd & _); [lia|].
    assert (pretty p +:+ rest = String c t) as Heq.
    { unfold pretty, pretty_positive, pretty, pretty_N. simpl.
      by rewrite pretty_N_go_append. }
    rewrite Heq in *. unfold JSON.after. rewrite (digit_is_not_minus c d Hd). done.
  - pose proof (parseUnsigned_pretty_N (N.pos p) rest Hend) as Hu.
    change (pretty (N.pos p)) with (pretty p) in Hu.
    rewrite append_assoc, append_cons, append_nil_l.
    unfold JSON.parseNumber. simpl. rewrite Hu. done.
Qed.

End TextOfNumbers.

Section TextOfValues.

Lemma startsValue_spec c :
  startsValue c = true →
  JSON.isWs c = false ∧ Ascii.eqb "]" c = false ∧ Ascii.eqb "}" c = false
  ∧ Ascii.eqb "," c = false.
Proof. destruct c as [[] [] [] [] [] [] [] []]; simpl; try discriminate; done. Qed.

Lemma stringify_first v :
  ∃ c t, JSON.stringify v = String c t ∧ startsValue c = true.
Proof.
  destruct v as [|[]|n|s|xs|ps]; try by eexists _, _.
  simpl. destruct (pretty_Z_first n) as (c & t & -> & [->|[d Hd]]).
  - by eexists _, _.
  - eexists _, _. split; [done|]. unfold startsValue. rewrite Hd.
    by rewrite !orb_true_r.
Qed.

Lemma skipWs_value c t : startsValue c = true → JSON.skipWs (String c t) = String c t.
Proof. intros (Hws & _)%startsValue_spec. simpl. by rewrite Hws. Qed.

Lemma parseValue_number f c t :
  (c = "-"%char ∨ ∃ d, JSON.digitOf c = Some d) →
  JSON.parseValue (S f) (String c t)
  = match JSON.parseNumber (String c t) with
    | Some (z, rest) => Some (Num z, rest)
    | None => None
    end.
Proof.
  destruct c as [[] [] [] [] [] [] [] []]; intros [Hc|[d Hd]];
    try discriminate; reflexivity.
Qed.

Lemma parseValue_string f r :
  JSON.parseValue (S f) (String JSON.dquote r)
  = match JSON.parseChars r with
    | Some (str, rest) => Some (Str str, rest)
    | None => None
    end.
Proof. reflexivity. Qed.

Lemma parseValue_array f r :
  JSON.parseValue (S f) (String "[" r)
  = match JSON.after "]" (JSON.skipWs r) with
    | Some r' => Some (Arr [], r')
    | None => JSON.parseElements (JSON.parseValue f) (String.length r) [] r
    end.
Proof. reflexivity. Qed.

Lemma parseValue_object f r :
  JSON.parseValue (S f) (String "{" r)
  = match JSON.after "}" (JSON.skipWs r) with
    | Some r' => Some (Obj [], r')
    | None => JSON.parseMembers (JSON.parseValue f) (String.length r) [] r
    end.
Proof. reflexivity. Qed.

Lemma join_cons sep x y l :
  JSON.join sep (x :: y :: l) = x +:+ sep +:+ JSON.join sep (y :: l).
Proof. reflexivity. Qed.

Lemma parseElements_join f xs :
  xs ≠ [] → Forall (reads f) xs →
  ∀ k acc rest, (length xs ≤ k)%nat →
    JSON.parseElements (JSON.parseValue f) k acc
      (JSON.join "," (map JSON.stringify xs) +:+ "]" +:+ rest)
    = Some (Arr (acc ++ xs), rest).
Proof.
  induction xs as [|x xs IH]; [done|]. intros _ Hall k acc rest Hk.
  apply Forall_cons in Hall as [Hx Hall].
  destruct k as [|k]; [simpl in Hk; lia|].
  destruct xs as [|y ys].
  - simpl. rewrite (Hx ("]" +:+ rest)) by reflexivity. reflexivity.
  - simpl map. rewrite join_cons, !append_assoc. simpl JSON.parseElements.
    rewrite (Hx ("," +:+ _)) by reflexivity.
    change (JSON.after "," (JSON.skipWs ("," +:+ ?t))) with (Some t).
    simpl in Hk.
    specialize (IH ltac:(done) Hall k (acc ++ [x]) rest ltac:(simpl; lia)).
    simpl map in IH. etrans; [exact IH|]. by rewrite <- app_assoc.
Qed.

Lemma parseMembers_join f ps :
  ps ≠ [] → Forall (λ p, reads f p.2) ps →
  ∀ k acc rest, (length ps ≤ k)%nat → NoDup (keys (acc ++ ps)) →
    JSON.parseMembers (JSON.parseValue f) k acc
      (JSON.join "," (map member ps) +:+ "}" +:+ rest)
    = Some (Obj (acc ++ ps), rest).
Proof.
  induction ps as [|[key v] ps IH]; [done|]. intros _ Hall k acc rest Hk Hnd.
  apply Forall_cons in Hall as [Hv Hall]. simpl in Hv.
  destruct k as [|k]; [simpl in Hk; lia|].
  assert (set key v acc = acc ++ [(key, v)]) as Hset.
  { apply set_fresh. apply get_None_not_key.
    unfold keys in Hnd. rewrite map_app in Hnd. apply NoDup_app in Hnd as (_ & Hni & _).
    intros Hin. apply (Hni _ Hin). simpl. left. }
  assert (NoDup (keys ((acc ++ [(key, v)]) ++ ps))) as Hnd'
    by by rewrite <- app_assoc.
  destruct ps as [|q qs].
  - simpl map. simpl JSON.join. unfold member at 1. simpl fst. simpl snd.
    rewrite !append_assoc. simpl JSON.parseMembers.
    rewrite (append_assoc (JSON.escape key)).
    change (String JSON.dquote EmptyString +:+ ?t) with (String JSON.dquote t).
    rewrite parseChars_escape.
    change (JSON.after ":" (JSON.skipWs (":" +:+ ?t))) with (Some t).
    cbv beta iota.
    rewrite (Hv ("}" +:+ rest)) by reflexivity.
    change (JSON.after "," (JSON.skipWs ("}" +:+ rest))) with (@None string).
    change (JSON.after "}" (JSON.skipWs ("}" +:+ rest))) with (Some rest).
    by rewrite Hset.
  - simpl map. rewrite join_cons. unfold member at 1. simpl fst. simpl snd.
    rewrite !append_assoc. simpl JSON.parseMembers.
    rewrite (append_assoc (JSON.escape key)).
    change (String JSON.dquote EmptyString +:+ ?t) with (String JSON.dquote t).
    rewrite parseChars_escape.
    change (JSON.after ":" (JSON.skipWs (":" +:+ ?t))) with (Some t).
    cbv beta iota.
    rewrite (Hv ("," +:+ _)) by reflexivity.
    change (JSON.after "," (JSON.skipWs ("," +:+ ?t))) with (Some t).
    rewrite Hset. simpl in Hk.
    specialize (IH ltac:(done) Hall k (acc ++ [(key, v)]) rest ltac:(simpl; lia) Hnd').
    simpl map in IH. etrans; [exact IH|]. by rewrite <- app_assoc.
Qed.

Lemma length_join_le (l : list string) tail :
  Forall (λ s, s ≠ EmptyString) l →
  (length l ≤ String.length (JSON.join "," l +:+ tail))%nat.
Proof.
  induction l as [|x l IH]; intros Hall; [simpl; lia|].
  apply Forall_cons in Hall as [Hx Hall].
  destruct x as [|c x]; [done|].
  destruct l as [|y l].
  - simpl. lia.
  - rewrite join_cons, !append_assoc. specialize (IH Hall).
    set (J := JSON.join "," (y :: l)) in *.
    rewrite (length_append (String c x)), (length_append ",").
    cbn [String.length length] in *. lia.
Qed.

Lemma stringify_nonempty v : JSON.stringify v ≠ EmptyString.
Proof. destruct (stringify_first v) as (c & t & -> & _). done. Qed.

Lemma member_nonempty p : member p ≠ EmptyString.
Proof. done. Qed.

Lemma wellKeyed_Arr xs : wellKeyed (Arr xs) ↔ Forall wellKeyed xs.
Proof.
  simpl. induction xs as [|x xs IH]; simpl.
  - split; [by constructor | done].
  - rewrite Forall_cons, IH. done.
Qed.

Lemma wellKeyed_Obj ps :
  wellKeyed (Obj ps) ↔ NoDup (keys ps) ∧ Forall (λ p, wellKeyed p.2) ps.
Proof.
  simpl. apply and_iff_compat_l. induction ps as [|p ps IH]; simpl.
  - split; [by constructor | done].
  - rewrite Forall_cons, IH. done.
Qed.

Lemma depth_Arr_le xs f :
  (depth (Arr xs) ≤ S f)%nat ↔ Forall (λ x, (depth x ≤ f)%nat) xs.
Proof.
  simpl. induction xs as [|x xs IH]; simpl.
  - split; [by constructor | lia].
  - rewrite Forall_cons, <- IH. lia.
Qed.

Lemma depth_Obj_le ps f :
  (depth (Obj ps) ≤ S f)%nat ↔ Forall (λ p, (depth p.2 ≤ f)%nat) ps.
Proof.
  simpl. induction ps as [|p ps IH]; simpl.
  - split; [by constructor | lia].
  - rewrite Forall_cons, <- IH. lia.
Qed.

(** With fuel for its depth, a value whose objects have no key twice is
    read back from what [JSON.stringify] writes. *)
Lemma parseValue_stringify v :
  wellKeyed v → ∀ fuel, (depth v ≤ fuel)%nat → reads fuel v.
Proof.
  induction v as [|b|n|s|xs IH|ps IH] using value_deep_ind;
    intros Hkeyed fuel Hfuel rest Hrest;
    (destruct fuel as [|f]; [simpl in Hfuel; lia|]).
  - reflexivity.
  - by destruct b.
  - simpl JSON.stringify.
    destruct (pretty_Z_first n) as (c & t & Heq & Hc).
    pose proof (parseNumber_pretty n rest Hrest) as Hnum.
    rewrite Heq, append_cons in *. rewrite parseValue_number by done.
    by rewrite Hnum.
  - simpl JSON.stringify. unfold JSON.quote.
    rewrite append_cons, append_assoc, parseValue_string.
    change (String JSON.dquote EmptyString +:+ rest) with (String JSON.dquote rest).
    by rewrite parseChars_escape.
  - apply wellKeyed_Arr in Hkeyed. apply depth_Arr_le in Hfuel.
    assert (Forall (reads f) xs) as Hreads.
    { apply Forall_forall. intros x Hx.
      rewrite Forall_forall in IH, Hkeyed, Hfuel. apply IH; auto. }
    simpl JSON.stringify. rewrite !append_assoc.
    change ("[" +:+ ?t) with (String "[" t). rewrite parseValue_array.
    destruct xs as [|x xs]; [reflexivity|].
    destruct (stringify_first x) as (c & t & Hfirst & Hc).
    assert (∃ t', JSON.join "," (map JSON.stringify (x :: xs)) +:+ "]" +:+ rest
                  = String c t') as [t' Ht'].
    { destruct xs as [|y ys]; simpl map.
      - simpl JSON.join. rewrite Hfirst. by eexists.
      - rewrite join_cons, Hfirst. by eexists. }
    pose proof (startsValue_spec c Hc) as (Hws & Hbracket & _).
    pose proof (length_join_le (map JSON.stringify (x :: xs)) ("]" +:+ rest)) as Hlen.
    rewrite length_map in Hlen.
    rewrite parseElements_join; [| done | done |].
    + rewrite Ht', skipWs_value by done. unfold JSON.after. by rewrite Hbracket.
    + apply Hlen, List.Forall_map, Forall_forall. intros y _.
      apply stringify_nonempty.
  - apply wellKeyed_Obj in Hkeyed as [Hnd Hkeyed]. apply depth_Obj_le in Hfuel.
    assert (Forall (λ p, reads f p.2) ps) as Hreads.
    { apply Forall_forall. intros p Hp.
      rewrite Forall_forall in IH, Hkeyed, Hfuel. apply IH; auto. }
    simpl JSON.stringify. fold member. rewrite !append_assoc.
    change ("{" +:+ ?t) with (String "{" t). rewrite parseValue_object.
    destruct ps as [|p ps]; [reflexivity|].
    assert (∃ t', JSON.join "," (map member (p :: ps)) +:+ "}" +:+ rest
                  = String JSON.dquote t') as [t' Ht'].
    { destruct ps as [|q qs]; simpl map.
      - simpl JSON.join. by eexists.
      - rewrite join_cons. by eexists. }
    pose proof (length_join_le (map member (p :: ps)) ("}" +:+ rest)) as Hlen.
    rewrite length_map in Hlen.
    rewrite parseMembers_join; [| done | done | | done].
    + by rewrite Ht'.
    + apply Hlen, List.Forall_map, Forall_forall. intros y _.
      apply member_nonempty.
Qed.

Lemma max_le_join {A} (d : A → nat) (f : A → string) (l : list A) :
  Forall (λ x, (d x ≤ String.length (f x))%nat) l →
  (fold_right (λ x m, Nat.max (d x) m) O l
   ≤ String.length (JSON.join "," (map f l)))%nat.
Proof.
  induction l as [|x l IH]; intros Hall; [simpl; lia|].
  apply Forall_cons in Hall as [Hx Hall]. specialize (IH Hall).
  destruct l as [|y l].
  - simpl in *. lia.
  - simpl map in *. rewrite join_cons, !length_append.
    cbn [fold_right] in *. lia.
Qed.

Lemma depth_le_length v : (depth v ≤ String.length (JSON.stringify v))%nat.
Proof.
  induction v as [|b|n|s|xs IH|ps IH] using value_deep_ind.
  - simpl. lia.
  - destruct b; simpl; lia.
  - destruct (stringify_first (Num n)) as (c & t & -> & _). simpl. lia.
  - simpl. lia.
  - simpl JSON.stringify. rewrite !length_append.
    pose proof (max_le_join depth JSON.stringify xs IH).
    cbn [String.length depth] in *. lia.
  - simpl JSON.stringify. fold member. rewrite !length_append.
    assert (Forall (λ p : string * value, (depth p.2 ≤ String.length (member p))%nat) ps)
      as Hall.
    { eapply Forall_impl; [exact IH|]. intros p Hp. simpl in Hp. unfold member.
      rewrite !length_append. lia. }
    pose proof (max_le_join (λ p, depth p.2) member ps Hall).
    cbn [String.length depth] in *. lia.
Qed.

(** [JSON.parse] undoes [JSON.stringify] on every value whose objects
    have no key twice. *)
Theorem parse_stringify v : wellKeyed v → JSON.parse (JSON.stringify v) = Some v.
Proof.
  intros Hkeyed. unfold JSON.parse.
  pose proof (depth_le_length v) as Hdepth.
  pose proof (parseValue_stringify v Hkeyed (S (String.length (JSON.stringify v)))
                ltac:(lia) EmptyString eq_refl) as Hread.
  rewrite append_nil_r in Hread. by rewrite Hread.
Qed.

End TextOfValues.

(** *** The runner *)

Section RunnerProperties.
Variables (C : Externals) (H : Host) (migrationMap : Z → option (M unit)).

Lemma runSchemaMigration_resolves act a b w w' :
  act w = Ok tt w' → runSchemaMigration C act a b w = Ok tt w'.
Proof. intros Hact. unfold runSchemaMigration, tryCatch. by rewrite Hact. Qed.

Lemma runSchemaMigration_rejects act a b w e w' :
  act w = Throw e w' →
  runSchemaMigration C act a b w
  = Throw (Error (errMessage C a b e) (Some e)) (afterRejection C w' a b e).
Proof. intros Hact. unfold runSchemaMigration, tryCatch. by rewrite Hact. Qed.





Lemma resolvedSteps_cons schema k :
  0 ≤ k → resolvedSteps schema (k + 1) = (schema, true) :: resolvedSteps (schema + 1) k.
Proof.
  intros Hk. unfold resolvedSteps. rewrite seqZ_cons by lia. simpl.
  do 3 f_equal; lia.
Qed.

(** What the loop leaves in its journal, by how it ends: [k] steps in a
    row resolved; then the span was exhausted, or version [schema + k]
    has no step, or its step rejected. *)
Lemma migrationLoop_spec cur prev n : ∀ schema w j r,
  n = Z.to_nat (cur - schema) →
  migrationLoop C migrationMap cur prev n schema w = (j, r) →
  ∃ k, 0 ≤ k ≤ Z.of_nat n
    ∧ (∀ u, schema ≤ u < schema + k → is_Some (migrationMap u))
    ∧ match r with
      | Ok _ _ => k = Z.of_nat n ∧ j = resolvedSteps schema k
      | Throw e _ =>
          k < Z.of_nat n
          ∧ ((migrationMap (schema + k) = None ∧ e = cannotFind prev cur
              ∧ j = resolvedSteps schema k)
             ∨ (∃ e0, e = Error (errMessage C (schema + k) (schema + k + 1) e0) (Some e0)
                  ∧ is_Some (migrationMap (schema + k))
                  ∧ j = resolvedSteps schema k ++ [(schema + k, false)]))
      end.
Proof.
  induction n as [|n IH]; intros schema w j r Hn Hrun; simpl in Hrun.
  - injection Hrun as <- <-. exists 0.
    split; [lia|]. split; [intros; lia|]. done.
  - assert (schema < cur) as Hlt by lia.
    apply Z.ltb_lt in Hlt as Hltb. rewrite Hltb in Hrun.
    destruct (migrationMap schema) as [act|] eqn:Hmap.
    + unfold runSchemaMigration, tryCatch in Hrun.
      destruct (act w) as [[] w'|e0 w'] eqn:Hact.
      * destruct (migrationLoop C migrationMap cur prev n (schema + 1) w')
          as [j' r'] eqn:Hrest.
        injection Hrun as <- <-.
        apply IH in Hrest as (k & Hk & Hreg & Hshape); [|lia].
        exists (k + 1). split; [lia|]. split.
        { intros u Hu. destruct (decide (u = schema)) as [->|Hne].
          - by rewrite Hmap.
          - apply Hreg. lia. }
        destruct r' as [[] w''|e w''].
        -- destruct Hshape as [-> ->]. split; [lia|].
           by rewrite resolvedSteps_cons by lia.
        -- destruct Hshape as [Hlt' Hcase]. split; [lia|].
           replace (schema + (k + 1)) with (schema + 1 + k) by lia.
           rewrite resolvedSteps_cons by lia.
           destruct Hcase as [(Hnone & -> & ->)|(e0 & -> & Hsome & ->)].
           ++ left. done.
           ++ right. exists e0. done.
      * simpl in Hrun. injection Hrun as <- <-.
        exists 0. split; [lia|]. split; [intros; lia|].
        split; [lia|]. right. exists e0.
        replace (schema + 0) with schema by lia.
        split; [done|]. split; [by rewrite Hmap | done].
    + injection Hrun as <- <-.
      exists 0. split; [lia|]. split; [intros; lia|].
      split; [lia|]. left.
      replace (schema + 0) with schema by lia. done.
Qed.

Lemma tryMigrations_spec cur prev w j r :
  prev ≤ cur →
  tryMigrations C migrationMap cur prev w = (j, r) →
  ∃ k, 0 ≤ k ≤ cur - prev
    ∧ (∀ u, prev ≤ u < prev + k → is_Some (migrationMap u))
    ∧ match r with
      | Ok _ _ => k = cur - prev ∧ j = resolvedSteps prev k
      | Throw e _ =>
          k < cur - prev
          ∧ ((migrationMap (prev + k) = None ∧ e = cannotFind prev cur
              ∧ j = resolvedSteps prev k)
             ∨ (∃ e0, e = Error (errMessage C (prev + k) (prev + k + 1) e0) (Some e0)
                  ∧ is_Some (migrationMap (prev + k))
                  ∧ j = resolvedSteps prev k ++ [(prev + k, false)]))
      end.
Proof.
  intros Hle Hrun. unfold tryMigrations in Hrun.
  apply migrationLoop_spec in Hrun as (k & Hk & Hreg & Hshape); [|done].
  rewrite Z2Nat.id in Hk, Hshape by lia.
  exists k. done.
Qed.

Lemma runMigrationsWith_journal cur prev w :
  fst (runMigrationsWith C migrationMap cur prev w)
  = fst (tryMigrations C migrationMap cur prev w).
Proof.
  unfold runMigrationsWith.
  by destruct (tryMigrations C migrationMap cur prev w).
Qed.


Lemma bookkeeping_resolves runInfo w :
  ∃ w', bookkeeping C H runInfo w = Ok tt w'.
Proof.
  unfold bookkeeping, bind.
  destruct (clientId runInfo) as [id|]; [destruct (truthy (Some (Str id)))|];
    eexists; reflexivity.
Qed.

Lemma resolvedSteps_zero schema : resolvedSteps schema 0 = [].
Proof. unfold resolvedSteps. by rewrite seqZ_nil by lia. Qed.

(** The loop run by run: [k] steps in a row resolved, each on the state
    the one before it left, and left [wk]; then the span was exhausted,
    or version [schema + k] has no step and the loop throws in [wk], or
    the step of that version rejected on [wk]. *)
Lemma migrationLoop_run cur prev n : ∀ schema w,
  n = Z.to_nat (cur - schema) →
  ∃ (k : nat) wk,
    (k ≤ n)%nat
    ∧ resolvedRun migrationMap schema k w wk
    ∧ match migrationLoop C migrationMap cur prev n schema w with
      | (j, Ok _ w') =>
          k = n ∧ w' = wk ∧ j = resolvedSteps schema (Z.of_nat k)
      | (j, Throw e w') =>
          (k < n)%nat
          ∧ match migrationMap (schema + Z.of_nat k) with
            | None =>
                e = cannotFind prev cur ∧ w' = wk
                ∧ j = resolvedSteps schema (Z.of_nat k)
            | Some act =>
                ∃ e0 w1,
                  act wk = Throw e0 w1
                  ∧ e = Error (errMessage C (schema + Z.of_nat k)
                                 (schema + Z.of_nat k + 1) e0) (Some e0)
                  ∧ w' = afterRejection C w1 (schema + Z.of_nat k)
                           (schema + Z.of_nat k + 1) e0
                  ∧ j = resolvedSteps schema (Z.of_nat k)
                        ++ [(schema + Z.of_nat k, false)]
            end
      end.
Proof.
  induction n as [|n IH]; intros schema w Hn.
  - exists 0%nat, w. simpl. by rewrite resolvedSteps_zero.
  - assert (schema < cur) as Hlt by lia.
    apply Z.ltb_lt in Hlt as Hltb. cbn [migrationLoop]. rewrite Hltb.
    destruct (migrationMap schema) as [act|] eqn:Hmap.
    + destruct (act w) as [[] w1|e0 w1] eqn:Hact.
      * rewrite (runSchemaMigration_resolves _ _ _ _ _ Hact).
        destruct (IH (schema + 1) w1) as (k & wk & Hk & Hsteps & Hend); [lia|].
        exists (S k), wk. split; [lia|]. split.
        { simpl. exists act, w1. done. }
        destruct (migrationLoop C migrationMap cur prev n (schema + 1) w1) as [j r].
        replace (schema + Z.of_nat (S k)) with (schema + 1 + Z.of_nat k) by lia.
        replace (Z.of_nat (S k)) with (Z.of_nat k + 1) by lia.
        rewrite resolvedSteps_cons by lia.
        destruct r as [[] w'|e w'].
        -- destruct Hend as (-> & -> & ->). done.
        -- destruct Hend as [Hlt' Hend]. split; [lia|].
           destruct (migrationMap (schema + 1 + Z.of_nat k)) as [act'|].
           ++ destruct Hend as (e0 & w2 & Hthrow & -> & -> & ->).
              exists e0, w2. done.
           ++ destruct Hend as (-> & -> & ->). done.
      * rewrite (runSchemaMigration_rejects _ _ _ _ _ _ Hact).
        exists 0%nat, w. split; [lia|]. split; [done|]. split; [lia|].
        replace (schema + Z.of_nat 0) with schema by lia. rewrite Hmap.
        exists e0, w1. by rewrite resolvedSteps_zero.
    + exists 0%nat, w. split; [lia|]. split; [done|]. split; [lia|].
      replace (schema + Z.of_nat 0) with schema by lia. rewrite Hmap.
      by rewrite resolvedSteps_zero.
Qed.




(** C2 (as amended). For [previousSchemaVersion ≤ currentSchemaVersion]
    the [try] block of the runner executes the registered steps in
    ascending order of version from [previousSchemaVersion], one at a
    time: some number [k] of them ran and resolved, the step of the
    first version on the state the runner started in and each of the
    others on the state the one before it left. When the block resolves
    they are all the steps of the span, and the state it ends in is the
    one the last of them left. When it throws they are fewer: it
    stopped at the first version that has no step, in the state the
    steps left, or it ran the step of the next version, once, that step
    rejected, and the state is the one the step left with the runner's
    error line in the log. The [catch] block runs no step. With equal
    versions no step runs. *)
Theorem C2_steps_run_in_ascending_order cur prev w :
  prev ≤ cur →
  ∃ (k : nat) wk,
    Z.of_nat k ≤ cur - prev
    ∧ resolvedRun migrationMap prev k w wk
    ∧ match tryMigrations C migrationMap cur prev w with
      | (j, Ok _ w') =>
          Z.of_nat k = cur - prev ∧ w' = wk
          ∧ j = resolvedSteps prev (Z.of_nat k)
          ∧ runMigrationsWith C migrationMap cur prev w = (j, Ok tt wk)
      | (j, Throw e w') =>
          Z.of_nat k < cur - prev
          ∧ runMigrationsWith C migrationMap cur prev w = (j, resetSettings C e w')
          ∧ match migrationMap (prev + Z.of_nat k) with
            | None => w' = wk ∧ j = resolvedSteps prev (Z.of_nat k)
            | Some act =>
                ∃ e0 w1,
                  act wk = Throw e0 w1
                  ∧ w' = afterRejection C w1 (prev + Z.of_nat k)
                           (prev + Z.of_nat k + 1) e0
                  ∧ j = resolvedSteps prev (Z.of_nat k)
                        ++ [(prev + Z.of_nat k, false)]
            end
      end
    ∧ (prev = cur → tryMigrations C migrationMap cur prev w = ([], Ok tt w)).
Proof.
  intros Hle.
  destruct (migrationLoop_run cur prev (Z.to_nat (cur - prev)) prev w eq_refl)
    as (k & wk & Hk & Hsteps & Hend).
  exists k, wk. split; [lia|]. split; [done|]. split.
  - unfold runMigrationsWith, tryMigrations.
    destruct (migrationLoop C migrationMap cur prev (Z.to_nat (cur - prev)) prev w)
      as [j r].
    destruct r as [[] w'|e w'].
    + destruct Hend as (-> & -> & ->). split; [lia|]. done.
    + destruct Hend as [Hlt Hend]. split; [lia|]. split; [done|].
      destruct (migrationMap (prev + Z.of_nat k)) as [act|].
      * destruct Hend as (e0 & w1 & Hthrow & _ & -> & ->). by exists e0, w1.
      * destruct Hend as (_ & -> & ->). done.
  - intros ->. unfold tryMigrations. by rewrite Z.sub_diag.
Qed.



End RunnerProperties.

(** *** Keys a step leaves alone *)

Section Frame.
Variables (C : Externals) (H : Host) (K : string).

Lemma keeps_ret {A} (a : A) : keeps K (ret a).
Proof. by intros w. Qed.

Lemma keeps_throw {A} e : keeps K (@throw A e).
Proof. by intros w. Qed.

Lemma keeps_bind {A B} (m : M A) (k : A → M B) :
  keeps K m → (∀ a, keeps K (k a)) → keeps K (bind m k).
Proof.
  intros Hm Hk w. unfold bind. specialize (Hm w).
  destruct (m w) as [a w'|e w']; simpl in *; [|done].
  by rewrite Hk.
Qed.

Lemma keeps_tryCatch {A} (m : M A) handler :
  keeps K m → (∀ e, keeps K (handler e)) → keeps K (tryCatch m handler).
Proof.
  intros Hm Hh w. unfold tryCatch. specialize (Hm w).
  destruct (m w) as [a w'|e w']; simpl in *; [done|].
  by rewrite Hh.
Qed.

Lemma keeps_logger l msg : keeps K (logger l msg).
Proof. by intros w. Qed.

Lemma keeps_get key : keeps K (browserStorage_get key).
Proof. by intros w. Qed.

Lemma keeps_entries : keeps K browserStorage_entries.
Proof. by intros w. Qed.

Lemma keeps_set key v : K ≠ key → keeps K (browserStorage_set key v).
Proof. intros Hne w. simpl. by apply lookup_insert_ne. Qed.

Lemma keeps_removeItem key : keeps K (localStorage_removeItem key).
Proof. by intros w. Qed.

Lemma lookup_removeAll_other k ks (m : gmap string value) :
  k ∉ ks → removeAll ks m !! k = m !! k.
Proof.
  unfold removeAll. revert m.
  induction ks as [|k' ks IH]; intros m Hni; simpl; [done|].
  apply not_elem_of_cons in Hni as [Hne Hni].
  rewrite IH by done. by apply lookup_delete_ne.
Qed.

Lemma lookup_removeAll_elem k ks (m : gmap string value) :
  k ∈ ks → removeAll ks m !! k = None.
Proof.
  unfold removeAll. revert m.
  induction ks as [|k' ks IH]; intros m Hin; simpl.
  - by apply elem_of_nil in Hin.
  - destruct (decide (k ∈ ks)) as [Hks|Hks]; [by apply IH|].
    apply elem_of_cons in Hin as [->|Hin]; [|done].
    fold (removeAll ks (delete k' m)). rewrite lookup_removeAll_other by done.
    apply lookup_delete_eq.
Qed.

Lemma keeps_removeMultiple ks : K ∉ ks → keeps K (browserStorage_removeMultiple ks).
Proof. intros Hni w. simpl. by apply lookup_removeAll_other. Qed.

Lemma keeps_setMultiple data : keeps K (hybridStorage_setMultiple H data).
Proof. intros w. unfold hybridStorage_setMultiple. by destruct (hybridCommits H data). Qed.

Lemma keeps_parseOrThrow {A} (r : option A) : keeps K (parseOrThrow r).
Proof. by destruct r. Qed.

Lemma keeps_JSON_parse raw : keeps K (JSON_parse raw).
Proof. unfold JSON_parse. by destruct (JSON.parse raw). Qed.

Ltac keeps_step :=
  lazymatch goal with
  | |- keeps _ (bind _ _) => apply keeps_bind; [|intros ?]
  | |- keeps _ (ret _) => apply keeps_ret
  | |- keeps _ (throw _) => apply keeps_throw
  | |- keeps _ (logger _ _) => apply keeps_logger
  | |- keeps _ (browserStorage_get _) => apply keeps_get
  | |- keeps _ browserStorage_entries => apply keeps_entries
  | |- keeps _ (browserStorage_set _ _) => apply keeps_set; try done
  | |- keeps _ (localStorage_removeItem _) => apply keeps_removeItem
  | |- keeps _ (hybridStorage_setMultiple _ _) => apply keeps_setMultiple
  | |- keeps _ (parseOrThrow _) => apply keeps_parseOrThrow
  | |- keeps _ (JSON_parse _) => apply keeps_JSON_parse
  | |- keeps _ (tryCatch _ _) => apply keeps_tryCatch; [|intros ?]
  | |- keeps _ (match ?x with _ => _ end) => destruct x
  end.

Lemma keeps_logAll diag : keeps K (logAll diag).
Proof. induction diag as [|[l msg] diag IH]; simpl; repeat keeps_step. done. Qed.

Lemma keeps_reserialize transformer raw : keeps K (reserialize transformer raw).
Proof. unfold reserialize. repeat keeps_step. Qed.

Lemma keeps_reshapeField key transformer settings :
  keeps K (reshapeField key transformer settings).
Proof.
  unfold reshapeField. repeat keeps_step. apply keeps_reserialize.
Qed.

Lemma keeps_moveStorageData key settings :
  K ≠ key → keeps K (moveStorageData key settings).
Proof. intros Hne. unfold moveStorageData. repeat keeps_step. Qed.

Lemma keeps_settingsValidator merged : keeps K (settingsValidator C merged).
Proof.
  unfold settingsValidator, appearanceThemePreprocess. repeat keeps_step.
Qed.

Lemma keeps_setEach lists :
  Forall (λ row, K ≠ fst row) lists → keeps K (setEach lists).
Proof.
  induction 1 as [|[key val] lists Hne Hall IH]; simpl; repeat keeps_step. done.
Qed.

Lemma keeps_migrateFiltersVersionV3toV4 :
  K ≠ ADGUARD_SETTINGS_KEY C → keeps K (migrateFiltersVersionV3toV4 C).
Proof.
  intros Hsettings. unfold migrateFiltersVersionV3toV4. repeat keeps_step.
Qed.

Lemma keeps_editSettingsV0toV1 :
  Forall (λ k, K ≠ k) movedKeys → keeps K (editSettingsV0toV1 C).
Proof.
  intros Hnames.
  unfold movedKeys in Hnames. repeat (apply Forall_cons in Hnames as [? Hnames]).
  unfold editSettingsV0toV1.
  repeat first [ apply keeps_reshapeField | by apply keeps_moveStorageData | keeps_step ].
Qed.

Hypothesis Hreach : outOfReach C H K.

Lemma keeps_migrateFromV0toV1 : keeps K (migrateFromV0toV1 C).
Proof.
  destruct Hreach as (_ & Hnames & _).
  unfold keysOfSteps in Hnames. apply Forall_cons in Hnames as [? Hnames].
  pose proof (keeps_editSettingsV0toV1 Hnames).
  unfold migrateFromV0toV1.
  repeat first [ done | apply keeps_settingsValidator | keeps_step ].
Qed.

Lemma keeps_migrateFromV1toV2 : keeps K (migrateFromV1toV2 C H).
Proof.
  destruct Hreach as (_ & Hnames & _).
  unfold keysOfSteps, movedKeys in Hnames.
  repeat (apply Forall_cons in Hnames as [? Hnames]).
  unfold migrateFromV1toV2. repeat keeps_step.
Qed.

Lemma keeps_migrateFromV2toV3 : keeps K (migrateFromV2toV3 C H).
Proof.
  destruct Hreach as (_ & Hnames & _ & _ & Hidb).
  unfold keysOfSteps, movedKeys in Hnames.
  repeat (apply Forall_cons in Hnames as [? Hnames]).
  unfold migrateFromV2toV3, migrateUserRules.
  apply keeps_bind.
  - apply keeps_tryCatch; [|intros; apply keeps_logger].
    destruct (idbRows H) as [e|data]; [apply keeps_throw|].
    destruct (keyValueRows Zod.Strip data) as [lists|].
    + intros w. apply (keeps_setEach lists Hidb).
    + by intros w.
  - intros _. repeat first [ apply keeps_reserialize | keeps_step ].
Qed.

Lemma not_elem_of_filter_prefix prefix (ks : list string) :
  String.prefix prefix K = false → K ∉ List.filter (String.prefix prefix) ks.
Proof.
  intros Hp Hin. apply list_elem_of_In, filter_In in Hin as [_ Hin]. congruence.
Qed.

Lemma keeps_migrateFromV3toV4 : keeps K (migrateFromV3toV4 C H).
Proof.
  destruct Hreach as (Hsettings & _ & Hraw & Hfilter & _).
  pose proof (keeps_migrateFiltersVersionV3toV4 Hsettings).
  unfold migrateFromV3toV4.
  repeat first
    [ done | apply keeps_logAll
    | apply keeps_removeMultiple, not_elem_of_app;
      split; by apply not_elem_of_filter_prefix
    | keeps_step ].
Qed.

Lemma keeps_schemaMigrationMap schema act :
  schemaMigrationMap C H schema = Some act → keeps K act.
Proof.
  unfold schemaMigrationMap. intros Hact.
  destruct schema as [|[[|[]|]|[]|]|]; simplify_eq;
    auto using keeps_migrateFromV0toV1, keeps_migrateFromV1toV2,
      keeps_migrateFromV2toV3, keeps_migrateFromV3toV4.
Qed.

End Frame.

(** *** The schema version [update] stores *)

Section SchemaVersion.
Variables (C : Externals) (H : Host).

Lemma keeps_runSchemaMigration K act a b :
  keeps K act → keeps K (runSchemaMigration C act a b).
Proof.
  intros Hact w. unfold runSchemaMigration, tryCatch. specialize (Hact w).
  by destruct (act w).
Qed.

Lemma migrationLoop_keeps K migrationMap cur prev n :
  (∀ v act, migrationMap v = Some act → keeps K act) →
  ∀ schema w,
    browser (worldOf (snd (migrationLoop C migrationMap cur prev n schema w))) !! K
    = browser w !! K.
Proof.
  intros Hmap. induction n as [|n IH]; intros schema w; simpl; [done|].
  destruct (schema <? cur); [|done].
  destruct (migrationMap schema) as [act|] eqn:Hact; [|done].
  pose proof (keeps_runSchemaMigration K act schema (schema + 1) (Hmap _ _ Hact) w) as Hk.
  destruct (runSchemaMigration C act schema (schema + 1) w) as [[] w'|e w'];
    simpl in Hk; [|done].
  specialize (IH (schema + 1) w').
  destruct (migrationLoop C migrationMap cur prev n (schema + 1) w') as [j r].
  simpl in *. congruence.
Qed.

Lemma runMigrationsWith_keeps K migrationMap cur prev w :
  K ≠ ADGUARD_SETTINGS_KEY C →
  (∀ v act, migrationMap v = Some act → keeps K act) →
  browser (worldOf (snd (runMigrationsWith C migrationMap cur prev w))) !! K
  = browser w !! K.
Proof.
  intros Hne Hmap. unfold runMigrationsWith, tryMigrations.
  pose proof (migrationLoop_keeps K migrationMap cur prev
                (Z.to_nat (cur - prev)) Hmap prev w) as Hloop.
  destruct (migrationLoop C migrationMap cur prev (Z.to_nat (cur - prev)) prev w)
    as [j [[] w'|e w']]; simpl in *; [done|].
  by rewrite lookup_insert_ne.
Qed.

Lemma bookkeeping_schema_version runInfo w w' :
  SCHEMA_VERSION_KEY C ≠ APP_VERSION_KEY C →
  bookkeeping C H runInfo w = Ok tt w' →
  browser w' !! SCHEMA_VERSION_KEY C = Some (Num (currentSchemaVersion runInfo)).
Proof.
  intros Hne. unfold bookkeeping, bind.
  destruct (clientId runInfo) as [id|]; [destruct (truthy (Some (Str id)))|];
    simpl; intros [= <-]; simpl;
    (rewrite lookup_insert_ne by done); apply lookup_insert_eq.
Qed.

(** C1 (as amended). [update] stores [currentSchemaVersion] under the
    schema-version key before any migration runs, and nothing takes it
    back: when [update] is over, whether all steps resolved or one
    failed and the settings were reset, the stored schema version is
    [currentSchemaVersion]. (The schema-version key is taken to be none
    of the keys the steps write or remove.) *)
Theorem C1_stored_schema_version_is_the_current_one runInfo w :
  SCHEMA_VERSION_KEY C ≠ APP_VERSION_KEY C →
  outOfReach C H (SCHEMA_VERSION_KEY C) →
  browser (worldOf (snd (update C H runInfo w))) !! SCHEMA_VERSION_KEY C
  = Some (Num (currentSchemaVersion runInfo)).
Proof.
  intros Hne Hreach. unfold update, updateWith.
  destruct (bookkeeping_resolves C H runInfo w) as [w0 Hw0]. rewrite Hw0.
  rewrite runMigrationsWith_keeps.
  - by eapply bookkeeping_schema_version.
  - apply Hreach.
  - intros v act Hact. by eapply keeps_schemaMigrationMap.
Qed.

End SchemaVersion.

(** *** [moveStorageData] *)

Section MoveStorageData.

(** C9 (as amended). [moveStorageData] moves a field whose value is
    truthy: the field leaves the settings object and its value is
    written under the same key of the storage, nothing else changing in
    either. A field that is missing, or whose value is falsy ([false],
    [0], the empty string, [null]), is left where it is and nothing is
    written. *)
Theorem C9_moveStorageData_moves_truthy_fields key settings w :
  match get key settings with
  | Some data =>
      if truthy (Some data) then
        ∃ settings' w',
          moveStorageData key settings w = Ok settings' w'
          ∧ get key settings' = None
          ∧ (∀ k, k ≠ key → get k settings' = get k settings)
          ∧ browser w' = <[key := data]> (browser w)
          ∧ (∀ k, k ≠ key → browser w' !! k = browser w !! k)
          ∧ hybrid w' = hybrid w ∧ localStorage w' = localStorage w ∧ logs w' = logs w
      else moveStorageData key settings w = Ok settings w
  | None => moveStorageData key settings w = Ok settings w
  end.
Proof.
  unfold moveStorageData.
  destruct (get key settings) as [data|] eqn:Hget; [|done].
  destruct (truthy (Some data)); [|done].
  eexists _, _. split; [reflexivity|]. simpl.
  split; [apply get_del_eq|]. split; [intros k Hk; by apply get_del_ne|].
  split; [done|]. split; [|done].
  intros k Hk. by apply lookup_insert_ne.
Qed.

End MoveStorageData.

(** *** Migration from schema v3 to schema v4: the two loops *)

Section Staging.
Variables (C : Externals) (entries : gmap string value).

Lemma mapM_string_ xs :
  mapM Zod.string_ xs = if forallb isStr xs then Some xs else None.
Proof.
  induction xs as [|x xs IH]; simpl; [done|].
  destruct x; simpl; try done.
  rewrite IH. by destruct (forallb isStr xs).
Qed.

Lemma filterSchema_Arr xs :
  filterSchema (Arr xs) = if forallb isStr xs then Some (Arr xs) else None.
Proof.
  unfold filterSchema, Zod.or, Zod.array. simpl. rewrite mapM_string_.
  by destruct (forallb isStr xs).
Qed.

Lemma forallb_isStr_fmap lines : forallb isStr (Str <$> lines) = true.
Proof. induction lines as [|l lines IH]; simpl; [done | apply IH]. Qed.

Lemma linesOf_Arr lines : linesOf C (Arr (Str <$> lines)) = lines.
Proof.
  simpl. induction lines as [|l lines IH]; simpl; [done | by f_equal].
Qed.

Lemma stageFilter_skipped acc key :
  skippedFilter C entries key = true →
  ∃ d, stageFilter C entries acc key = (acc.1, acc.2 ++ [(LDebug, d)]).
Proof.
  unfold skippedFilter, stageFilter. destruct acc as [staged diag]. simpl.
  destruct (FiltersStorage_extractFilterIdFromFilterKey C key) as [filterId|];
    [|by eexists].
  destruct (entries !! key) as [[| | | |xs|]|]; simpl; intros Hskip;
    try discriminate; try (by eexists).
  rewrite filterSchema_Arr. destruct (forallb isStr xs); [discriminate | by eexists].
Qed.

Lemma stageRawFilter_skipped acc key :
  skippedRawFilter C entries key = true →
  ∃ d, stageRawFilter C entries acc key = (acc.1, acc.2 ++ [(LDebug, d)]).
Proof.
  unfold skippedRawFilter, stageRawFilter. destruct acc as [staged diag]. simpl.
  destruct (RawFiltersStorage_extractFilterIdFromFilterKey C key) as [filterId|];
    [|by eexists].
  destruct (entries !! key) as [[]|]; simpl; intros Hskip;
    try discriminate; by eexists.
Qed.

Lemma stageFilter_fst acc acc' key :
  acc.1 = acc'.1 → (stageFilter C entries acc key).1 = (stageFilter C entries acc' key).1.
Proof.
  destruct acc as [staged diag], acc' as [staged' diag']. simpl. intros <-.
  unfold stageFilter.
  destruct (FiltersStorage_extractFilterIdFromFilterKey C key); [|done].
  by destruct (entries !! key ≫= filterSchema).
Qed.

Lemma stageRawFilter_fst acc acc' key :
  acc.1 = acc'.1 →
  (stageRawFilter C entries acc key).1 = (stageRawFilter C entries acc' key).1.
Proof.
  destruct acc as [staged diag], acc' as [staged' diag']. simpl. intros <-.
  unfold stageRawFilter.
  destruct (RawFiltersStorage_extractFilterIdFromFilterKey C key); [|done].
  by destruct (isString (entries !! key)).
Qed.

Lemma fold_stage_fst (stage : migrationData * diagnostics → string → migrationData * diagnostics) :
  (∀ acc acc' key, acc.1 = acc'.1 → (stage acc key).1 = (stage acc' key).1) →
  ∀ ks acc acc', acc.1 = acc'.1 → (fold_left stage ks acc).1 = (fold_left stage ks acc').1.
Proof.
  intros Hstage ks. induction ks as [|k ks IH]; intros acc acc' Heq; simpl; [done|].
  by apply IH, Hstage.
Qed.

(** A loop stages what it would stage on the keys it does not skip. *)
Lemma fold_stage_skips
  (stage : migrationData * diagnostics → string → migrationData * diagnostics)
  (skipped : string → bool) :
  (∀ acc acc' key, acc.1 = acc'.1 → (stage acc key).1 = (stage acc' key).1) →
  (∀ acc key, skipped key = true → (stage acc key).1 = acc.1) →
  ∀ ks acc,
    (fold_left stage ks acc).1
    = (fold_left stage (List.filter (λ k, negb (skipped k)) ks) acc).1.
Proof.
  intros Hfst Hskip ks. induction ks as [|k ks IH]; intros acc; simpl; [done|].
  destruct (skipped k) eqn:Hk; simpl.
  - rewrite <- IH. by apply fold_stage_fst, Hskip.
  - apply IH.
Qed.

Lemma stageFilter_unreadable acc key :
  FiltersStorage_extractFilterIdFromFilterKey C key = None →
  stageFilter C entries acc key
  = (acc.1,
     acc.2 ++ [(LDebug, "Failed to extract filter ID from the key: " +:+ key
                          +:+ ", skipping")]).
Proof. intros Hid. destruct acc as [staged diag]. unfold stageFilter. by rewrite Hid. Qed.

Lemma stageFilter_invalid acc key filterId :
  FiltersStorage_extractFilterIdFromFilterKey C key = Some filterId →
  skippedFilter C entries key = true →
  stageFilter C entries acc key
  = (acc.1,
     acc.2 ++ [(LDebug, "Failed to parse data from filter ID " +:+ pretty filterId
                          +:+ " from the old storage: "
                          +:+ getErrorMessage C ZodError)]).
Proof.
  intros Hid. unfold skippedFilter, stageFilter. destruct acc as [staged diag].
  rewrite Hid. simpl.
  destruct (entries !! key) as [[| | | |xs|]|]; simpl; intros Hskip;
    try discriminate; try done.
  rewrite filterSchema_Arr. by destruct (forallb isStr xs).
Qed.

Lemma stageRawFilter_unreadable acc key :
  RawFiltersStorage_extractFilterIdFromFilterKey C key = None →
  stageRawFilter C entries acc key
  = (acc.1,
     acc.2 ++ [(LDebug, "Failed to extract raw filter ID from the key: " +:+ key
                          +:+ ", skipping")]).
Proof.
  intros Hid. destruct acc as [staged diag]. unfold stageRawFilter. by rewrite Hid.
Qed.

Lemma stageRawFilter_invalid acc key filterId :
  RawFiltersStorage_extractFilterIdFromFilterKey C key = Some filterId →
  skippedRawFilter C entries key = true →
  stageRawFilter C entries acc key
  = (acc.1,
     acc.2 ++ [(LDebug, "Failed to parse data from raw filter ID " +:+ pretty filterId
                          +:+ " from the old storage: "
                          +:+ getErrorMessage C ZodError)]).
Proof.
  intros Hid. unfold skippedRawFilter, stageRawFilter. destruct acc as [staged diag].
  rewrite Hid. simpl.
  destruct (entries !! key) as [[]|]; simpl; intros Hskip; try discriminate; done.
Qed.

Lemma stageFilter_diag acc key :
  ∃ extra, (stageFilter C entries acc key).2 = acc.2 ++ extra.
Proof.
  destruct acc as [staged diag]. unfold stageFilter.
  destruct (FiltersStorage_extractFilterIdFromFilterKey C key); [|by eexists].
  destruct (entries !! key ≫= filterSchema); [|by eexists].
  exists []. simpl. by rewrite app_nil_r.
Qed.

Lemma stageRawFilter_diag acc key :
  ∃ extra, (stageRawFilter C entries acc key).2 = acc.2 ++ extra.
Proof.
  destruct acc as [staged diag]. unfold stageRawFilter.
  destruct (RawFiltersStorage_extractFilterIdFromFilterKey C key); [|by eexists].
  destruct (isString (entries !! key)); [|by eexists].
  exists []. simpl. by rewrite app_nil_r.
Qed.

(** A loop keeps the diagnostics it was given and those of each of its
    keys. *)
Lemma fold_stage_logged
  (stage : migrationData * diagnostics → string → migrationData * diagnostics) :
  (∀ acc key, ∃ extra, (stage acc key).2 = acc.2 ++ extra) →
  ∀ ks acc x,
    (x ∈ acc.2 ∨ ∃ key, key ∈ ks ∧ ∀ acc', x ∈ (stage acc' key).2) →
    x ∈ (fold_left stage ks acc).2.
Proof.
  intros Hdiag ks. induction ks as [|k ks IH]; intros acc x Hx; simpl.
  - destruct Hx as [|(key & Hin & _)]; [done|]. by apply elem_of_nil in Hin.
  - apply IH. destruct Hx as [Hx|(key & Hin & Hkey)].
    + left. destruct (Hdiag acc k) as [extra ->]. apply elem_of_app. by left.
    + apply elem_of_cons in Hin as [->|Hin]; [left; apply Hkey | right; by exists key].
Qed.

Lemma stageAll_logged x :
  (∃ key, key ∈ filterKeysOf C entries ∧ ∀ acc, x ∈ (stageFilter C entries acc key).2)
  ∨ (∃ key, key ∈ rawFilterKeysOf C entries
       ∧ ∀ acc, x ∈ (stageRawFilter C entries acc key).2) →
  x ∈ (stageAll C entries).2.
Proof.
  intros Hx. unfold stageAll.
  apply (fold_stage_logged _ stageRawFilter_diag).
  destruct Hx as [Hx|Hx]; [left | by right].
  apply (fold_stage_logged _ stageFilter_diag). by right.
Qed.

(** The two loops stage what they would stage on the keys they do not
    pass over. *)
Lemma stageAll_skips :
  (stageAll C entries).1
  = (fold_left (stageRawFilter C entries)
       (List.filter (λ k, negb (skippedRawFilter C entries k)) (rawFilterKeysOf C entries))
       (fold_left (stageFilter C entries)
          (List.filter (λ k, negb (skippedFilter C entries k)) (filterKeysOf C entries))
          ([], []))).1.
Proof.
  unfold stageAll.
  rewrite (fold_stage_skips _ (skippedRawFilter C entries)).
  - apply fold_stage_fst; [apply stageRawFilter_fst|].
    apply fold_stage_skips; [apply stageFilter_fst|].
    intros acc key Hk. by destruct (stageFilter_skipped acc key Hk) as [d ->].
  - apply stageRawFilter_fst.
  - intros acc key Hk. by destruct (stageRawFilter_skipped acc key Hk) as [d ->].
Qed.

Lemma stageFilter_string acc key filterId text :
  FiltersStorage_extractFilterIdFromFilterKey C key = Some filterId →
  entries !! key = Some (Str text) →
  stageFilter C entries acc key
  = (assign acc.1 (FiltersStorage_prepareFilterForStorage C filterId
                     (NEWLINE_CHAR_REGEX_split C text)),
     acc.2).
Proof.
  destruct acc as [staged diag]. intros Hid Hval. unfold stageFilter.
  by rewrite Hid, Hval.
Qed.

Lemma stageFilter_lines acc key filterId lines :
  FiltersStorage_extractFilterIdFromFilterKey C key = Some filterId →
  entries !! key = Some (Arr (Str <$> lines)) →
  stageFilter C entries acc key
  = (assign acc.1 (FiltersStorage_prepareFilterForStorage C filterId lines), acc.2).
Proof.
  destruct acc as [staged diag]. intros Hid Hval. unfold stageFilter.
  rewrite Hid, Hval. simpl. rewrite filterSchema_Arr, forallb_isStr_fmap.
  by rewrite linesOf_Arr.
Qed.

Lemma stageRawFilter_string acc key filterId text :
  RawFiltersStorage_extractFilterIdFromFilterKey C key = Some filterId →
  entries !! key = Some (Str text) →
  stageRawFilter C entries acc key = (set key text acc.1, acc.2).
Proof.
  destruct acc as [staged diag]. intros Hid Hval. unfold stageRawFilter.
  by rewrite Hid, Hval.
Qed.

End Staging.

(** *** Migration from schema v3 to schema v4: the transaction *)

Section Consolidation.
Variables (C : Externals) (H : Host).

Lemma logAll_run diag : ∀ w,
  logAll diag w
  = Ok tt (mkWorld (browser w) (hybrid w) (localStorage w) (logs w ++ diag)).
Proof.
  induction diag as [|[l msg] diag IH]; intros w; simpl.
  - rewrite app_nil_r. by destruct w.
  - unfold bind. simpl. rewrite IH. simpl. by rewrite <- app_assoc.
Qed.

Lemma hasLegacyFilters_test w :
  hasLegacyFilters C w →
  Nat.eqb (length (rawFilterKeysOf C (browser w))) 0
  && Nat.eqb (length (filterKeysOf C (browser w))) 0 = false.
Proof.
  intros [Hraw|Hfilter].
  - destruct (rawFilterKeysOf C (browser w)); [done|]. done.
  - destruct (filterKeysOf C (browser w)); [done|]. simpl. apply andb_false_r.
Qed.

Lemma migrateFromV3toV4_committed w :
  hasLegacyFilters C w →
  hybridCommits H (stageAll C (browser w)).1 = true →
  migrateFromV3toV4 C H w = migrateFiltersVersionV3toV4 C (afterConsolidation C w).
Proof.
  intros Hlegacy Hcommit. unfold migrateFromV3toV4, bind at 1. simpl.
  rewrite hasLegacyFilters_test by done.
  unfold afterConsolidation.
  destruct (stageAll C (browser w)) as [staged diag]. simpl in *.
  unfold bind. rewrite logAll_run. unfold hybridStorage_setMultiple. simpl.
  rewrite Hcommit. simpl. by rewrite <- app_assoc.
Qed.

Lemma migrateFromV3toV4_refused w :
  hasLegacyFilters C w →
  hybridCommits H (stageAll C (browser w)).1 = false →
  migrateFromV3toV4 C H w
  = Throw transactionFailed
      (mkWorld (browser w) (hybrid w) (localStorage w)
         (logs w ++ (stageAll C (browser w)).2)).
Proof.
  intros Hlegacy Hcommit. unfold migrateFromV3toV4, bind at 1. simpl.
  rewrite hasLegacyFilters_test by done.
  destruct (stageAll C (browser w)) as [staged diag]. simpl in *.
  unfold bind. rewrite logAll_run. unfold hybridStorage_setMultiple. simpl.
  by rewrite Hcommit.
Qed.

(** Without a legacy filter the step leaves a line in the log and
    returns: the settings are not read. *)
Lemma migrateFromV3toV4_without_legacy_filters w :
  rawFilterKeysOf C (browser w) = [] → filterKeysOf C (browser w) = [] →
  migrateFromV3toV4 C H w
  = Ok tt (mkWorld (browser w) (hybrid w) (localStorage w)
             (logs w ++ [(LDebug, "No filters to migrate from storage to hybrid storage")])).
Proof.
  intros Hraw Hfilter. unfold migrateFromV3toV4, bind at 1. simpl.
  by rewrite Hraw, Hfilter.
Qed.

(** The second half of the step writes the settings record at most. *)
Lemma migrateFiltersVersion_hybrid w :
  hybrid (worldOf (migrateFiltersVersionV3toV4 C w)) = hybrid w.
Proof.
  unfold migrateFiltersVersionV3toV4, bind, browserStorage_get, parseOrThrow,
    JSON_parse.
  destruct (recordOfUnknown (browser w !! ADGUARD_SETTINGS_KEY C)) as [settings|];
    [|done].
  simpl. destruct (get (SettingOption_FiltersVersion C) settings) as [[]|]; try done.
  destruct (JSON.parse s); [|done]. simpl.
  by destruct (filtersVersionDataValidatorV3 C v).
Qed.

Lemma migrateFiltersVersion_absent k w :
  browser w !! k = None →
  browser (worldOf (migrateFiltersVersionV3toV4 C w)) !! k = None.
Proof.
  intros Hk. destruct (decide (k = ADGUARD_SETTINGS_KEY C)) as [->|Hne].
  - unfold migrateFiltersVersionV3toV4, bind, browserStorage_get.
    by rewrite Hk.
  - by rewrite keeps_migrateFiltersVersionV3toV4.
Qed.

(** C5. The v3 to v4 step hands everything it staged to the hybrid
    storage in one [setMultiple]. When that reports failure the step
    throws and the browser storage, every legacy key in it, is as
    before. When it reports success, the hybrid storage holds the staged
    entries and every legacy key, raw or processed, is gone from the
    browser storage. *)
Theorem C5_legacy_keys_survive_a_failed_transaction w :
  hasLegacyFilters C w →
  let staged := (stageAll C (browser w)).1 in
  let r := migrateFromV3toV4 C H w in
  if hybridCommits H staged then
    hybrid (worldOf r) = setAll staged (hybrid w)
    ∧ ∀ key, key ∈ legacyKeys C w → browser (worldOf r) !! key = None
  else
    ∃ w', r = Throw transactionFailed w'
      ∧ browser w' = browser w
      ∧ hybrid w' = hybrid w
      ∧ ∀ key, key ∈ legacyKeys C w → browser w' !! key = browser w !! key.
Proof.
  intros Hlegacy staged r. subst staged r.
  destruct (hybridCommits H (stageAll C (browser w)).1) eqn:Hcommit.
  - rewrite migrateFromV3toV4_committed by done. split.
    + by rewrite migrateFiltersVersion_hybrid.
    + intros key Hkey. apply migrateFiltersVersion_absent. simpl.
      by apply lookup_removeAll_elem.
  - rewrite migrateFromV3toV4_refused by done. by eexists.
Qed.

End Consolidation.

(** *** Migration from schema v3 to schema v4: the keys passed over *)

Section SkippedKeys.
Variables (C : Externals) (H : Host).

Lemma migrateFiltersVersion_logs w x :
  x ∈ logs w → x ∈ logs (worldOf (migrateFiltersVersionV3toV4 C w)).
Proof.
  intros Hx.
  unfold migrateFiltersVersionV3toV4, bind, browserStorage_get, parseOrThrow,
    JSON_parse.
  destruct (recordOfUnknown (browser w !! ADGUARD_SETTINGS_KEY C)) as [settings|];
    [|done].
  simpl.
  destruct (get (SettingOption_FiltersVersion C) settings) as [[]|]; simpl;
    try (apply elem_of_app; by left).
  destruct (JSON.parse s); [|done]. simpl.
  destruct (filtersVersionDataValidatorV3 C v); simpl; apply elem_of_app; by left.
Qed.

Lemma migrateFromV3toV4_logged w x :
  hasLegacyFilters C w →
  x ∈ (stageAll C (browser w)).2 →
  x ∈ logs (worldOf (migrateFromV3toV4 C H w)).
Proof.
  intros Hlegacy Hx.
  destruct (hybridCommits H (stageAll C (browser w)).1) eqn:Hcommit.
  - rewrite migrateFromV3toV4_committed by done.
    apply migrateFiltersVersion_logs. simpl.
    apply elem_of_app. right. apply elem_of_app. by left.
  - rewrite migrateFromV3toV4_refused by done. simpl.
    apply elem_of_app. by right.
Qed.

(** C8. In the v3 to v4 step on a store with legacy filters, each key
    the two loops enumerate and pass over leaves its diagnostic in the
    log of the step: a key whose filter id cannot be read, and a key
    whose value is not of the expected kind (a string or an array of
    strings for a processed filter, a string for a raw one). The step
    goes on: what it hands to the hybrid storage in its transaction is
    what the two loops stage on the other keys alone, the processed
    filters first, and nothing for a key passed over; when the
    transaction is committed that is what the hybrid storage gains. A
    processed filter kept as one string is split into lines by
    [NEWLINE_CHAR_REGEX] before it is staged, one kept as an array of
    strings is staged as those lines, and a raw filter is staged under
    its own key. *)
Theorem C8_invalid_keys_are_skipped w :
  hasLegacyFilters C w →
  let entries := browser w in
  let filterKeys := filterKeysOf C entries in
  let rawFilterKeys := rawFilterKeysOf C entries in
  let staged :=
    (fold_left (stageRawFilter C entries)
       (List.filter (λ key, negb (skippedRawFilter C entries key)) rawFilterKeys)
       (fold_left (stageFilter C entries)
          (List.filter (λ key, negb (skippedFilter C entries key)) filterKeys)
          ([], []))).1 in
  let r := migrateFromV3toV4 C H w in
  (∀ key, key ∈ filterKeys →
     FiltersStorage_extractFilterIdFromFilterKey C key = None →
     (LDebug, "Failed to extract filter ID from the key: " +:+ key +:+ ", skipping")
     ∈ logs (worldOf r))
  ∧ (∀ key filterId, key ∈ filterKeys →
       FiltersStorage_extractFilterIdFromFilterKey C key = Some filterId →
       skippedFilter C entries key = true →
       (LDebug, "Failed to parse data from filter ID " +:+ pretty filterId
                  +:+ " from the old storage: " +:+ getErrorMessage C ZodError)
       ∈ logs (worldOf r))
  ∧ (∀ key, key ∈ rawFilterKeys →
       RawFiltersStorage_extractFilterIdFromFilterKey C key = None →
       (LDebug, "Failed to extract raw filter ID from the key: " +:+ key +:+ ", skipping")
       ∈ logs (worldOf r))
  ∧ (∀ key filterId, key ∈ rawFilterKeys →
       RawFiltersStorage_extractFilterIdFromFilterKey C key = Some filterId →
       skippedRawFilter C entries key = true →
       (LDebug, "Failed to parse data from raw filter ID " +:+ pretty filterId
                  +:+ " from the old storage: " +:+ getErrorMessage C ZodError)
       ∈ logs (worldOf r))
  ∧ (∀ acc key, skippedFilter C entries key = true →
       (stageFilter C entries acc key).1 = acc.1)
  ∧ (∀ acc key, skippedRawFilter C entries key = true →
       (stageRawFilter C entries acc key).1 = acc.1)
  ∧ (if hybridCommits H staged
     then hybrid (worldOf r) = setAll staged (hybrid w)
     else ∃ w', r = Throw transactionFailed w' ∧ hybrid w' = hybrid w)
  ∧ (∀ acc key filterId text,
       FiltersStorage_extractFilterIdFromFilterKey C key = Some filterId →
       entries !! key = Some (Str text) →
       stageFilter C entries acc key
       = (assign acc.1 (FiltersStorage_prepareFilterForStorage C filterId
                          (NEWLINE_CHAR_REGEX_split C text)),
          acc.2))
  ∧ (∀ acc key filterId lines,
       FiltersStorage_extractFilterIdFromFilterKey C key = Some filterId →
       entries !! key = Some (Arr (Str <$> lines)) →
       stageFilter C entries acc key
       = (assign acc.1 (FiltersStorage_prepareFilterForStorage C filterId lines),
          acc.2))
  ∧ (∀ acc key filterId text,
       RawFiltersStorage_extractFilterIdFromFilterKey C key = Some filterId →
       entries !! key = Some (Str text) →
       stageRawFilter C entries acc key = (set key text acc.1, acc.2)).
Proof.
  intros Hlegacy entries filterKeys rawFilterKeys staged r.
  subst staged r filterKeys rawFilterKeys entries.
  rewrite <- stageAll_skips.
  split.
  { intros key Hin Hid. apply migrateFromV3toV4_logged; [done|].
    apply stageAll_logged. left. exists key. split; [done|]. intros acc.
    rewrite stageFilter_unreadable by done. simpl.
    apply elem_of_app. right. by left. }
  split.
  { intros key filterId Hin Hid Hskip. apply migrateFromV3toV4_logged; [done|].
    apply stageAll_logged. left. exists key. split; [done|]. intros acc.
    rewrite (stageFilter_invalid _ _ _ _ _ Hid Hskip). simpl.
    apply elem_of_app. right. by left. }
  split.
  { intros key Hin Hid. apply migrateFromV3toV4_logged; [done|].
    apply stageAll_logged. right. exists key. split; [done|]. intros acc.
    rewrite stageRawFilter_unreadable by done. simpl.
    apply elem_of_app. right. by left. }
  split.
  { intros key filterId Hin Hid Hskip. apply migrateFromV3toV4_logged; [done|].
    apply stageAll_logged. right. exists key. split; [done|]. intros acc.
    rewrite (stageRawFilter_invalid _ _ _ _ _ Hid Hskip). simpl.
    apply elem_of_app. right. by left. }
  split.
  { intros acc key Hk. by destruct (stageFilter_skipped C (browser w) acc key Hk) as [d ->]. }
  split.
  { intros acc key Hk.
    by destruct (stageRawFilter_skipped C (browser w) acc key Hk) as [d ->]. }
  split.
  { destruct (hybridCommits H (stageAll C (browser w)).1) eqn:Hcommit.
    - rewrite migrateFromV3toV4_committed by done.
      by rewrite migrateFiltersVersion_hybrid.
    - rewrite migrateFromV3toV4_refused by done. by eexists. }
  split; [apply stageFilter_string|].
  split; [apply stageFilter_lines | apply stageRawFilter_string].
Qed.

End SkippedKeys.

(** *** Validators keep the data they accept *)

Section ValidatorLemmas.

Lemma map_fmap {A B} (f : A → B) (l : list A) : map f l = f <$> l.
Proof. induction l as [|x l IH]; simpl; [done | by f_equal]. Qed.

Lemma get_app {A} k (ps qs : list (string * A)) :
  get k (ps ++ qs) = match get k ps with Some v => Some v | None => get k qs end.
Proof.
  induction ps as [|[k' v'] ps IH]; simpl; [done|].
  by destruct (String.eqb k k').
Qed.

Lemma elem_of_set {A} (p : string * A) k v ps :
  p ∈ set k v ps → p = (k, v) ∨ p ∈ ps.
Proof.
  induction ps as [|[k' v'] ps IH]; simpl.
  - intros ->%list_elem_of_singleton. by left.
  - destruct (String.eqb k k').
    + intros [->|Hin]%elem_of_cons; [by left | right; by right].
    + intros [->|Hin]%elem_of_cons; [right; by left|].
      destruct (IH Hin) as [->|Hps]; [by left | right; by right].
Qed.

Lemma get_snoc {A} k (ps : list (string * A)) k' v' :
  get k (ps ++ [(k', v')])
  = match get k ps with
    | Some v => Some v
    | None => if String.eqb k k' then Some v' else None
    end.
Proof. by rewrite get_app. Qed.

Lemma NoDup_keys_pair (k1 k2 : string) (v1 v2 : value) :
  k1 ≠ k2 → NoDup (keys [(k1, v1); (k2, v2)]).
Proof.
  intros Hne. simpl. apply NoDup_cons. split; [|apply NoDup_singleton].
  by intros ->%list_elem_of_singleton.
Qed.


Lemma faithful_optional_number : faithful (Zod.optional Zod.number).
Proof. intros [[]|] y; simpl; intros [= <-]; done. Qed.

Lemma get_parseShape shape data : ∀ out,
  Forall (λ d, faithful d.2) shape →
  Zod.parseShape shape data = Some out →
  ∀ k, get k out = if declared shape k then get k data else None.
Proof.
  induction shape as [|[k0 f] shape IH]; intros out Hall Hparse k; simpl in *.
  - by injection Hparse as <-.
  - apply Forall_cons in Hall as [Hf Hall]. simpl in Hf.
    destruct (f (get k0 data)) as [r|] eqn:Hr; [|done].
    destruct (Zod.parseShape shape data) as [out'|]; [|done].
    injection Hparse as <-. apply Hf in Hr as ->.
    specialize (IH out' Hall eq_refl k). unfold declared in *. simpl.
    destruct (String.eqb k k0) eqn:E; simpl.
    + apply String.eqb_eq in E as ->.
      destruct (get k0 data) as [v|] eqn:Hv; simpl.
      * by rewrite eqb_refl_true.
      * rewrite IH. by destruct (existsb _ _).
    + destruct (get k0 data) as [v|]; simpl; [by rewrite E | done].
Qed.

Lemma get_extraKeys shape data k :
  get k (Zod.extraKeys shape data) = if declared shape k then None else get k data.
Proof.
  unfold Zod.extraKeys, declared.
  induction data as [|[k' v'] data IH]; simpl.
  - by destruct (existsb _ _).
  - destruct (existsb (String.eqb k') (map fst shape)) eqn:Hk'; simpl.
    + destruct (String.eqb k k') eqn:E; [|done].
      apply String.eqb_eq in E as ->. by rewrite Hk' in *.
    + destruct (String.eqb k k') eqn:E; [|done].
      apply String.eqb_eq in E as ->. by rewrite Hk'.
Qed.

(** An object without its [__proto__] key, as a validator rebuilds
    it. *)
Lemma get_withoutProto {A} k (ps : list (string * A)) :
  get k (Zod.withoutProto ps) = if Zod.settable k then get k ps else None.
Proof.
  unfold Zod.withoutProto.
  induction ps as [|[k' v'] ps IH]; simpl; [by destruct (Zod.settable k)|].
  destruct (Zod.settable k') eqn:Hk'; simpl.
  - destruct (String.eqb k k') eqn:E; [|done].
    apply String.eqb_eq in E as ->. by rewrite Hk'.
  - destruct (String.eqb k k') eqn:E; [|done].
    apply String.eqb_eq in E as ->. by rewrite IH, Hk'.
Qed.

Lemma keys_withoutProto {A} (ps : list (string * A)) :
  sublist (keys (Zod.withoutProto ps)) (keys ps).
Proof.
  unfold Zod.withoutProto, keys.
  induction ps as [|[k v] ps IH]; simpl; [done|].
  destruct (Zod.settable k); simpl; [by apply sublist_skip | by apply sublist_cons].
Qed.

Lemma NoDup_withoutProto {A} (ps : list (string * A)) :
  NoDup (keys ps) → NoDup (keys (Zod.withoutProto ps)).
Proof. intros Hnd. eapply sublist_NoDup; [exact Hnd | apply keys_withoutProto]. Qed.

Lemma withoutProto_settable {A} (ps : list (string * A)) :
  Forall (λ p, Zod.settable p.1 = true) ps → Zod.withoutProto ps = ps.
Proof.
  unfold Zod.withoutProto.
  induction 1 as [|[k v] ps Hk Hps IH]; simpl in *; [done|]. by rewrite Hk, IH.
Qed.

Lemma settable_withoutProto {A} (ps : list (string * A)) :
  Forall (λ p, Zod.settable p.1 = true) (Zod.withoutProto ps).
Proof.
  unfold Zod.withoutProto. apply Forall_forall. intros p Hp.
  apply list_elem_of_In, filter_In in Hp as [_ Hp]. done.
Qed.

Lemma withoutProto_app {A} (ps qs : list (string * A)) :
  Zod.withoutProto (ps ++ qs) = Zod.withoutProto ps ++ Zod.withoutProto qs.
Proof. unfold Zod.withoutProto. apply List.filter_app. Qed.

Lemma settable_ne k : k ≠ "__proto__" → Zod.settable k = true.
Proof. intros Hne. unfold Zod.settable. by rewrite eqb_false_of_ne. Qed.

Lemma settable_true k : Zod.settable k = true → k ≠ "__proto__".
Proof. unfold Zod.settable. intros Hk ->. done. Qed.

Lemma withoutProto_absent {A} (ps : list (string * A)) :
  get "__proto__" ps = None → Zod.withoutProto ps = ps.
Proof.
  intros Hnone. apply withoutProto_settable, Forall_forall. intros [k v] Hin.
  apply settable_ne. simpl. intros ->.
  apply get_None_not_key in Hnone. apply Hnone.
  unfold keys. apply list_elem_of_In, in_map_iff. exists ("__proto__", v).
  split; [done|]. by apply list_elem_of_In.
Qed.

(** What [zod.object(shape).passthrough()] accepts it hands back with
    the same properties, the declared ones moved to the front and a
    [__proto__] among the others left out. *)
Lemma get_object_passthrough shape data out :
  Forall (λ d, faithful d.2) shape →
  Zod.object shape Zod.Passthrough (Obj data) = Some out →
  ∀ k, get k out = if Zod.settable k || declared shape k then get k data else None.
Proof.
  intros Hall Hobj k. simpl in Hobj.
  destruct (Zod.parseShape shape data) as [declared_|] eqn:Hshape; [|done].
  injection Hobj as <-. rewrite get_app, get_withoutProto, get_extraKeys.
  rewrite (get_parseShape _ _ _ Hall Hshape).
  by destruct (declared shape k), (Zod.settable k), (get k data).
Qed.

Lemma recordEntries_unknown data : ∀ acc,
  Zod.recordEntries Some Zod.unknown data acc = Some (assign acc (Zod.withoutProto data)).
Proof.
  induction data as [|[k v] data IH]; intros acc; simpl; [done|].
  rewrite IH. unfold Zod.withoutProto. simpl. by destruct (Zod.settable k).
Qed.

(** [zod.record(zod.unknown())] hands an object back as it is, its
    [__proto__] key apart. *)
Lemma recordOfUnknown_object data :
  NoDup (keys data) → recordOfUnknown (Some (Obj data)) = Some (Zod.withoutProto data).
Proof.
  intros Hnd. simpl. rewrite recordEntries_unknown.
  by rewrite assign_nil by by apply NoDup_withoutProto.
Qed.

(** No record has a key [__proto__]. *)
Lemma recordEntries_no_proto keyOf (s : Zod.schema) data : ∀ acc out,
  Zod.recordEntries keyOf s data acc = Some out →
  get "__proto__" acc = None → get "__proto__" out = None.
Proof.
  induction data as [|[k v] data IH]; intros acc out Hrec Hacc; simpl in Hrec.
  - by injection Hrec as <-.
  - destruct (keyOf k) as [k'|]; [|done]. destruct (s v) as [v'|]; [|done].
    eapply IH; [exact Hrec|].
    destruct (Zod.settable k') eqn:Hk; [|done].
    rewrite get_set_ne; [done|]. by apply settable_true.
Qed.

Lemma recordOfUnknown_no_proto storageData settings :
  recordOfUnknown storageData = Some settings → get "__proto__" settings = None.
Proof.
  destruct storageData as [[| | | | |data]|]; simpl; try done.
  intros Hrec. by eapply recordEntries_no_proto.
Qed.


Lemma keys_parseShape shape data : ∀ out,
  Zod.parseShape shape data = Some out → sublist (keys out) (map fst shape).
Proof.
  induction shape as [|[k f] shape IH]; intros out Hparse; simpl in *.
  - by injection Hparse as <-.
  - destruct (f (get k data)) as [r|]; [|done].
    destruct (Zod.parseShape shape data) as [out'|]; [|done].
    injection Hparse as <-. specialize (IH out' eq_refl).
    destruct r; simpl; [by apply sublist_skip | by apply sublist_cons].
Qed.

Lemma keys_extraKeys shape (data : props) :
  sublist (keys (Zod.extraKeys shape data)) (keys data)
  ∧ ∀ k, k ∈ keys (Zod.extraKeys shape data) → k ∉ map fst shape.
Proof.
  unfold Zod.extraKeys, keys. split.
  - induction data as [|[k v] data IH]; simpl; [done|].
    destruct (negb _); simpl; [by apply sublist_skip | by apply sublist_cons].
  - intros k Hk Hin.
    apply list_elem_of_In, in_map_iff in Hk as ([k' v'] & <- & Hf).
    apply filter_In in Hf as [_ Hf]. simpl in Hf.
    apply negb_true_iff in Hf.
    assert (existsb (String.eqb k') (map fst shape) = true); [|congruence].
    apply existsb_exists. exists k'. split; [by apply list_elem_of_In|].
    apply String.eqb_refl.
Qed.

(** What [zod.object(shape).passthrough()] hands back has no key twice
    and the properties it was given, a [__proto__] apart. *)
Lemma object_passthrough_spec shape data out :
  Forall (λ d, faithful d.2) shape →
  NoDup (map fst shape) →
  NoDup (keys data) →
  Zod.object shape Zod.Passthrough (Obj data) = Some out →
  NoDup (keys out)
  ∧ ∀ k, get k out = if Zod.settable k || declared shape k then get k data else None.
Proof.
  intros Hall Hshape Hdata Hobj. split; [|by eapply get_object_passthrough].
  simpl in Hobj.
  destruct (Zod.parseShape shape data) as [declared_|] eqn:Hparse; [|done].
  injection Hobj as <-. unfold keys. rewrite map_app. apply NoDup_app.
  destruct (keys_extraKeys shape data) as [Hsub Hfresh].
  pose proof (keys_withoutProto (Zod.extraKeys shape data)) as Hsub'.
  split; [|split].
  - eapply sublist_NoDup; [exact Hshape | by eapply keys_parseShape].
  - intros k Hk Hk'. apply (Hfresh k).
    + eapply sublist_subseteq; [exact Hsub' | exact Hk'].
    + eapply sublist_subseteq; [by eapply keys_parseShape | done].
  - eapply sublist_NoDup; [exact Hdata|]. by etrans.
Qed.




End ValidatorLemmas.

(** *** What [JSON.parse] returns *)

Section ParsedValues.

Lemma wellKeyed_set key v (acc : props) :
  wellKeyed v → wellKeyed (Obj acc) → wellKeyed (Obj (set key v acc)).
Proof.
  rewrite !wellKeyed_Obj. intros Hv [Hnd Hall]. split; [by apply NoDup_keys_set|].
  apply Forall_forall. intros p [->|Hp]%elem_of_set; [done|].
  by eapply Forall_forall in Hall.
Qed.

Lemma parseElements_wellKeyed (item : string → option (value * string)) :
  (∀ t v t', item t = Some (v, t') → wellKeyed v) →
  ∀ k acc t v t', Forall wellKeyed acc →
    JSON.parseElements item k acc t = Some (v, t') → wellKeyed v.
Proof.
  intros Hitem k. induction k as [|k IH]; intros acc t v t' Hacc Hrun; simpl in Hrun;
    [done|].
  destruct (item t) as [[x t1]|] eqn:Hx; [|done].
  assert (Forall wellKeyed (acc ++ [x])) as Hacc'.
  { apply Forall_app. split; [done|]. constructor; [by eapply Hitem | constructor]. }
  destruct (JSON.after "," (JSON.skipWs t1)) as [t2|]; [by eapply IH|].
  destruct (JSON.after "]" (JSON.skipWs t1)) as [t2|]; [|done].
  injection Hrun as <- _. by apply wellKeyed_Arr.
Qed.

Lemma parseMembers_wellKeyed (item : string → option (value * string)) :
  (∀ t v t', item t = Some (v, t') → wellKeyed v) →
  ∀ k acc t v t', wellKeyed (Obj acc) →
    JSON.parseMembers item k acc t = Some (v, t') → wellKeyed v.
Proof.
  intros Hitem k. induction k as [|k IH]; intros acc t v t' Hacc Hrun; simpl in Hrun;
    [done|].
  destruct (JSON.parseString (JSON.skipWs t)) as [[key t1]|]; [|done].
  destruct (JSON.after ":" (JSON.skipWs t1)) as [t2|]; [|done].
  destruct (item t2) as [[x t3]|] eqn:Hx; [|done].
  assert (wellKeyed (Obj (set key x acc))) as Hacc'.
  { apply wellKeyed_set; [by eapply Hitem | done]. }
  destruct (JSON.after "," (JSON.skipWs t3)) as [t4|]; [by eapply IH|].
  destruct (JSON.after "}" (JSON.skipWs t3)) as [t4|]; [|done].
  by injection Hrun as <- _.
Qed.

Lemma parseValue_wellKeyed fuel : ∀ s v rest,
  JSON.parseValue fuel s = Some (v, rest) → wellKeyed v.
Proof.
  assert (wellKeyed (Obj [])) as Hempty.
  { apply wellKeyed_Obj. split; [apply NoDup_nil_2 | constructor]. }
  induction fuel as [|fuel IH]; intros s v rest Hrun; simpl in Hrun; [done|].
  destruct (JSON.skipWs s) as [|c r]; [done|].
  repeat match type of Hrun with
         | (if ?b then _ else _) = _ => destruct b
         end.
  - destruct (JSON.after "}" (JSON.skipWs r)); [by injection Hrun as <- _|].
    eapply parseMembers_wellKeyed; [exact IH | exact Hempty | exact Hrun].
  - destruct (JSON.after "]" (JSON.skipWs r)); [by injection Hrun as <- _|].
    eapply parseElements_wellKeyed; [exact IH | | exact Hrun]. constructor.
  - destruct (JSON.parseChars r) as [[str t]|]; [|done]. by injection Hrun as <- _.
  - unfold JSON.expect in Hrun. destruct (JSON.stripPrefix _ _); [|done].
    by injection Hrun as <- _.
  - unfold JSON.expect in Hrun. destruct (JSON.stripPrefix _ _); [|done].
    by injection Hrun as <- _.
  - unfold JSON.expect in Hrun. destruct (JSON.stripPrefix _ _); [|done].
    by injection Hrun as <- _.
  - destruct (JSON.parseNumber _) as [[z t]|]; [|done]. by injection Hrun as <- _.
Qed.

(** What [JSON.parse] returns has no key twice in any of its objects. *)
Lemma parse_wellKeyed text v : JSON.parse text = Some v → wellKeyed v.
Proof.
  unfold JSON.parse.
  destruct (JSON.parseValue _ text) as [[v' rest]|] eqn:Hrun; [|done].
  destruct (JSON.skipWs rest); [|done]. intros [= <-].
  by eapply parseValue_wellKeyed.
Qed.

End ParsedValues.

(** *** Migration from schema v3 to schema v4: the check times *)

Section CheckTimes.
Variables (C : Externals) (H : Host).












Lemma cannotBeJSON_parse text : cannotBeJSON text = true → JSON.parse text = None.
Proof.
  unfold cannotBeJSON, JSON.parse. intros Hno.
  replace (JSON.parseValue (S (String.length text)) text) with (@None (value * string));
    [done|].
  simpl. destruct (JSON.skipWs text) as [|c r]; [done|].
  apply negb_true_iff in Hno.
  destruct c as [[] [] [] [] [] [] [] []]; try discriminate; reflexivity.
Qed.



End CheckTimes.

(** *** Migration from schema v0 to schema v1: the final validation *)

Section FinalValidation.
Variable C : Externals.

Lemma ensures_ret {A} (Q : A → Prop) a : Q a → ensures Q (ret a).
Proof. intros HQ w a' w' [= <- _]. done. Qed.

Lemma ensures_bind {A B} (P : A → Prop) (Q : B → Prop) (m : M A) (k : A → M B) :
  ensures P m → (∀ a, P a → ensures Q (k a)) → ensures Q (bind m k).
Proof.
  intros Hm Hk w b w' Hrun. unfold bind in Hrun.
  destruct (m w) as [a w1|e w1] eqn:Hmw; [|done].
  eapply Hk; [by eapply Hm | exact Hrun].
Qed.

Lemma ensures_True {A} (m : M A) : ensures (λ _, True) m.
Proof. by intros w a w' _. Qed.

Lemma NoDup_recordOfUnknown storageData :
  ensures (λ ps, NoDup (keys ps)) (parseOrThrow (recordOfUnknown storageData)).
Proof.
  intros w ps w'. destruct storageData as [[| | | | |data]|]; simpl; try done.
  rewrite recordEntries_unknown. simpl. intros [= <- _].
  apply NoDup_keys_assign. simpl. apply NoDup_nil_2.
Qed.

Lemma NoDup_deleteIfTruthy key (settings : props) :
  NoDup (keys settings) → NoDup (keys (deleteIfTruthy key settings)).
Proof.
  intros Hnd. unfold deleteIfTruthy.
  destruct (truthy (get key settings)); [by apply NoDup_keys_del | done].
Qed.

Lemma NoDup_renameField old new (settings : props) :
  NoDup (keys settings) → NoDup (keys (renameField old new settings)).
Proof.
  intros Hnd. unfold renameField.
  destruct (get old settings); [|done]. by apply NoDup_keys_del, NoDup_keys_set.
Qed.

Lemma NoDup_reshapeField key transformer (settings : props) :
  NoDup (keys settings) →
  ensures (λ ps, NoDup (keys ps)) (reshapeField key transformer settings).
Proof.
  intros Hnd. unfold reshapeField.
  destruct (get key settings) as [[]|]; try by apply ensures_ret.
  eapply ensures_bind; [apply ensures_True|].
  intros text _. by apply ensures_ret, NoDup_keys_set.
Qed.

Lemma NoDup_moveStorageData key (settings : props) :
  NoDup (keys settings) →
  ensures (λ ps, NoDup (keys ps)) (moveStorageData key settings).
Proof.
  intros Hnd. unfold moveStorageData.
  destruct (truthy (get key settings)); [|by apply ensures_ret].
  destruct (get key settings); [|by apply ensures_ret].
  eapply ensures_bind; [apply ensures_True|].
  intros _ _. by apply ensures_ret, NoDup_keys_del.
Qed.

(** The settings object the edits hand to the merge has no key twice. *)
Lemma NoDup_editSettingsV0toV1 :
  ensures (λ ps, NoDup (keys ps)) (editSettingsV0toV1 C).
Proof.
  unfold editSettingsV0toV1.
  do 3 (eapply ensures_bind; [apply ensures_True | intros ? _]).
  eapply ensures_bind; [apply NoDup_recordOfUnknown | intros settings Hnd].
  cbv zeta.
  eapply ensures_bind.
  { apply NoDup_reshapeField.
    repeat first [ apply NoDup_renameField | apply NoDup_deleteIfTruthy ].
    exact Hnd. }
  clear Hnd settings. intros settings Hnd.
  repeat (eapply ensures_bind;
          [ first [ by apply NoDup_reshapeField | by apply NoDup_moveStorageData ]
          | clear Hnd; intros ? Hnd ]).
  by apply ensures_ret.
Qed.

Lemma settingsValidator_world merged w :
  worldOf (settingsValidator C merged w) = w.
Proof.
  unfold settingsValidator, appearanceThemePreprocess, bind, JSON_parse,
    parseOrThrow, ret, throw.
  repeat case_match; simplify_eq; done.
Qed.

(** In [{...defaultSettings, ...currentSettings}] the current settings
    win on every key they have. *)
Lemma get_spread2 (defaults current : props) k :
  NoDup (keys current) →
  get k (spread2 defaults current)
  = match get k current with
    | Some v => Some v
    | None => get k (assign [] defaults)
    end.
Proof. intros Hnd. unfold spread2. by apply get_assign. Qed.

Lemma migrateFromV0toV1_unfold w :
  migrateFromV0toV1 C w
  = match editSettingsV0toV1 C w with
    | Throw e w1 => Throw e w1
    | Ok currentSettings w1 =>
        match settingsValidator C (spread2 (defaultSettings C) currentSettings) w1 with
        | Ok settings w2 =>
            Ok tt (withBrowser (insert "adguard-settings" (Obj settings)) w2)
        | Throw e w2 => Throw e w2
        end
    end.
Proof.
  unfold migrateFromV0toV1, bind.
  destruct (editSettingsV0toV1 C w) as [currentSettings w1|e w1]; [|done].
  by destruct (settingsValidator C _ w1).
Qed.

End FinalValidation.

(** *** Migration from schema v0 to schema v1: data already reshaped *)

Section RoundTrip.







End RoundTrip.

(* ===================================================================== *)
(** ** Further properties of the steps *)
(* ===================================================================== *)

(** *** What [update] writes *)

Section UpdateProperties.
Variables (C : Externals) (H : Host).

(** X1. [update] stores [currentAppVersion] under the app-version key
    and no migration takes it back: when [update] is over, whether all
    steps resolved or one failed and the settings were reset, the stored
    app version is [currentAppVersion]. (The app-version key is taken to
    be none of the keys the steps write or remove.) *)
Theorem X1_update_stores_the_app_version runInfo w :
  outOfReach C H (APP_VERSION_KEY C) →
  browser (worldOf (snd (update C H runInfo w))) !! APP_VERSION_KEY C
  = Some (Str (currentAppVersion runInfo)).
Proof.
  intros Hreach. unfold update, updateWith.
  destruct (bookkeeping C H runInfo w) as [[] w0|e w0] eqn:Hw0.
  - rewrite runMigrationsWith_keeps.
    + revert Hw0. unfold bookkeeping, bind.
      destruct (clientId runInfo) as [id|]; [destruct (truthy (Some (Str id)))|];
        simpl; intros [= <-]; simpl; apply lookup_insert_eq.
    + apply Hreach.
    + intros v act Hact. by eapply keeps_schemaMigrationMap.
  - destruct (bookkeeping_resolves C H runInfo w) as [w1 Hw1]. congruence.
Qed.

(** X2. When the current schema version is not above the previous one,
    [update] runs no step and writes three keys, nothing else: the
    client id (the one of the run when it is a non-empty string, a
    generated one otherwise), the schema version and the app version.
    The other keys, the other storages and the log are as before. *)
Theorem X2_update_with_nothing_to_migrate runInfo w :
  currentSchemaVersion runInfo ≤ previousSchemaVersion runInfo →
  update C H runInfo w
  = ([], Ok tt (withBrowser
       (λ entries,
          <[APP_VERSION_KEY C := Str (currentAppVersion runInfo)]>
            (<[SCHEMA_VERSION_KEY C := Num (currentSchemaVersion runInfo)]>
               (<[CLIENT_ID_KEY C := Str (storedClientId H runInfo)]> entries))) w)).
Proof.
  intros Hle. unfold update, updateWith, runMigrationsWith, tryMigrations.
  replace (Z.to_nat (currentSchemaVersion runInfo - previousSchemaVersion runInfo))
    with O by lia.
  unfold bookkeeping, bind, storedClientId.
  destruct (clientId runInfo) as [id|]; simpl; [|done].
  by destruct (String.eqb id EmptyString).
Qed.

End UpdateProperties.

(** *** Runs of the runner, composed *)

Section RunnerComposition.
Variables (C : Externals) (H : Host) (migrationMap : Z → option (M unit)).

Lemma migrationLoop_resolved_prefix cur prev prev' k : ∀ schema w j wv,
  schema + Z.of_nat k ≤ cur →
  migrationLoop C migrationMap (schema + Z.of_nat k) prev k schema w = (j, Ok tt wv) →
  migrationLoop C migrationMap cur prev' (Z.to_nat (cur - schema)) schema w
  = (let '(j', r) :=
       migrationLoop C migrationMap cur prev'
         (Z.to_nat (cur - (schema + Z.of_nat k))) (schema + Z.of_nat k) wv in
     (j ++ j', r)).
Proof.
  induction k as [|k IH]; intros schema w j wv Hle Hrun.
  - simpl in Hrun. injection Hrun as <- <-.
    replace (schema + Z.of_nat 0) with schema by lia.
    by destruct (migrationLoop _ _ _ _ _ _ _).
  - assert ((schema <? schema + Z.of_nat (S k)) = true) as Hlt by (apply Z.ltb_lt; lia).
    cbn [migrationLoop] in Hrun. rewrite Hlt in Hrun.
    replace (Z.to_nat (cur - schema)) with (S (Z.to_nat (cur - (schema + 1)))) by lia.
    cbn [migrationLoop].
    assert ((schema <? cur) = true) as -> by (apply Z.ltb_lt; lia).
    destruct (migrationMap schema) as [act|]; [|done].
    destruct (runSchemaMigration C act schema (schema + 1) w) as [[] w1|e w1]; [|done].
    replace (schema + Z.of_nat (S k)) with (schema + 1 + Z.of_nat k) in * by lia.
    destruct (migrationLoop C migrationMap (schema + 1 + Z.of_nat k) prev k (schema + 1) w1)
      as [j1 r1] eqn:Hrest.
    injection Hrun as <- ->.
    assert (schema + 1 + Z.of_nat k ≤ cur) as Hle' by lia.
    rewrite (IH _ _ _ _ Hle' Hrest).
    by destruct (migrationLoop C migrationMap cur prev' _ _ wv) as [j' r'].
Qed.

Lemma tryMigrations_resolved_prefix cur prev v w j wv :
  prev ≤ v ≤ cur →
  tryMigrations C migrationMap v prev w = (j, Ok tt wv) →
  tryMigrations C migrationMap cur prev w
  = (let '(j', r) := migrationLoop C migrationMap cur prev (Z.to_nat (cur - v)) v wv in
     (j ++ j', r)).
Proof.
  intros Hv Hrun. unfold tryMigrations in *.
  replace v with (prev + Z.of_nat (Z.to_nat (v - prev))) in Hrun at 1 by lia.
  assert (prev + Z.of_nat (Z.to_nat (v - prev)) ≤ cur) as Hle by lia.
  rewrite (migrationLoop_resolved_prefix cur prev prev _ _ _ _ _ Hle Hrun).
  by replace (prev + Z.of_nat (Z.to_nat (v - prev))) with v by lia.
Qed.

Lemma migrationLoop_prev cur prev prev' n : ∀ schema w j w',
  migrationLoop C migrationMap cur prev n schema w = (j, Ok tt w') →
  migrationLoop C migrationMap cur prev' n schema w = (j, Ok tt w').
Proof.
  induction n as [|n IH]; intros schema w j w' Hrun; simpl in *; [done|].
  destruct (schema <? cur); [|done].
  destruct (migrationMap schema) as [act|]; [|done].
  destruct (runSchemaMigration C act schema (schema + 1) w) as [[] w1|e w1]; [|done].
  destruct (migrationLoop C migrationMap cur prev n (schema + 1) w1) as [j1 r1] eqn:Hrest.
  injection Hrun as <- ->. by rewrite (IH _ _ _ _ Hrest).
Qed.

Lemma resolvedSteps_app prev v cur :
  prev ≤ v ≤ cur →
  resolvedSteps prev (v - prev) ++ resolvedSteps v (cur - v)
  = resolvedSteps prev (cur - prev).
Proof.
  intros Hv. unfold resolvedSteps.
  replace (cur - prev) with ((v - prev) + (cur - v)) by lia.
  rewrite seqZ_app by lia. rewrite fmap_app.
  by replace (prev + (v - prev)) with v by lia.
Qed.

(** A run that ended with every version of its span in the journal,
    each resolved, did not go through the [catch] block. *)
Lemma runMigrationsWith_all_resolved cur prev w w' :
  prev ≤ cur →
  runMigrationsWith C migrationMap cur prev w
  = (resolvedSteps prev (cur - prev), Ok tt w') →
  tryMigrations C migrationMap cur prev w = (resolvedSteps prev (cur - prev), Ok tt w').
Proof.
  intros Hle Hrun. unfold runMigrationsWith in Hrun.
  destruct (tryMigrations C migrationMap cur prev w) as [j r] eqn:Htry.
  destruct r as [[] w1|e w1]; [congruence|].
  injection Hrun as -> _.
  apply tryMigrations_spec in Htry as (k & Hk & _ & Hlt & Hcase); [|done].
  exfalso. destruct Hcase as [(_ & _ & Hj)|(e0 & _ & _ & Hj)].
  - apply (f_equal length) in Hj. unfold resolvedSteps in Hj.
    rewrite !length_fmap, !length_seqZ in Hj. lia.
  - assert (last (resolvedSteps prev (cur - prev)) = Some (prev + k, false)) as Hlast.
    { rewrite Hj. apply last_snoc. }
    unfold resolvedSteps in Hlast. rewrite fmap_last in Hlast.
    destruct (last (seqZ prev (cur - prev))); simpl in Hlast; congruence.
Qed.

(** X3. Migrating in two hops is migrating in one. When the run from
    [prev] to [v] went through all its versions, each step resolving,
    and the run from [v] to [cur] did so too on the state the first one
    left, then the run from [prev] to [cur] goes through all its
    versions, each step resolving, and ends in that same state. *)
Theorem X3_migrations_in_two_hops cur prev v w wv w' :
  prev ≤ v ≤ cur →
  runMigrationsWith C migrationMap v prev w = (resolvedSteps prev (v - prev), Ok tt wv) →
  runMigrationsWith C migrationMap cur v wv = (resolvedSteps v (cur - v), Ok tt w') →
  runMigrationsWith C migrationMap cur prev w
  = (resolvedSteps prev (cur - prev), Ok tt w').
Proof.
  intros Hv Hfirst Hsecond.
  apply runMigrationsWith_all_resolved in Hfirst; [|lia].
  apply runMigrationsWith_all_resolved in Hsecond; [|lia].
  unfold runMigrationsWith.
  rewrite (tryMigrations_resolved_prefix cur prev v w _ wv Hv Hfirst).
  unfold tryMigrations in Hsecond.
  rewrite (migrationLoop_prev cur v prev _ _ _ _ _ Hsecond).
  by rewrite resolvedSteps_app.
Qed.

(** X4. When the steps before version [v] resolved and the step of [v]
    rejects with [e], the run from [prev] to [cur] stops there and
    resolves. Its journal ends with the rejected version. The log of the
    state the step left gains three lines: the error of
    [runSchemaMigration], which names [v] and [v + 1]; the error of
    [runMigrations], made of the wrapped error, whose cause is [e]; the
    notice of the reset. The settings record is overwritten with the
    default settings, and nothing else changes. *)
Theorem X4_rejected_step_is_logged_and_settings_reset cur prev v act w wv e w1 :
  prev ≤ v < cur →
  runMigrationsWith C migrationMap v prev w = (resolvedSteps prev (v - prev), Ok tt wv) →
  migrationMap v = Some act →
  act wv = Throw e w1 →
  let wrapped := Error (errMessage C v (v + 1) e) (Some e) in
  runMigrationsWith C migrationMap cur prev w
  = (resolvedSteps prev (v - prev) ++ [(v, false)],
     Ok tt (mkWorld
              (<[ADGUARD_SETTINGS_KEY C := Obj (defaultSettings C)]> (browser w1))
              (hybrid w1) (localStorage w1)
              (logs w1 ++ [ (LError, errMessage C v (v + 1) e);
                            (LError, "Error while migrate: " +:+ getErrorMessage C wrapped);
                            (LInfo, "Reset settings...") ]))).
Proof.
  intros Hv Hfirst Hact Hthrow wrapped.
  apply runMigrationsWith_all_resolved in Hfirst; [|lia].
  unfold runMigrationsWith.
  assert (prev ≤ v ≤ cur) as Hv' by lia.
  rewrite (tryMigrations_resolved_prefix cur prev v w _ wv Hv' Hfirst).
  replace (Z.to_nat (cur - v)) with (S (Z.to_nat (cur - (v + 1)))) by lia.
  simpl.
  assert ((v <? cur) = true) as -> by (apply Z.ltb_lt; lia).
  rewrite Hact. unfold runSchemaMigration, tryCatch. rewrite Hthrow. simpl.
  unfold resetSettings, bind, logger, browserStorage_set, withBrowser. simpl.
  do 3 f_equal. by rewrite <- !app_assoc.
Qed.

End RunnerComposition.

(** *** Migration from schema v3 to schema v4: what ends up where *)

Section HybridStorage.
Variables (C : Externals) (H : Host).

Lemma lookup_setAll (data : list (string * string)) : ∀ (m : gmap string string) k,
  NoDup (keys data) →
  setAll data m !! k = match get k data with Some v => Some v | None => m !! k end.
Proof.
  unfold setAll.
  induction data as [|[k' v'] data IH]; intros m k Hnd; simpl; [done|].
  apply NoDup_cons in Hnd as [Hni Hnd]. rewrite IH by done.
  destruct (String.eqb k k') eqn:E.
  - apply String.eqb_eq in E as ->.
    apply get_None_not_key in Hni. simpl in Hni. rewrite Hni. apply lookup_insert_eq.
  - apply String.eqb_neq in E. destruct (get k data); [done|].
    by apply lookup_insert_ne.
Qed.

Lemma NoDup_stageFilter entries acc key :
  NoDup (keys acc.1) → NoDup (keys (stageFilter C entries acc key).1).
Proof.
  destruct acc as [staged diag]. simpl. intros Hnd. unfold stageFilter.
  destruct (FiltersStorage_extractFilterIdFromFilterKey C key); [|done].
  destruct (entries !! key ≫= filterSchema); [|done].
  simpl. by apply NoDup_keys_assign.
Qed.

Lemma NoDup_stageRawFilter entries acc key :
  NoDup (keys acc.1) → NoDup (keys (stageRawFilter C entries acc key).1).
Proof.
  destruct acc as [staged diag]. simpl. intros Hnd. unfold stageRawFilter.
  destruct (RawFiltersStorage_extractFilterIdFromFilterKey C key); [|done].
  destruct (isString (entries !! key)); [|done].
  simpl. by apply NoDup_keys_set.
Qed.

Lemma NoDup_fold_stage
  (stage : migrationData * diagnostics → string → migrationData * diagnostics) :
  (∀ acc key, NoDup (keys acc.1) → NoDup (keys (stage acc key).1)) →
  ∀ ks acc, NoDup (keys acc.1) → NoDup (keys (fold_left stage ks acc).1).
Proof.
  intros Hstage ks. induction ks as [|k ks IH]; intros acc Hnd; simpl; [done|].
  by apply IH, Hstage.
Qed.

Lemma NoDup_stageAll entries : NoDup (keys (stageAll C entries).1).
Proof.
  unfold stageAll.
  apply NoDup_fold_stage; [apply NoDup_stageRawFilter|].
  apply NoDup_fold_stage; [apply NoDup_stageFilter|].
  apply NoDup_nil_2.
Qed.

(** Once a raw filter is staged under its key, the rest of the loop
    leaves it there. *)
Lemma stageRawFilter_keeps_staged entries key text ks : ∀ acc,
  entries !! key = Some (Str text) →
  get key acc.1 = Some text →
  get key (fold_left (stageRawFilter C entries) ks acc).1 = Some text.
Proof.
  induction ks as [|k ks IH]; intros [staged diag] Hval Hget; simpl in *; [done|].
  apply IH; [done|]. unfold stageRawFilter.
  destruct (RawFiltersStorage_extractFilterIdFromFilterKey C k); [|done].
  destruct (isString (entries !! k)) as [data|] eqn:Hk; [|done].
  simpl. destruct (decide (k = key)) as [->|Hne].
  - rewrite Hval in Hk. injection Hk as <-. apply get_set_eq.
  - by rewrite get_set_ne.
Qed.

Lemma stageRawFilter_stages entries key filterId text ks : ∀ acc,
  RawFiltersStorage_extractFilterIdFromFilterKey C key = Some filterId →
  entries !! key = Some (Str text) →
  key ∈ ks →
  get key (fold_left (stageRawFilter C entries) ks acc).1 = Some text.
Proof.
  induction ks as [|k ks IH]; intros [staged diag] Hid Hval Hin; simpl.
  - by apply elem_of_nil in Hin.
  - destruct (decide (k = key)) as [->|Hne].
    + apply stageRawFilter_keeps_staged; [done|].
      unfold stageRawFilter. rewrite Hid, Hval. simpl. apply get_set_eq.
    + apply elem_of_cons in Hin as [->|Hin]; [done|]. by apply IH.
Qed.

Lemma elem_of_keysOf prefix (entries : gmap string value) key :
  key ∈ List.filter (String.prefix prefix) (map fst (map_to_list entries))
  ↔ is_Some (entries !! key) ∧ String.prefix prefix key = true.
Proof.
  rewrite list_elem_of_In, filter_In, <- list_elem_of_In.
  rewrite map_fmap, list_elem_of_fmap. split.
  - intros [([k v] & -> & Hin%elem_of_map_to_list) Hp]. simpl in *. by split; [eexists|].
  - intros [[v Hv] Hp]. split; [|done]. exists (key, v). split; [done|].
    by apply elem_of_map_to_list.
Qed.

Lemma keysOf_nil prefix (entries : gmap string value) :
  (∀ key, String.prefix prefix key = true → entries !! key = None) →
  List.filter (String.prefix prefix) (map fst (map_to_list entries)) = [].
Proof.
  intros Hnone.
  destruct (List.filter _ _) as [|key ks] eqn:Hks; [done|].
  assert (key ∈ List.filter (String.prefix prefix) (map fst (map_to_list entries)))
    as [[v Hv] Hp]%elem_of_keysOf by (rewrite Hks; left).
  rewrite Hnone in Hv; done.
Qed.

(** X5. A raw filter whose id can be read from its key and whose value
    is a string is copied verbatim by the v3 to v4 step: when the
    transaction is committed, the hybrid storage holds that string under
    that key when the step is over, and the key is gone from the
    browser storage. *)
Theorem X5_raw_filter_is_copied_verbatim w key filterId text :
  hybridCommits H (stageAll C (browser w)).1 = true →
  String.prefix (RAW_FILTER_KEY_PREFIX C) key = true →
  RawFiltersStorage_extractFilterIdFromFilterKey C key = Some filterId →
  browser w !! key = Some (Str text) →
  hybrid (worldOf (migrateFromV3toV4 C H w)) !! key = Some text
  ∧ browser (worldOf (migrateFromV3toV4 C H w)) !! key = None.
Proof.
  intros Hcommit Hprefix Hid Hval.
  assert (key ∈ rawFilterKeysOf C (browser w)) as Hin.
  { apply elem_of_keysOf. by split; [eexists|]. }
  assert (hasLegacyFilters C w) as Hlegacy.
  { left. intros Hnil. rewrite Hnil in Hin. by apply elem_of_nil in Hin. }
  rewrite migrateFromV3toV4_committed by done. split.
  - rewrite migrateFiltersVersion_hybrid. simpl.
    rewrite lookup_setAll by apply NoDup_stageAll.
    unfold stageAll. by erewrite stageRawFilter_stages.
  - apply migrateFiltersVersion_absent. simpl.
    apply lookup_removeAll_elem. unfold legacyKeys. apply elem_of_app. by left.
Qed.

Lemma hasLegacyFilters_or_not w :
  hasLegacyFilters C w
  ∨ (rawFilterKeysOf C (browser w) = [] ∧ filterKeysOf C (browser w) = []).
Proof.
  unfold hasLegacyFilters.
  destruct (rawFilterKeysOf C (browser w)); [|by left; left].
  destruct (filterKeysOf C (browser w)); [by right | by left; right].
Qed.

(** What the step leaves in the browser storage under a key with one of
    the two prefixes, when it resolves: nothing. *)
Lemma migrateFromV3toV4_removes_prefixed w w' prefix key :
  prefix = RAW_FILTER_KEY_PREFIX C ∨ prefix = FILTER_KEY_PREFIX C →
  String.prefix prefix (ADGUARD_SETTINGS_KEY C) = false →
  String.prefix prefix key = true →
  migrateFromV3toV4 C H w = Ok tt w' →
  browser w' !! key = None.
Proof.
  intros Hwhich Hsettings Hp Hrun.
  assert (is_Some (browser w !! key) → key ∈ legacyKeys C w) as Hlegacy.
  { intros Hv. unfold legacyKeys. apply elem_of_app.
    destruct Hwhich as [-> | ->]; [left | right]; by apply elem_of_keysOf. }
  destruct (hasLegacyFilters_or_not w) as [Hhas|[Hraws Hfilters]].
  - destruct (hybridCommits H (stageAll C (browser w)).1) eqn:Hcommit.
    + rewrite migrateFromV3toV4_committed in Hrun by done.
      assert (key ≠ ADGUARD_SETTINGS_KEY C) as Hne by (intros ->; congruence).
      pose proof (keeps_migrateFiltersVersionV3toV4 C key Hne (afterConsolidation C w))
        as Hkeeps.
      rewrite Hrun in Hkeeps. simpl in Hkeeps. rewrite Hkeeps.
      destruct (decide (key ∈ legacyKeys C w)) as [Hin|Hni].
      * by apply lookup_removeAll_elem.
      * rewrite lookup_removeAll_other by done.
        destruct (browser w !! key) eqn:Hv; [|done]. destruct Hni. by apply Hlegacy.
    + by rewrite migrateFromV3toV4_refused in Hrun.
  - rewrite migrateFromV3toV4_without_legacy_filters in Hrun by done.
    injection Hrun as <-. simpl.
    destruct (browser w !! key) eqn:Hv; [|done].
    assert (key ∈ legacyKeys C w) as Hin by (by apply Hlegacy).
    unfold legacyKeys in Hin. rewrite Hraws, Hfilters in Hin. by apply elem_of_nil in Hin.
Qed.

(** X6. The v3 to v4 step can be run again. In the state a resolved run
    left no key carries one of the two filter prefixes, so a second run
    takes the early return: it resolves, adds one line to the log and
    changes no storage. (The settings key is taken to carry neither
    prefix.) *)
Theorem X6_migrateFromV3toV4_second_run_finds_nothing w w' :
  String.prefix (RAW_FILTER_KEY_PREFIX C) (ADGUARD_SETTINGS_KEY C) = false →
  String.prefix (FILTER_KEY_PREFIX C) (ADGUARD_SETTINGS_KEY C) = false →
  migrateFromV3toV4 C H w = Ok tt w' →
  migrateFromV3toV4 C H w'
  = Ok tt (mkWorld (browser w') (hybrid w') (localStorage w')
             (logs w' ++ [(LDebug, "No filters to migrate from storage to hybrid storage")])).
Proof.
  intros Hraw Hfilter Hrun.
  apply migrateFromV3toV4_without_legacy_filters; apply keysOf_nil; intros key Hp.
  - by apply (migrateFromV3toV4_removes_prefixed w w' (RAW_FILTER_KEY_PREFIX C)); [left|..].
  - by apply (migrateFromV3toV4_removes_prefixed w w' (FILTER_KEY_PREFIX C)); [right|..].
Qed.

(** X7. The consolidation is not rolled back when the second half of
    the v3 to v4 step gives up. On a store with legacy filters whose
    transaction is committed: when the settings record is missing or is
    no object, the step throws a validation error; when the per-filter
    version field is a string that cannot be JSON, being blank or
    starting with a character no JSON text starts with, it throws the
    syntax error of [JSON.parse]; when the field is missing or is no
    string,
    it resolves with one more line in the log. In the three cases the
    storages are those the consolidation left, the filters in the hybrid
    storage and the legacy keys removed. *)
Theorem X7_migrateFromV3toV4_is_not_rolled_back w :
  hasLegacyFilters C w →
  hybridCommits H (stageAll C (browser w)).1 = true →
  String.prefix (RAW_FILTER_KEY_PREFIX C) (ADGUARD_SETTINGS_KEY C) = false →
  String.prefix (FILTER_KEY_PREFIX C) (ADGUARD_SETTINGS_KEY C) = false →
  let w1 := afterConsolidation C w in
  match recordOfUnknown (browser w !! ADGUARD_SETTINGS_KEY C) with
  | None => migrateFromV3toV4 C H w = Throw ZodError w1
  | Some settings =>
      match get (SettingOption_FiltersVersion C) settings with
      | Some (Str raw) =>
          cannotBeJSON raw = true → migrateFromV3toV4 C H w = Throw SyntaxError w1
      | _ =>
          migrateFromV3toV4 C H w
          = Ok tt (mkWorld (browser w1) (hybrid w1) (localStorage w1)
                     (logs w1 ++ [(LDebug,
                        "Filters version data is not a string, skipping migration")]))
      end
  end.
Proof.
  intros Hlegacy Hcommit Hraw Hfilter w1.
  rewrite migrateFromV3toV4_committed by done. fold w1.
  assert (browser w1 !! ADGUARD_SETTINGS_KEY C = browser w !! ADGUARD_SETTINGS_KEY C)
    as Hsame.
  { simpl. apply lookup_removeAll_other, not_elem_of_app.
    split; by apply not_elem_of_filter_prefix. }
  unfold migrateFiltersVersionV3toV4, bind, browserStorage_get. rewrite Hsame.
  destruct (recordOfUnknown (browser w !! ADGUARD_SETTINGS_KEY C)) as [settings|];
    [|done].
  simpl. destruct (get (SettingOption_FiltersVersion C) settings) as [[]|]; try done.
  intros Hparse%cannotBeJSON_parse. unfold JSON_parse. by rewrite Hparse.
Qed.

End HybridStorage.

(** *** Migration from schema v3 to schema v4: the backfill *)

Section Backfill.

Lemma backfillScheduledCheck_twice filterData :
  backfillScheduledCheck (backfillScheduledCheck filterData)
  = backfillScheduledCheck filterData.
Proof.
  destruct filterData as [| | | | |ps]; try done. simpl.
  destruct (get "lastScheduledCheckTime" ps) as [s|] eqn:Hs.
  { simpl. by rewrite Hs. }
  destruct (get "lastCheckTime" ps) as [t|] eqn:Ht.
  - simpl. by rewrite get_set_eq.
  - simpl. by rewrite Hs, Ht.
Qed.

(** X8. The backfill of the scheduled-check times is idempotent; it
    keeps the filters and their order; and in a filter it changes the
    scheduled-check time at most, which becomes the check time when it
    was missing and stays what it was otherwise. *)
Theorem X8_backfill_is_idempotent_and_keeps_the_rest filtersVersion :
  backfillAll (backfillAll filtersVersion) = backfillAll filtersVersion
  ∧ keys (backfillAll filtersVersion) = keys filtersVersion
  ∧ ∀ i id ps, filtersVersion !! i = Some (id, Obj ps) →
      ∃ ps', backfillAll filtersVersion !! i = Some (id, Obj ps')
        ∧ get "lastScheduledCheckTime" ps'
          = match get "lastScheduledCheckTime" ps with
            | Some s => Some s
            | None => get "lastCheckTime" ps
            end
        ∧ ∀ k, k ≠ "lastScheduledCheckTime" → get k ps' = get k ps.
Proof.
  split; [|split].
  - unfold backfillAll. rewrite map_map. apply map_ext. intros [id fd]. simpl.
    by rewrite backfillScheduledCheck_twice.
  - unfold backfillAll, keys. rewrite map_map. by apply map_ext.
  - intros i id ps Hi. unfold backfillAll.
    rewrite map_fmap, list_lookup_fmap, Hi. simpl.
    destruct (get "lastScheduledCheckTime" ps) as [s|] eqn:Hs.
    { exists ps. by rewrite Hs. }
    destruct (get "lastCheckTime" ps) as [t|] eqn:Ht.
    + eexists. split; [reflexivity|]. split; [apply get_set_eq|].
      intros k Hk. by apply get_set_ne.
    + exists ps. by rewrite Hs.
Qed.

End Backfill.

(** *** Migration from schema v2 to schema v3: the user rules *)

Section UserRules.
Variables (C : Externals) (H : Host).

Lemma setEach_run lists : ∀ w,
  ∃ w', setEach lists w = Ok tt w'
    ∧ hybrid w' = hybrid w ∧ localStorage w' = localStorage w ∧ logs w' = logs w
    ∧ ∀ key, browser w' !! key
        = match get key (reverse lists) with
          | Some val => Some (Arr (Str <$> splitLines val))
          | None => browser w !! key
          end.
Proof.
  induction lists as [|[k v] lists IH]; intros w; simpl.
  - by exists w.
  - unfold bind. simpl.
    destruct (IH (withBrowser (insert k (Arr (map Str (splitLines v)))) w))
      as (w' & -> & Hh & Hl & Hlogs & Hb).
    exists w'. split; [done|]. split; [done|]. split; [done|]. split; [done|].
    intros key. rewrite Hb, reverse_cons, get_snoc. simpl.
    destruct (get key (reverse lists)); [done|].
    destruct (String.eqb key k) eqn:E.
    + apply String.eqb_eq in E as ->. rewrite lookup_insert_eq. by rewrite map_fmap.
    + apply String.eqb_neq in E. by rewrite lookup_insert_ne.
Qed.


End UserRules.

(** *** Objects, records and arrays that went through a validator *)

(** Membership in a list that is written out. *)
Ltac in_list := solve [repeat first [left | right]].

Section ShapeLemmas.

Lemma faithful_optional_boolean : faithful (Zod.optional Zod.boolean).
Proof. intros [[]|] y; simpl; intros [= <-]; done. Qed.

Lemma faithful_optional_timeUpdated :
  faithful (Zod.optional (Zod.or Zod.number Zod.string_)).
Proof. intros [[]|] y; simpl; intros [= <-]; done. Qed.

Lemma get_assign_nil {A} k (ps : list (string * A)) :
  NoDup (keys ps) → get k (assign [] ps) = get k ps.
Proof. intros Hnd. by rewrite assign_nil. Qed.

(** [zod.record(s)] on an object without repeated keys: the keys stay,
    in their order, each value parsed by [s]; a key [__proto__] is left
    out. *)
Lemma recordEntries_Forall2 (s : Zod.schema) data : ∀ acc out,
  NoDup (keys data) →
  (∀ k, k ∈ keys data → get k acc = None) →
  Zod.recordEntries Some s data acc = Some out →
  ∃ parsed, out = acc ++ parsed
    ∧ Forall2 (λ p q, p.1 = q.1 ∧ s p.2 = Some q.2) (Zod.withoutProto data) parsed.
Proof.
  induction data as [|[k v] data IH]; intros acc out Hnd Hfresh Hrec; simpl in Hrec.
  - injection Hrec as <-. exists []. by rewrite app_nil_r.
  - destruct (s v) as [v'|] eqn:Hv; [|done].
    apply NoDup_cons in Hnd as [Hni Hnd].
    unfold Zod.withoutProto. cbn [List.filter fst].
    destruct (Zod.settable k) eqn:Hk.
    + rewrite set_fresh in Hrec by (apply Hfresh; left).
      apply IH in Hrec as (parsed & -> & Hall); [|done|].
      * exists ((k, v') :: parsed). split; [by rewrite <- app_assoc|].
        constructor; [done | done].
      * intros k' Hk'. rewrite get_snoc, Hfresh by (by right).
        rewrite eqb_false_of_ne; [done|]. intros ->. done.
    + apply IH in Hrec as (parsed & -> & Hall); [|done|].
      * by exists parsed.
      * intros k' Hk'. apply Hfresh. by right.
Qed.

Lemma record_Forall2 (s : Zod.schema) data v' :
  NoDup (keys data) →
  Zod.record s (Obj data) = Some v' →
  ∃ parsed, v' = Obj parsed
    ∧ Forall2 (λ p q, p.1 = q.1 ∧ s p.2 = Some q.2) (Zod.withoutProto data) parsed.
Proof.
  intros Hnd Hrec. unfold Zod.record, Zod.recordWith in Hrec.
  destruct (Zod.recordEntries Some s data []) as [out|] eqn:Hout; [|done].
  injection Hrec as <-.
  apply recordEntries_Forall2 in Hout as (parsed & -> & Hall); [|done|done].
  by exists parsed.
Qed.

Lemma array_Forall2 (s : Zod.schema) xs v' :
  Zod.array s (Arr xs) = Some v' →
  ∃ ys, v' = Arr ys ∧ Forall2 (λ x y, s x = Some y) xs ys.
Proof.
  simpl. destruct (mapM s xs) as [ys|] eqn:Hys; [|done].
  intros [= <-]. exists ys. split; [done|]. by apply mapM_Some.
Qed.

End ShapeLemmas.

(** *** Migration from schema v2 to schema v3: the custom filters *)

Section Transformers.
Variable C : Externals.

Lemma del_app {A} k (ps qs : list (string * A)) :
  del k (ps ++ qs) = del k ps ++ del k qs.
Proof.
  induction ps as [|[k' v'] ps IH]; simpl; [done|].
  destruct (String.eqb k k'); [done|]. simpl. by f_equal.
Qed.

Lemma extraKeys_single_del k f (data : props) :
  Zod.extraKeys [(k, f)] data = del k data.
Proof.
  unfold Zod.extraKeys. induction data as [|[k' v'] data IH]; [done|].
  cbn [List.filter fst map existsb del]. rewrite orb_false_r, (String.eqb_sym k' k).
  destruct (String.eqb k k'); simpl; [done | by f_equal].
Qed.

Lemma Forall_del {A} (P : string * A → Prop) k (ps : list (string * A)) :
  Forall P ps → Forall P (del k ps).
Proof.
  induction 1 as [|[k' v'] ps Hp Hps IH]; simpl; [done|].
  destruct (String.eqb k k'); [done | by constructor].
Qed.

Lemma Forall_withoutProto {A} (P : string * A → Prop) (ps : list (string * A)) :
  Forall P ps → Forall P (Zod.withoutProto ps).
Proof.
  rewrite !Forall_forall. intros Hall p Hp. apply Hall.
  unfold Zod.withoutProto in Hp. apply list_elem_of_In, filter_In in Hp as [Hp _].
  by apply list_elem_of_In.
Qed.

Lemma keptFields_spec data :
  NoDup (keys data) →
  NoDup (keys (keptFields data))
  ∧ get "trusted" (keptFields data) = None
  ∧ Zod.withoutProto (keptFields data) = keptFields data
  ∧ ∀ k, get k (keptFields data)
         = if Zod.settable k && negb (String.eqb k "trusted") then get k data else None.
Proof.
  intros Hnd. unfold keptFields. split; [by apply NoDup_withoutProto, NoDup_keys_del|].
  split; [by rewrite get_withoutProto, get_del_eq|].
  split; [apply withoutProto_settable, settable_withoutProto|].
  intros k. rewrite get_withoutProto. destruct (Zod.settable k); [|done]. simpl.
  destruct (String.eqb k "trusted") eqn:E.
  - apply String.eqb_eq in E as ->. apply get_del_eq.
  - apply String.eqb_neq in E. by rewrite get_del_ne.
Qed.

(** One custom filter as the v2 to v3 step rewrites it. *)
Lemma trusted_element data y :
  NoDup (keys data) →
  (parsed ← Zod.object [("trusted", Zod.optional Zod.boolean)] Zod.Passthrough (Obj data);
   Some (Obj (assign (assign [] (del "trusted" parsed))
                [("trusted", Bool (truthy (get "trusted" parsed)))]))) = Some y →
  y = Obj (keptFields data ++ [("trusted", Bool (truthy (get "trusted" data)))])
  ∧ (get "trusted" data = None ∨ ∃ b, get "trusted" data = Some (Bool b)).
Proof.
  intros Hnd Hy. cbn [Zod.object Zod.parseShape] in Hy.
  rewrite extraKeys_single_del in Hy. fold (keptFields data) in Hy.
  destruct (keptFields_spec data Hnd) as (Hrest & Hgone & _ & _).
  destruct (get "trusted" data) as [[|b| | | |]|] eqn:Ht; try done; simpl in Hy.
  - rewrite (del_absent "trusted" (keptFields data)), assign_nil, set_fresh in Hy
      by done.
    injection Hy as <-. split; [done|]. right. by exists b.
  - rewrite (del_absent "trusted" (keptFields data)), assign_nil, set_fresh in Hy
      by done.
    rewrite Hgone in Hy. injection Hy as <-. split; [done|]. by left.
Qed.

Lemma trusted_element_fixed data b :
  NoDup (keys data) →
  let out := keptFields data ++ [("trusted", Bool b)] in
  (parsed ← Zod.object [("trusted", Zod.optional Zod.boolean)] Zod.Passthrough (Obj out);
   Some (Obj (assign (assign [] (del "trusted" parsed))
                [("trusted", Bool (truthy (get "trusted" parsed)))]))) = Some (Obj out).
Proof.
  intros Hnd out.
  destruct (keptFields_spec data Hnd) as (Hrest & Hgone & Hidem & _).
  assert (get "trusted" out = Some (Bool b)) as Hget.
  { unfold out. by rewrite get_snoc, Hgone. }
  assert (del "trusted" out = keptFields data) as Hdel.
  { unfold out. rewrite del_app, (del_absent _ _ Hgone). simpl. apply app_nil_r. }
  cbn [Zod.object Zod.parseShape]. rewrite extraKeys_single_del, Hget, Hdel, Hidem. simpl.
  rewrite (del_absent "trusted" (keptFields data)), assign_nil, set_fresh by done.
  done.
Qed.

(** The custom filters as the v2 to v3 step rewrites them: each one
    with its [trusted] flag last. *)
Lemma customFiltersDataTransformerV2_form v v' :
  wellKeyed v →
  customFiltersDataTransformerV2 v = Some v' →
  ∃ xs ys, v = Arr xs ∧ v' = Arr ys
    ∧ Forall2 (λ x y, ∃ data, x = Obj data ∧ wellKeyed x
                 ∧ y = Obj (keptFields data
                              ++ [("trusted", Bool (truthy (get "trusted" data)))]))
        xs ys.
Proof.
  intros Hkeyed Hv. unfold customFiltersDataTransformerV2 in *.
  destruct v as [| | | |xs|]; try done.
  apply array_Forall2 in Hv as (ys & -> & Hall).
  apply wellKeyed_Arr in Hkeyed. exists xs, ys. split; [done|]. split; [done|].
  induction Hall as [|x y xs ys Hxy Hall IH]; [constructor|].
  apply Forall_cons in Hkeyed as [Hx Hxs]. constructor; [|by apply IH].
  destruct x as [| | | | |data]; try done.
  exists data. split; [done|]. split; [done|].
  apply wellKeyed_Obj in Hx as [Hnd _].
  by apply trusted_element in Hxy as [-> _].
Qed.

Lemma customFiltersDataTransformerV2_fixed xs ys :
  Forall2 (λ x y, ∃ data, x = Obj data ∧ wellKeyed x
             ∧ y = Obj (keptFields data
                          ++ [("trusted", Bool (truthy (get "trusted" data)))]))
    xs ys →
  customFiltersDataTransformerV2 (Arr ys) = Some (Arr ys).
Proof.
  intros Hform. unfold customFiltersDataTransformerV2. simpl.
  replace (mapM _ ys) with (Some ys); [done|]. symmetry. apply mapM_Some.
  induction Hform as [|x y xs ys (data & -> & Hx & ->) Hform IH]; constructor; [|done].
  apply wellKeyed_Obj in Hx as [Hnd _]. by apply trusted_element_fixed.
Qed.

Lemma customFiltersDataTransformerV2_wellKeyed v v' :
  wellKeyed v → customFiltersDataTransformerV2 v = Some v' → wellKeyed v'.
Proof.
  intros Hkeyed Hv.
  destruct (customFiltersDataTransformerV2_form v v' Hkeyed Hv)
    as (xs & ys & -> & -> & Hform).
  apply wellKeyed_Arr. clear Hkeyed Hv.
  induction Hform as [|x y xs ys (data & -> & Hx & ->) Hform IH]; constructor; [|done].
  apply wellKeyed_Obj in Hx as [Hnd Hall]. apply wellKeyed_Obj.
  destruct (keptFields_spec data Hnd) as (Hrest & Hgone & _ & _). split.
  - unfold keys. rewrite map_app. apply NoDup_app. split; [done|].
    split; [|apply NoDup_singleton].
    intros k Hk ->%list_elem_of_singleton.
    by apply (get_None_not_key "trusted" (keptFields data)).
  - apply Forall_app. split; [by apply Forall_withoutProto, Forall_del|].
    by repeat constructor.
Qed.

(** X10. The transformer of the v2 to v3 step gives every custom filter
    a boolean [trusted]: the flag it had, or [false] when it had none.
    A field [__proto__] is left out of the filter; every other field is
    kept, and the filters keep their number and order. Applied to what
    it returned, the transformer returns it unchanged. *)
Theorem X10_customFiltersDataTransformerV2_adds_the_trusted_flag v v' :
  wellKeyed v →
  customFiltersDataTransformerV2 v = Some v' →
  (∃ xs ys, v = Arr xs ∧ v' = Arr ys
     ∧ Forall2 (λ x y, ∃ data out, x = Obj data ∧ y = Obj out
                  ∧ get "trusted" out = Some (Bool (truthy (get "trusted" data)))
                  ∧ get "__proto__" out = None
                  ∧ ∀ k, k ≠ "trusted" → k ≠ "__proto__" → get k out = get k data) xs ys)
  ∧ customFiltersDataTransformerV2 v' = Some v'.
Proof.
  intros Hkeyed Hv.
  destruct (customFiltersDataTransformerV2_form v v' Hkeyed Hv)
    as (xs & ys & -> & -> & Hform).
  split; [|by eapply customFiltersDataTransformerV2_fixed].
  exists xs, ys. split; [done|]. split; [done|].
  eapply Forall2_impl; [exact Hform|]. intros x y (data & -> & Hx & ->).
  apply wellKeyed_Obj in Hx as [Hnd _].
  destruct (keptFields_spec data Hnd) as (_ & Hgone & _ & Hget).
  exists data, (keptFields data ++ [("trusted", Bool (truthy (get "trusted" data)))]).
  split; [done|]. split; [done|]. split; [|split].
  - by rewrite get_snoc, Hgone.
  - by rewrite get_snoc, Hget.
  - intros k Hk Hk'. rewrite get_snoc, Hget, settable_ne by done.
    rewrite eqb_false_of_ne by done. simpl. by destruct (get k data).
Qed.

End Transformers.

(** *** Migration from schema v1 to schema v2 *)

Section SafebrowsingCache.
Variables (C : Externals) (H : Host).

Lemma wellKeyed_sbRecordV2 rows : wellKeyed (Arr (sbRecordV2 C H <$> rows)).
Proof.
  apply wellKeyed_Arr, Forall_fmap, Forall_forall. intros [key val] _. simpl.
  destruct (negb (String.eqb val "allowlist")); simpl;
    repeat split; apply (bool_decide_unpack _); vm_compute; exact I.
Qed.

Lemma keyValueRow_sbRecordV2 row : keyValueRow Zod.Strict (sbRecordV2 C H row) = None.
Proof. by destruct row as [key val]. Qed.

(** X11. On a safebrowsing cache that is the JSON text of an array of
    records with a string [key] and a string [value] and nothing else,
    the v1 to v2 step resolves and rewrites the cache, no other key.
    The new text is JSON: an array of as many records, in the same
    order, each with the key it had and, as value, an object whose
    [list] is the old value and which expires at
    [now + CACHE_TTL_MS], unless the list is the allowlist, when it has
    no expiry. *)
Theorem X11_migrateFromV1toV2_rewrites_every_record w text parsed rows :
  browser w !! "sb-lru-cache" = Some (Str text) →
  JSON.parse text = Some parsed →
  keyValueRows Zod.Strict parsed = Some rows →
  ∃ text' records,
    migrateFromV1toV2 C H w = Ok tt (withBrowser (insert "sb-lru-cache" (Str text')) w)
    ∧ JSON.parse text' = Some (Arr records)
    ∧ length records = length rows
    ∧ ∀ i key val, rows !! i = Some (key, val) →
        ∃ record,
          records !! i = Some (Obj [("key", Str key); ("value", Obj record)])
          ∧ get "list" record = Some (Str val)
          ∧ get "expires" record
            = if String.eqb val "allowlist" then None
              else Some (Num (now H + SbCache_CACHE_TTL_MS C)).
Proof.
  intros Hcache Hparse Hrows.
  exists (JSON.stringify (Arr (sbRecordV2 C H <$> rows))), (sbRecordV2 C H <$> rows).
  split.
  { unfold migrateFromV1toV2, bind, browserStorage_get, JSON_parse.
    rewrite Hcache, Hparse. simpl. rewrite Hrows. simpl. by rewrite map_fmap. }
  split; [apply parse_stringify, wellKeyed_sbRecordV2|].
  split; [apply length_fmap|].
  intros i key val Hi. rewrite list_lookup_fmap, Hi. simpl.
  destruct (String.eqb val "allowlist"); simpl; by eexists.
Qed.

Lemma migrateFromV1toV2_on_a_migrated_cache w rows :
  rows ≠ [] →
  browser w !! "sb-lru-cache"
  = Some (Str (JSON.stringify (Arr (sbRecordV2 C H <$> rows)))) →
  migrateFromV1toV2 C H w = Throw ZodError w.
Proof.
  intros Hrows Hcache.
  unfold migrateFromV1toV2, bind, browserStorage_get, JSON_parse.
  rewrite Hcache, parse_stringify by apply wellKeyed_sbRecordV2. simpl.
  destruct rows as [|row rows]; [done|]. simpl.
  by rewrite keyValueRow_sbRecordV2.
Qed.

(** X12. The v1 to v2 step cannot be run again: on the cache a resolved
    run wrote, when it holds a record at all, the validation of the v1
    format fails, so the step throws and writes nothing. *)
Theorem X12_migrateFromV1toV2_rejects_a_migrated_cache w text parsed rows :
  browser w !! "sb-lru-cache" = Some (Str text) →
  JSON.parse text = Some parsed →
  keyValueRows Zod.Strict parsed = Some rows →
  rows ≠ [] →
  ∃ w', migrateFromV1toV2 C H w = Ok tt w'
    ∧ migrateFromV1toV2 C H w' = Throw ZodError w'.
Proof.
  intros Hcache Hparse Hrows Hsome.
  exists (withBrowser
            (insert "sb-lru-cache"
               (Str (JSON.stringify (Arr (sbRecordV2 C H <$> rows))))) w).
  split.
  - unfold migrateFromV1toV2, bind, browserStorage_get, JSON_parse.
    rewrite Hcache, Hparse. simpl. rewrite Hrows. simpl. by rewrite map_fmap.
  - apply (migrateFromV1toV2_on_a_migrated_cache _ rows Hsome).
    apply lookup_insert_eq.
Qed.

(** X13. Whether it resolves or rejects, the v1 to v2 step changes no
    storage and no key of the browser storage other than the
    safebrowsing cache, and logs nothing. When the cache is missing or
    is no string, the step resolves and changes nothing at all. *)
Theorem X13_migrateFromV1toV2_touches_the_cache_only w :
  let w' := worldOf (migrateFromV1toV2 C H w) in
  hybrid w' = hybrid w ∧ localStorage w' = localStorage w ∧ logs w' = logs w
  ∧ (∀ key, key ≠ "sb-lru-cache" → browser w' !! key = browser w !! key)
  ∧ (isString (browser w !! "sb-lru-cache") = None →
     migrateFromV1toV2 C H w = Ok tt w).
Proof.
  unfold migrateFromV1toV2, bind, browserStorage_get, JSON_parse, parseOrThrow.
  destruct (browser w !! "sb-lru-cache") as [[| | |text| |]|]; simpl; try done.
  destruct (JSON.parse text) as [parsed|]; simpl; [|done].
  destruct (keyValueRows Zod.Strict parsed) as [rows|]; simpl; [|done].
  split; [done|]. split; [done|]. split; [done|]. split; [|done].
  intros key Hkey. by apply lookup_insert_ne.
Qed.

End SafebrowsingCache.

(** *** Migration from schema v0 to schema v1: the phases of the edits *)

Section EditsV0toV1.
Variable C : Externals.

Lemma editSettingsV0toV1_phases w :
  editSettingsV0toV1 C w
  = (localStorage_removeItem "viewed-notifications" ;;
     localStorage_removeItem "viewed-notification-time" ;;
     storageData <- browserStorage_get "adguard-settings" ;;
     settings <- parseOrThrow (recordOfUnknown storageData) ;;
     settings <- reshaped C (renamed settings) ;;
     moveEach movedKeys settings) w.
Proof.
  unfold editSettingsV0toV1, reshaped, movedKeys, renamed. cbv zeta.
  unfold bind. simpl.
  destruct (recordOfUnknown (browser w !! "adguard-settings")) as [settings|]; [|done].
  simpl.
  repeat match goal with
         | |- context [reshapeField ?k ?t ?s ?w0] =>
             destruct (reshapeField k t s w0) as [? ?|? ?]; [|done]
         end.
  done.
Qed.

End EditsV0toV1.

(** *** The storages a step leaves alone *)

Section LeavesLemmas.
Context {X : Type} (proj : World → X).
Hypothesis proj_browser : ∀ f w, proj (withBrowser f w) = proj w.

Lemma leaves_ret {A} (a : A) : leaves proj (ret a).
Proof. by intros w. Qed.

Lemma leaves_throw {A} e : leaves proj (@throw A e).
Proof. by intros w. Qed.

Lemma leaves_bind {A B} (m : M A) (k : A → M B) :
  leaves proj m → (∀ a, leaves proj (k a)) → leaves proj (bind m k).
Proof.
  intros Hm Hk w. unfold bind. specialize (Hm w).
  destruct (m w) as [a w'|e w']; simpl in *; [|done].
  by rewrite Hk.
Qed.

Lemma leaves_tryCatch {A} (m : M A) handler :
  leaves proj m → (∀ e, leaves proj (handler e)) → leaves proj (tryCatch m handler).
Proof.
  intros Hm Hh w. unfold tryCatch. specialize (Hm w).
  destruct (m w) as [a w'|e w']; simpl in *; [done|].
  by rewrite Hh.
Qed.

Lemma leaves_get key : leaves proj (browserStorage_get key).
Proof. by intros w. Qed.

Lemma leaves_entries : leaves proj browserStorage_entries.
Proof. by intros w. Qed.

Lemma leaves_set key v : leaves proj (browserStorage_set key v).
Proof. intros w. apply proj_browser. Qed.

Lemma leaves_removeMultiple ks : leaves proj (browserStorage_removeMultiple ks).
Proof. intros w. apply proj_browser. Qed.

Lemma leaves_parseOrThrow {A} (r : option A) : leaves proj (parseOrThrow r).
Proof. by destruct r. Qed.

Lemma leaves_JSON_parse raw : leaves proj (JSON_parse raw).
Proof. unfold JSON_parse. by destruct (JSON.parse raw). Qed.

Lemma leaves_reserialize transformer raw : leaves proj (reserialize transformer raw).
Proof.
  unfold reserialize.
  repeat first [ apply leaves_bind; [|intros ?] | apply leaves_JSON_parse
               | apply leaves_parseOrThrow | apply leaves_ret ].
Qed.

Lemma leaves_reshapeField key transformer settings :
  leaves proj (reshapeField key transformer settings).
Proof.
  unfold reshapeField. destruct (get key settings) as [[]|]; try apply leaves_ret.
  apply leaves_bind; [apply leaves_reserialize | intros ?; apply leaves_ret].
Qed.

Lemma leaves_moveStorageData key settings : leaves proj (moveStorageData key settings).
Proof.
  unfold moveStorageData. destruct (truthy (get key settings)); [|apply leaves_ret].
  destruct (get key settings); [|apply leaves_ret].
  apply leaves_bind; [apply leaves_set | intros ?; apply leaves_ret].
Qed.

Lemma leaves_setEach lists : leaves proj (setEach lists).
Proof.
  induction lists as [|[key val] lists IH]; simpl; [apply leaves_ret|].
  apply leaves_bind; [apply leaves_set | done].
Qed.

End LeavesLemmas.

Ltac leaves_step :=
  lazymatch goal with
  | |- leaves _ (bind _ _) => apply leaves_bind; [|intros ?]
  | |- leaves _ (ret _) => apply leaves_ret
  | |- leaves _ (throw _) => apply leaves_throw
  | |- leaves _ (browserStorage_get _) => apply leaves_get
  | |- leaves _ browserStorage_entries => apply leaves_entries
  | |- leaves _ (browserStorage_set _ _) => apply leaves_set; try done
  | |- leaves _ (browserStorage_removeMultiple _) => apply leaves_removeMultiple; try done
  | |- leaves _ (parseOrThrow _) => apply leaves_parseOrThrow
  | |- leaves _ (JSON_parse _) => apply leaves_JSON_parse
  | |- leaves _ (reserialize _ _) => apply leaves_reserialize; try done
  | |- leaves _ (reshapeField _ _ _) => apply leaves_reshapeField; try done
  | |- leaves _ (moveStorageData _ _) => apply leaves_moveStorageData; try done
  | |- leaves _ (setEach _) => apply leaves_setEach; try done
  | |- leaves _ (tryCatch _ _) => apply leaves_tryCatch; [|intros ?]
  | |- leaves _ (match ?x with _ => _ end) => destruct x
  | |- leaves _ (if ?x then _ else _) => destruct x
  end.

Section Footprints.
Variables (C : Externals) (H : Host).

Lemma leaves_logger_hybrid l msg : leaves hybrid (logger l msg).
Proof. by intros w. Qed.

Lemma leaves_logger_localStorage l msg : leaves localStorage (logger l msg).
Proof. by intros w. Qed.

Lemma leaves_removeItem_hybrid key : leaves hybrid (localStorage_removeItem key).
Proof. by intros w. Qed.

Lemma leaves_removeItem_logs key : leaves logs (localStorage_removeItem key).
Proof. by intros w. Qed.

Lemma leaves_logAll_localStorage diag : leaves localStorage (logAll diag).
Proof. intros w. by rewrite logAll_run. Qed.

Lemma leaves_setMultiple_localStorage data :
  leaves localStorage (hybridStorage_setMultiple H data).
Proof. intros w. unfold hybridStorage_setMultiple. by destruct (hybridCommits H data). Qed.

Lemma leaves_settingsValidator {X} (proj : World → X) merged :
  leaves proj (settingsValidator C merged).
Proof. intros w. by rewrite settingsValidator_world. Qed.

Lemma leaves_hybrid_V0toV1 : leaves hybrid (migrateFromV0toV1 C).
Proof.
  unfold migrateFromV0toV1, editSettingsV0toV1.
  repeat first [ apply leaves_removeItem_hybrid | apply leaves_settingsValidator
               | leaves_step ].
Qed.

Lemma leaves_logs_V0toV1 : leaves logs (migrateFromV0toV1 C).
Proof.
  unfold migrateFromV0toV1, editSettingsV0toV1.
  repeat first [ apply leaves_removeItem_logs | apply leaves_settingsValidator
               | leaves_step ].
Qed.

Lemma leaves_hybrid_V1toV2 : leaves hybrid (migrateFromV1toV2 C H).
Proof. unfold migrateFromV1toV2. repeat leaves_step. Qed.

Lemma leaves_localStorage_V1toV2 : leaves localStorage (migrateFromV1toV2 C H).
Proof. unfold migrateFromV1toV2. repeat leaves_step. Qed.

Lemma leaves_hybrid_V2toV3 : leaves hybrid (migrateFromV2toV3 C H).
Proof.
  unfold migrateFromV2toV3, migrateUserRules.
  repeat first [ apply leaves_logger_hybrid | leaves_step ].
Qed.

Lemma leaves_localStorage_V2toV3 : leaves localStorage (migrateFromV2toV3 C H).
Proof.
  unfold migrateFromV2toV3, migrateUserRules.
  repeat first [ apply leaves_logger_localStorage | leaves_step ].
Qed.

Lemma leaves_localStorage_V3toV4 : leaves localStorage (migrateFromV3toV4 C H).
Proof.
  unfold migrateFromV3toV4, migrateFiltersVersionV3toV4.
  repeat first [ apply leaves_logger_localStorage | apply leaves_logAll_localStorage
               | apply leaves_setMultiple_localStorage | leaves_step ].
Qed.

Lemma localStorage_V0toV1 w :
  localStorage (worldOf (migrateFromV0toV1 C w))
  = delete "viewed-notification-time" (delete "viewed-notifications" (localStorage w)).
Proof.
  set (w0 := mkWorld (browser w) (hybrid w)
               (delete "viewed-notification-time"
                  (delete "viewed-notifications" (localStorage w))) (logs w)).
  change (localStorage (worldOf (migrateFromV0toV1 C w)) = localStorage w0).
  assert (leaves localStorage
            (storageData <- browserStorage_get "adguard-settings" ;;
             settings <- parseOrThrow (recordOfUnknown storageData) ;;
             settings <- reshaped C (renamed settings) ;;
             currentSettings <- moveEach movedKeys settings ;;
             settings <- settingsValidator C (spread2 (defaultSettings C) currentSettings) ;;
             browserStorage_set "adguard-settings" (Obj settings))) as Hrest.
  { unfold reshaped, movedKeys. cbn [moveEach].
    repeat first [ apply leaves_settingsValidator | leaves_step ]. }
  rewrite <- (Hrest w0). f_equal.
  unfold migrateFromV0toV1. unfold bind at 1. rewrite editSettingsV0toV1_phases.
  unfold bind. simpl. fold w0.
  destruct (recordOfUnknown (browser w !! "adguard-settings")) as [settings|];
    simpl; [|done].
  destruct (reshaped C (renamed settings) w0) as [settings1 w1|]; [|done].
  by destruct (moveEach movedKeys settings1 w1).
Qed.

(** X14. Of the registered steps only the last one writes to the hybrid
    storage and only the first one touches [window.localStorage]: it
    removes the two notification keys from it and nothing else, whether
    it resolves or rejects. *)
Theorem X14_only_the_last_step_writes_the_hybrid_storage schema act :
  schemaMigrationMap C H schema = Some act →
  (schema ≠ 3 → leaves hybrid act)
  ∧ (schema ≠ 0 → leaves localStorage act)
  ∧ (schema = 0 →
     ∀ w, localStorage (worldOf (act w))
          = delete "viewed-notification-time"
              (delete "viewed-notifications" (localStorage w))).
Proof.
  unfold schemaMigrationMap. intros Hact.
  destruct schema as [|[[|[]|]|[]|]|]; simplify_eq; split_and!; try done; intros _;
    auto using leaves_hybrid_V0toV1, leaves_hybrid_V1toV2, leaves_hybrid_V2toV3,
      leaves_localStorage_V1toV2, leaves_localStorage_V2toV3,
      leaves_localStorage_V3toV4, localStorage_V0toV1.
Qed.

End Footprints.

(** *** Migration from schema v0 to schema v1: one phase at a time *)

Section SettingsEdits.
Variable C : Externals.

Lemma get_deleteIfTruthy k key (settings : props) :
  k ≠ key → get k (deleteIfTruthy key settings) = get k settings.
Proof.
  intros Hne. unfold deleteIfTruthy.
  destruct (truthy (get key settings)); [|done]. apply get_del_ne. congruence.
Qed.

Lemma get_renameField_other k old new (settings : props) :
  k ≠ old → k ≠ new → get k (renameField old new settings) = get k settings.
Proof.
  intros Hold Hnew. unfold renameField. destruct (get old settings); [|done].
  rewrite get_del_ne, get_set_ne; [done | congruence | congruence].
Qed.

Lemma get_renameField_new old new (settings : props) v :
  old ≠ new → get old settings = Some v →
  get new (renameField old new settings) = Some v.
Proof.
  intros Hne Hold. unfold renameField. rewrite Hold.
  rewrite get_del_ne by done. apply get_set_eq.
Qed.

Lemma get_renameField_old old new (settings : props) :
  old ≠ new → get old (renameField old new settings) = None.
Proof.
  intros Hne. unfold renameField. destruct (get old settings) eqn:Hold; [|done].
  apply get_del_eq.
Qed.

Lemma NoDup_renamed (settings : props) : NoDup (keys settings) → NoDup (keys (renamed settings)).
Proof.
  intros Hnd. unfold renamed.
  repeat first [ apply NoDup_renameField | apply NoDup_deleteIfTruthy ]. exact Hnd.
Qed.

Lemma reshapeField_inv key transformer (settings : props) w :
  match reshapeField key transformer settings w with
  | Ok settings' w' =>
      w' = w ∧ (∀ k, k ≠ key → get k settings' = get k settings)
      ∧ (NoDup (keys settings) → NoDup (keys settings'))
  | Throw e w' =>
      w' = w ∧ ∃ raw, get key settings = Some (Str raw)
  end.
Proof.
  unfold reshapeField, reserialize, bind, JSON_parse, parseOrThrow.
  destruct (get key settings) as [[| | |raw| |]|]; try done.
  destruct (JSON.parse raw) as [parsed|]; simpl; [|by eauto].
  destruct (transformer parsed) as [data|]; simpl; [|by eauto].
  split; [done|]. split; [|apply NoDup_keys_set].
  intros k Hk. apply get_set_ne. congruence.
Qed.

Lemma reshapeField_throws key transformer (settings : props) raw w :
  get key settings = Some (Str raw) → JSON.parse raw = None →
  reshapeField key transformer settings w = Throw SyntaxError w.
Proof.
  intros Hget Hparse. unfold reshapeField, reserialize, bind, JSON_parse.
  by rewrite Hget, Hparse.
Qed.

Lemma reshaped_inv (settings : props) w :
  match reshaped C settings w with
  | Ok settings' w' =>
      w' = w ∧ (∀ k, k ∉ nestedFields → get k settings' = get k settings)
      ∧ (NoDup (keys settings) → NoDup (keys settings'))
  | Throw e w' => w' = w
  end.
Proof.
  unfold reshaped, bind.
  pose proof (reshapeField_inv "groups-state" groupsStateTransformer settings w) as H1.
  destruct (reshapeField "groups-state" _ settings w) as [s1 w1|e w1];
    [destruct H1 as (-> & Hg1 & Hn1) | by destruct H1].
  pose proof (reshapeField_inv "filters-state" filtersStateTransformer s1 w) as H2.
  destruct (reshapeField "filters-state" _ s1 w) as [s2 w2|e w2];
    [destruct H2 as (-> & Hg2 & Hn2) | by destruct H2].
  pose proof (reshapeField_inv "custom-filters" (customFiltersDataTransformerV0 C) s2 w)
    as H3.
  destruct (reshapeField "custom-filters" _ s2 w) as [s3 w3|e w3];
    [destruct H3 as (-> & Hg3 & Hn3) | by destruct H3].
  pose proof (reshapeField_inv "filters-version" filtersVersionsTransformer s3 w) as H4.
  destruct (reshapeField "filters-version" _ s3 w) as [s4 w4|e w4];
    [destruct H4 as (-> & Hg4 & Hn4) | by destruct H4].
  split; [done|]. split; [|by auto].
  intros k Hk. unfold nestedFields in Hk.
  rewrite !not_elem_of_cons in Hk. destruct Hk as (? & ? & ? & ? & _).
  by rewrite Hg4, Hg3, Hg2, Hg1.
Qed.

Lemma moveStorageData_run key (settings : props) w :
  moveStorageData key settings w
  = match get key settings with
    | Some d =>
        if truthy (Some d)
        then Ok (del key settings) (withBrowser (insert key d) w)
        else Ok settings w
    | None => Ok settings w
    end.
Proof.
  unfold moveStorageData. destruct (get key settings) as [d|]; [|done].
  by destruct (truthy (Some d)).
Qed.

Lemma bool_decide_elem_of_cons_ne (k key : string) ks :
  k ≠ key → bool_decide (k ∈ key :: ks) = bool_decide (k ∈ ks).
Proof. intros Hne. apply bool_decide_ext. rewrite elem_of_cons. tauto. Qed.

(** What a run of [moveStorageData] over distinct keys leaves in the
    settings object and in the storage. *)
Lemma moveEach_run ks : ∀ (settings : props) w,
  NoDup ks →
  ∃ settings' w',
    moveEach ks settings w = Ok settings' w'
    ∧ hybrid w' = hybrid w ∧ localStorage w' = localStorage w ∧ logs w' = logs w
    ∧ (NoDup (keys settings) → NoDup (keys settings'))
    ∧ ∀ k,
        get k settings'
        = (if bool_decide (k ∈ ks) && truthy (get k settings) then None
           else get k settings)
        ∧ browser w' !! k
          = (if bool_decide (k ∈ ks) && truthy (get k settings) then get k settings
             else browser w !! k).
Proof.
  induction ks as [|key ks IH]; intros settings w Hnd.
  - exists settings, w. simpl. by split_and!.
  - apply NoDup_cons in Hnd as [Hni Hnd]. cbn [moveEach]. unfold bind.
    rewrite moveStorageData_run.
    destruct (get key settings) as [d|] eqn:Hget; [destruct (truthy (Some d)) eqn:Ht|].
    + destruct (IH (del key settings) (withBrowser (insert key d) w) Hnd)
        as (s' & w' & -> & Hh & Hl & Hlogs & Hkeys & Hk).
      exists s', w'. split_and!; try done.
      { intros Hs. by apply Hkeys, NoDup_keys_del. }
      intros k. destruct (Hk k) as [Hs Hb].
      destruct (decide (k = key)) as [->|Hne].
      * rewrite bool_decide_eq_true_2 by left. rewrite Hget, Ht. simpl.
        rewrite bool_decide_eq_false_2 in Hs, Hb by done. simpl in Hs, Hb.
        by rewrite Hs, Hb, get_del_eq, lookup_insert_eq.
      * simpl in Hb. rewrite get_del_ne in Hs, Hb by congruence.
        rewrite lookup_insert_ne in Hb by congruence.
        by rewrite bool_decide_elem_of_cons_ne.
    + destruct (IH settings w Hnd) as (s' & w' & -> & Hh & Hl & Hlogs & Hkeys & Hk).
      exists s', w'. split_and!; try done.
      intros k. destruct (Hk k) as [Hs Hb].
      destruct (decide (k = key)) as [->|Hne].
      * rewrite bool_decide_eq_false_2 in Hs, Hb by done. simpl in Hs, Hb.
        rewrite Hget, Ht, andb_false_r. by rewrite Hs, Hb, Hget.
      * by rewrite bool_decide_elem_of_cons_ne.
    + destruct (IH settings w Hnd) as (s' & w' & -> & Hh & Hl & Hlogs & Hkeys & Hk).
      exists s', w'. split_and!; try done.
      intros k. destruct (Hk k) as [Hs Hb].
      destruct (decide (k = key)) as [->|Hne].
      * rewrite bool_decide_eq_false_2 in Hs, Hb by done. simpl in Hs, Hb.
        rewrite Hget, andb_false_r. by rewrite Hs, Hb, Hget.
      * by rewrite bool_decide_elem_of_cons_ne.
Qed.

End SettingsEdits.

(** *** Migration from schema v0 to schema v1: the settings schema *)

Section SettingsRecord.
Variable C : Externals.

(** Each declared key of the parsed data is what its own validator made
    of the property. *)
Lemma field_parseShape shape data : ∀ out,
  NoDup (map fst shape) →
  Zod.parseShape shape data = Some out →
  ∀ k f, (k, f) ∈ shape → f (get k data) = Some (get k out).
Proof.
  induction shape as [|[k0 f0] shape IH]; intros out Hnd Hparse k f Hin; simpl in *.
  - by apply elem_of_nil in Hin.
  - apply NoDup_cons in Hnd as [Hni Hnd].
    destruct (f0 (get k0 data)) as [r|] eqn:Hr; [|done].
    destruct (Zod.parseShape shape data) as [out'|] eqn:Hout; [|done].
    injection Hparse as <-.
    assert (get k0 out' = None) as Hfresh.
    { apply get_None_not_key. intros Hk0. apply Hni.
      eapply sublist_subseteq; [by eapply keys_parseShape | done]. }
    apply elem_of_cons in Hin as [[= -> ->]|Hin].
    + rewrite Hr. destruct r as [v|]; simpl; [by rewrite eqb_refl_true | by rewrite Hfresh].
    + assert (k ≠ k0) as Hne.
      { intros ->. apply Hni. apply list_elem_of_fmap. by exists (k0, f). }
      rewrite (IH out' Hnd eq_refl k f Hin).
      destruct r as [v|]; simpl; [by rewrite eqb_false_of_ne | done].
Qed.

Lemma settingsValidator_inv merged w settings w' :
  settingsValidator C merged w = Ok settings w' →
  w' = w
  ∧ ∃ theme, Zod.parseShape (settingsShape C theme) merged = Some settings.
Proof.
  intros Hrun. pose proof (settingsValidator_world C merged w) as Hw.
  rewrite Hrun in Hw. simpl in Hw. split; [done|].
  unfold settingsValidator, bind in Hrun.
  destruct (appearanceThemePreprocess (get "appearance-theme" merged) w)
    as [theme w1|]; [|done].
  exists theme. unfold parseOrThrow, Zod.object in Hrun.
  destruct (Zod.parseShape (settingsShape C theme) merged) as [out|]; [|done].
  unfold ret in Hrun. congruence.
Qed.

Lemma settingsShape_keys theme :
  map fst (settingsShape C theme) = map fst (settingsShape C None).
Proof. reflexivity. Qed.

Lemma NoDup_settingsShape theme : NoDup (map fst (settingsShape C theme)).
Proof. apply (bool_decide_unpack _). vm_compute. exact I. Qed.

Lemma booleanField_Some x r : booleanField C x = Some r → ∃ b, r = Some (Bool b).
Proof.
  unfold booleanField. destruct (SchemaPreprocessor_booleanValidator C x) as [b|]; [|done].
  intros [= <-]. by exists b.
Qed.

Lemma numberField_Some x r : numberField C x = Some r → ∃ n, r = Some (Num n).
Proof.
  unfold numberField. destruct (SchemaPreprocessor_numberValidator C x) as [n|]; [|done].
  intros [= <-]. by exists n.
Qed.

Lemma required_string_Some x r :
  Zod.required Zod.string_ x = Some r → ∃ s, r = Some (Str s) ∧ x = Some (Str s).
Proof. destruct x as [[]|]; try done. intros [= <-]. by eexists. Qed.

Lemma optional_string_Some x r :
  Zod.optional Zod.string_ x = Some r →
  r = x ∧ (x = None ∨ ∃ s, x = Some (Str s)).
Proof.
  destruct x as [[]|]; try done; intros [= <-]; (split; [done|]); [right | left];
    by eauto.
Qed.

Lemma theme_Some theme x r :
  Zod.required (Zod.enum ["system"; "dark"; "light"]) theme = Some r →
  (fun _ : option value => Zod.required (Zod.enum ["system"; "dark"; "light"]) theme) x
  = Some r →
  ∃ t, r = Some (Str t) ∧ t ∈ themes.
Proof.
  intros Hr _. destruct theme as [[| | |t| |]|]; try done.
  unfold Zod.required, Zod.enum in Hr.
  destruct (existsb (String.eqb t) ["system"; "dark"; "light"]) eqn:Hin; [|done].
  injection Hr as <-. exists t. split; [done|].
  apply existsb_exists in Hin as (t' & Hin & ->%String.eqb_eq).
  by apply list_elem_of_In.
Qed.

(** What each validator of the settings schema can return. *)
Lemma settingsShape_fields theme :
  Forall (λ d, ∀ x r, d.2 x = Some r →
            (∀ v, r = Some v → isScalar v = true)
            ∧ (d.1 ∉ optionalSettings → is_Some r))
    (settingsShape C theme).
Proof.
  unfold settingsShape, optionalSettings.
  repeat (apply Forall_cons; split;
    [ intros x r Hr; cbn [fst snd] in *;
      first
        [ apply booleanField_Some in Hr as [b ->]
        | apply numberField_Some in Hr as [n ->]
        | apply required_string_Some in Hr as (s & -> & _)
        | apply optional_string_Some in Hr as [-> [->|[s ->]]]
        | apply (theme_Some theme x r Hr) in Hr as (t & -> & _) ];
      (split;
         [ by intros v [= <-]
         | first [ by eauto | intros Hni; destruct Hni; in_list ] ])
    | ]).
  apply Forall_nil_2.
Qed.

End SettingsRecord.

(** *** Migration from schema v0 to schema v1: the step as a whole *)

Section StepV0toV1.
Variable C : Externals.

Lemma migrateFromV0toV1_phases w :
  let w0 := mkWorld (browser w) (hybrid w)
              (delete "viewed-notification-time"
                 (delete "viewed-notifications" (localStorage w))) (logs w) in
  migrateFromV0toV1 C w
  = match recordOfUnknown (browser w !! "adguard-settings") with
    | None => Throw ZodError w0
    | Some settings =>
        match reshaped C (renamed settings) w0 with
        | Throw e w' => Throw e w'
        | Ok reshaped_ w' =>
            match moveEach movedKeys reshaped_ w' with
            | Throw e w1 => Throw e w1
            | Ok moved w1 =>
                match settingsValidator C (spread2 (defaultSettings C) moved) w1 with
                | Ok settings w2 =>
                    Ok tt (withBrowser (insert "adguard-settings" (Obj settings)) w2)
                | Throw e w2 => Throw e w2
                end
            end
        end
    end.
Proof.
  intros w0. rewrite migrateFromV0toV1_unfold, editSettingsV0toV1_phases.
  cbv [bind localStorage_removeItem browserStorage_get].
  cbn [browser hybrid localStorage logs]. fold w0.
  unfold parseOrThrow, ret, throw.
  destruct (recordOfUnknown (browser w !! "adguard-settings")) as [settings|]; [|done].
  destruct (reshaped C (renamed settings) w0) as [reshaped_ w'|]; [|done].
  by destruct (moveEach movedKeys reshaped_ w') as [moved w1|].
Qed.

(** The v0 to v1 step in its phases, on a store whose settings record is
    an object without repeated keys; the step reads it without its
    [__proto__] key. *)
Lemma migrateFromV0toV1_run w stored :
  browser w !! "adguard-settings" = Some (Obj stored) →
  NoDup (keys stored) →
  let data := Zod.withoutProto stored in
  let w0 := mkWorld (browser w) (hybrid w)
              (delete "viewed-notification-time"
                 (delete "viewed-notifications" (localStorage w))) (logs w) in
  match reshaped C (renamed data) w0 with
  | Throw e _ => migrateFromV0toV1 C w = Throw e w0
  | Ok reshaped_ _ =>
      NoDup (keys reshaped_)
      ∧ (∀ k, k ∉ nestedFields → get k reshaped_ = get k (renamed data))
      ∧ ∃ moved w1,
          moveEach movedKeys reshaped_ w0 = Ok moved w1
          ∧ NoDup (keys moved)
          ∧ hybrid w1 = hybrid w0 ∧ localStorage w1 = localStorage w0
          ∧ logs w1 = logs w0
          ∧ (∀ k, get k moved
                  = (if bool_decide (k ∈ movedKeys) && truthy (get k reshaped_)
                     then None else get k reshaped_)
                  ∧ browser w1 !! k
                    = (if bool_decide (k ∈ movedKeys) && truthy (get k reshaped_)
                       then get k reshaped_ else browser w !! k))
          ∧ match settingsValidator C (spread2 (defaultSettings C) moved) w1 with
            | Ok settings _ =>
                migrateFromV0toV1 C w
                = Ok tt (withBrowser (insert "adguard-settings" (Obj settings)) w1)
            | Throw e _ => migrateFromV0toV1 C w = Throw e w1
            end
  end.
Proof.
  intros Hsettings Hnd0 data w0.
  assert (NoDup (keys data)) as Hnd by by apply NoDup_withoutProto.
  pose proof (migrateFromV0toV1_phases w) as Hstep. cbv zeta in Hstep. fold w0 in Hstep.
  rewrite Hsettings, recordOfUnknown_object in Hstep by done. fold data in Hstep.
  pose proof (reshaped_inv C (renamed data) w0) as Hre.
  destruct (reshaped C (renamed data) w0) as [reshaped_ w0'|e w0'];
    [destruct Hre as (-> & Hget & Hkeys) | by subst w0'].
  split; [by apply Hkeys, NoDup_renamed|]. split; [done|].
  destruct (moveEach_run movedKeys reshaped_ w0)
    as (moved & w1 & Hmove & Hh & Hl & Hlogs & Hmoved & Hk).
  { apply (bool_decide_unpack _). vm_compute. exact I. }
  rewrite Hmove in Hstep. exists moved, w1.
  split; [done|]. split; [by apply Hmoved, Hkeys, NoDup_renamed|].
  split; [done|]. split; [done|]. split; [done|]. split; [done|].
  pose proof (settingsValidator_world C (spread2 (defaultSettings C) moved) w1) as Hw.
  destruct (settingsValidator C (spread2 (defaultSettings C) moved) w1)
    as [settings w2|e w2]; simpl in Hw; by subst w2.
Qed.

End StepV0toV1.

(** *** Migration from schema v0 to schema v1: the record it stores *)

Section StepV0toV1Properties.
Variable C : Externals.

Lemma declared_settingsShape theme k :
  declared (settingsShape C theme) k = declared (settingsShape C None) k.
Proof. reflexivity. Qed.

Lemma declared_elem_of shape k :
  declared shape k = true ↔ ∃ f : Zod.field, (k, f) ∈ shape.
Proof.
  unfold declared. rewrite existsb_exists. split.
  - intros (k' & Hin & ->%String.eqb_eq).
    apply in_map_iff in Hin as ([k0 f] & <- & Hin). exists f. by apply list_elem_of_In.
  - intros [f Hin]. exists k. split; [|apply String.eqb_refl].
    apply in_map_iff. exists (k, f). split; [done|]. by apply list_elem_of_In.
Qed.

Lemma declared_key_of_parsed shape data out k :
  Zod.parseShape shape data = Some out → is_Some (get k out) → declared shape k = true.
Proof.
  intros Hparse [v Hv]. unfold declared. apply existsb_exists. exists k.
  split; [|apply String.eqb_refl]. apply list_elem_of_In.
  eapply sublist_subseteq; [by eapply keys_parseShape|].
  destruct (decide (k ∈ keys out)) as [|Hni]; [done|].
  apply get_None_not_key in Hni. congruence.
Qed.

(** What a resolved v0 to v1 step went through. *)
Lemma migrateFromV0toV1_resolved w w' :
  migrateFromV0toV1 C w = Ok tt w' →
  ∃ current w1 settings theme,
    editSettingsV0toV1 C w = Ok current w1
    ∧ Zod.parseShape (settingsShape C theme) (spread2 (defaultSettings C) current)
      = Some settings
    ∧ w' = withBrowser (insert "adguard-settings" (Obj settings)) w1.
Proof.
  intros Hrun. rewrite migrateFromV0toV1_unfold in Hrun.
  destruct (editSettingsV0toV1 C w) as [current w1|]; [|done].
  destruct (settingsValidator C (spread2 (defaultSettings C) current) w1)
    as [settings w2|] eqn:Hvalid; [|done].
  injection Hrun as <-.
  apply settingsValidator_inv in Hvalid as (-> & theme & Hparse).
  by exists current, w1, settings, theme.
Qed.

(** X15. When the v0 to v1 step resolves, the settings record it stored
    is a validated one: it has no key twice and no key outside the
    settings schema; it has every key of the schema, the four nested
    fields apart, which may be missing; its values are booleans,
    numbers and strings; and its theme is one of [system], [dark] and
    [light]. *)
Theorem X15_migrateFromV0toV1_stores_a_validated_record w w' :
  migrateFromV0toV1 C w = Ok tt w' →
  ∃ settings,
    browser w' !! "adguard-settings" = Some (Obj settings)
    ∧ NoDup (keys settings)
    ∧ (∀ k, is_Some (get k settings) → declared (settingsShape C None) k = true)
    ∧ (∀ k, declared (settingsShape C None) k = true → k ∉ optionalSettings →
            is_Some (get k settings))
    ∧ (∀ k v, get k settings = Some v → isScalar v = true)
    ∧ ∃ t, get "appearance-theme" settings = Some (Str t) ∧ t ∈ themes.
Proof.
  intros (current & w1 & settings & theme & _ & Hparse & ->)%migrateFromV0toV1_resolved.
  pose proof (field_parseShape _ _ _ (NoDup_settingsShape C theme) Hparse) as Hfield.
  pose proof (settingsShape_fields C theme) as Hforms.
  rewrite Forall_forall in Hforms.
  exists settings. split; [apply lookup_insert_eq|]. split.
  { eapply sublist_NoDup; [apply (NoDup_settingsShape C theme)|].
    by eapply keys_parseShape. }
  split.
  { intros k Hk. rewrite <- (declared_settingsShape theme).
    by eapply declared_key_of_parsed. }
  split.
  { intros k Hk Hopt. rewrite <- (declared_settingsShape theme) in Hk.
    apply declared_elem_of in Hk as [f Hin].
    destruct (Hforms _ Hin _ _ (Hfield k f Hin)) as [_ Hsome]. by apply Hsome. }
  split.
  { intros k v Hv.
    assert (declared (settingsShape C theme) k = true) as Hk.
    { eapply declared_key_of_parsed; [done|]. by rewrite Hv. }
    apply declared_elem_of in Hk as [f Hin].
    destruct (Hforms _ Hin _ _ (Hfield k f Hin)) as [Hscalar _]. by apply Hscalar. }
  assert (("appearance-theme",
           fun _ : option value =>
             Zod.required (Zod.enum ["system"; "dark"; "light"]) theme)
          ∈ settingsShape C theme) as Hin by left.
  pose proof (Hfield _ _ Hin) as Htheme. cbv beta in Htheme.
  destruct (theme_Some theme None _ Htheme Htheme) as (t & Ht & Hthemes).
  exists t. done.
Qed.

End StepV0toV1Properties.

(** *** Migration from schema v0 to schema v1: the final validation *)

Section FinalValidationProperties.
Variable C : Externals.

Lemma settingsValidator_inv_theme merged w settings w' :
  settingsValidator C merged w = Ok settings w' →
  ∃ theme,
    appearanceThemePreprocess (get "appearance-theme" merged) w = Ok theme w
    ∧ Zod.parseShape (settingsShape C theme) merged = Some settings.
Proof.
  intros Hrun. unfold settingsValidator, bind in Hrun.
  destruct (appearanceThemePreprocess (get "appearance-theme" merged) w)
    as [theme w1|] eqn:Htheme; [|done].
  assert (w1 = w) as ->.
  { unfold appearanceThemePreprocess, bind, JSON_parse, ret, throw in Htheme.
    repeat case_match; simplify_eq; done. }
  exists theme. split; [done|]. unfold parseOrThrow, Zod.object in Hrun.
  destruct (Zod.parseShape (settingsShape C theme) merged) as [out|]; [|done].
  unfold ret in Hrun. congruence.
Qed.

(** What the preprocessor of the theme returns. *)
Lemma appearanceThemePreprocess_theme x w t :
  appearanceThemePreprocess x w = Ok (Some (Str t)) w →
  t ∈ themes →
  x = Some (Str t)
  ∨ ∃ s, x = Some (Str s) ∧ includesChar JSON.dquote s = true
      ∧ JSON.parse s = Some (Str t).
Proof.
  intros Hrun Ht. unfold appearanceThemePreprocess in Hrun.
  destruct x as [[| | |s| |]|]; try (injection Hrun as <-; by left).
  destruct (includesChar JSON.dquote s) eqn:Hquote.
  - right. exists s. split; [done|]. split; [done|].
    unfold bind, JSON_parse, ret, throw in Hrun.
    destruct (JSON.parse s) as [v|]; [|done]. congruence.
  - left. unfold ret in Hrun. congruence.
Qed.

Lemma appearanceThemePreprocess_resolves x w t :
  x = Some (Str t) ∧ t ∈ themes
  ∨ (∃ s, x = Some (Str s) ∧ includesChar JSON.dquote s = true
       ∧ JSON.parse s = Some (Str t)) →
  appearanceThemePreprocess x w = Ok (Some (Str t)) w.
Proof.
  intros [[-> Ht]|(s & -> & Hquote & Hparse)]; unfold appearanceThemePreprocess.
  - assert (includesChar JSON.dquote t = false) as ->; [|done].
    unfold themes in Ht.
    repeat (apply elem_of_cons in Ht as [->|Ht]; [by vm_compute|]).
    by apply elem_of_nil in Ht.
  - rewrite Hquote. unfold bind, JSON_parse. by rewrite Hparse.
Qed.

Lemma parseShape_is_Some shape data :
  Forall (λ d : string * Zod.field, is_Some (d.2 (get d.1 data))) shape →
  is_Some (Zod.parseShape shape data).
Proof.
  induction 1 as [|[k f] shape [r Hr] _ [out IH]]; simpl in *; [by eexists|].
  rewrite Hr, IH. destruct r; by eexists.
Qed.

Lemma settingsShape_declares theme :
  (∀ k, k ∈ booleanSettings → (k, booleanField C) ∈ settingsShape C theme)
  ∧ (∀ k, k ∈ numberSettings → (k, numberField C) ∈ settingsShape C theme)
  ∧ (∀ k, k ∈ stringSettings → (k, Zod.required Zod.string_) ∈ settingsShape C theme)
  ∧ (∀ k, k ∈ optionalSettings → (k, Zod.optional Zod.string_) ∈ settingsShape C theme).
Proof.
  unfold booleanSettings, numberSettings, stringSettings, optionalSettings,
    settingsShape.
  split_and!; intros k Hk;
    repeat (apply elem_of_cons in Hk as [->|Hk]; [in_list|]);
    by apply elem_of_nil in Hk.
Qed.

Lemma settingsShape_names theme k :
  declared (settingsShape C theme) k = true →
  k ∈ "appearance-theme"
      :: booleanSettings ++ numberSettings ++ stringSettings ++ optionalSettings.
Proof.
  unfold declared. intros (k' & Hin & ->%String.eqb_eq)%existsb_exists.
  apply list_elem_of_In in Hin. rewrite settingsShape_keys in Hin.
  revert k' Hin. apply Forall_forall.
  apply (bool_decide_unpack _). vm_compute. exact I.
Qed.

(** What the validator returns is the merged object validated key by
    key. *)
Lemma settingsValidator_validated merged w settings w' :
  settingsValidator C merged w = Ok settings w' →
  validatedSettings C merged settings.
Proof.
  intros (theme & Htheme & Hparse)%settingsValidator_inv_theme.
  pose proof (field_parseShape _ _ _ (NoDup_settingsShape C theme) Hparse) as Hfield.
  destruct (settingsShape_declares theme) as (Hbool & Hnum & Hstr & Hopt).
  split.
  { assert (("appearance-theme",
             fun _ : option value =>
               Zod.required (Zod.enum ["system"; "dark"; "light"]) theme)
            ∈ settingsShape C theme) as Hin by left.
    pose proof (Hfield _ _ Hin) as Hr. cbv beta in Hr.
    destruct (theme_Some theme None _ Hr Hr) as (t & Ht & Hthemes).
    exists t. split; [done|]. split; [done|].
    assert (theme = Some (Str t)) as ->.
    { rewrite Ht in Hr. destruct theme as [[| | |t'| |]|]; try done.
      unfold Zod.required, Zod.enum in Hr.
      destruct (existsb (String.eqb t') ["system"; "dark"; "light"]); [|done].
      simpl in Hr. congruence. }
    by eapply appearanceThemePreprocess_theme. }
  split.
  { intros k Hk. pose proof (Hfield _ _ (Hbool k Hk)) as Hr. unfold booleanField in Hr.
    destruct (SchemaPreprocessor_booleanValidator C (get k merged)) as [b|]; [|done].
    exists b. split; [done|]. simpl in Hr. congruence. }
  split.
  { intros k Hk. pose proof (Hfield _ _ (Hnum k Hk)) as Hr. unfold numberField in Hr.
    destruct (SchemaPreprocessor_numberValidator C (get k merged)) as [n|]; [|done].
    exists n. split; [done|]. simpl in Hr. congruence. }
  split.
  { intros k Hk. pose proof (Hfield _ _ (Hstr k Hk)) as Hr.
    apply required_string_Some in Hr as (s & Hs & Hm). exists s. done. }
  split.
  { intros k Hk. pose proof (Hfield _ _ (Hopt k Hk)) as Hr.
    apply optional_string_Some in Hr as [Hs Hm]. done. }
  split.
  { intros k Hk. apply (settingsShape_names theme).
    by eapply declared_key_of_parsed. }
  eapply sublist_NoDup; [apply (NoDup_settingsShape C theme)|].
  by eapply keys_parseShape.
Qed.

(** The validator accepts every merged object that can be validated key
    by key. *)
Lemma settingsValidator_accepts merged settings w :
  validatedSettings C merged settings →
  ∃ settings', settingsValidator C merged w = Ok settings' w.
Proof.
  intros ((t & Ht & _ & Hmerged) & Hbool & Hnum & Hstr & Hopt & _).
  unfold settingsValidator, bind.
  rewrite (appearanceThemePreprocess_resolves _ w t)
    by (destruct Hmerged as [Hm|Hm]; [left | right]; done).
  destruct (parseShape_is_Some (settingsShape C (Some (Str t))) merged) as [out Hout].
  { unfold settingsShape.
    repeat (apply Forall_cons; split;
      [ cbn [fst snd];
        match goal with
        | |- context [get ?k merged] =>
            first
              [ by (destruct (Hbool k ltac:(unfold booleanSettings; in_list))
                      as (b & Hb & _);
                    unfold booleanField; rewrite Hb; eexists)
              | by (destruct (Hnum k ltac:(unfold numberSettings; in_list))
                      as (n & Hn & _);
                    unfold numberField; rewrite Hn; eexists)
              | by (destruct (Hstr k ltac:(unfold stringSettings; in_list))
                      as (s & Hs & _);
                    rewrite Hs; eexists)
              | by (destruct (Hopt k ltac:(unfold optionalSettings; in_list))
                      as ([Hs|[s Hs]] & _); rewrite Hs; eexists)
              | idtac ]
        | |- _ => idtac
        end
      | ]); [|apply Forall_nil_2].
    unfold Zod.required, Zod.enum. unfold themes in Ht.
    repeat (apply elem_of_cons in Ht as [->|Ht]; [by eexists|]).
    by apply elem_of_nil in Ht. }
  unfold parseOrThrow, Zod.object. rewrite Hout. by eexists.
Qed.

(** C7. When the field-level edits of the v0 to v1 step are done, the
    step validates the current settings spread over the defaults, in
    which the current settings win on every key they have. The
    validation goes through the whole object key by key: the theme is
    one of the three themes, each boolean and number setting goes
    through its validator, each string setting is a string, each nested
    field a string or missing, and no other key is kept. The step
    resolves when, and only when, the merged object passes it, and the
    validated object is then the settings record. When it does not
    pass, the step throws what the validator threw, the settings record
    in the storage is as the step found it, and [runSchemaMigration]
    hands the failure on to the runner. *)
Theorem C7_final_validation_is_fatal w :
  match editSettingsV0toV1 C w with
  | Throw e w1 => migrateFromV0toV1 C w = Throw e w1
  | Ok currentSettings w1 =>
      let merged := spread2 (defaultSettings C) currentSettings in
      (∀ k, get k merged
            = match get k currentSettings with
              | Some v => Some v
              | None => get k (assign [] (defaultSettings C))
              end)
      ∧ match migrateFromV0toV1 C w with
        | Ok _ w' =>
            ∃ settings,
              validatedSettings C merged settings
              ∧ settingsValidator C merged w1 = Ok settings w1
              ∧ w' = withBrowser (insert "adguard-settings" (Obj settings)) w1
        | Throw e w' =>
            (∀ settings, ¬ validatedSettings C merged settings)
            ∧ settingsValidator C merged w1 = Throw e w1
            ∧ w' = w1
            ∧ browser w1 !! "adguard-settings" = browser w !! "adguard-settings"
            ∧ runSchemaMigration C (migrateFromV0toV1 C) 0 1 w
              = Throw (Error (errMessage C 0 1 e) (Some e)) (afterRejection C w1 0 1 e)
        end
  end.
Proof.
  pose proof (NoDup_editSettingsV0toV1 C w) as Hnd.
  pose proof (keeps_editSettingsV0toV1 C "adguard-settings") as Hkeeps.
  pose proof (migrateFromV0toV1_unfold C w) as Hstep.
  destruct (editSettingsV0toV1 C w) as [currentSettings w1|e w1] eqn:Hedit; [|done].
  specialize (Hnd _ _ eq_refl). cbv zeta.
  split; [intros k; by apply get_spread2|].
  pose proof (settingsValidator_world C
                (spread2 (defaultSettings C) currentSettings) w1) as Hworld.
  destruct (settingsValidator C (spread2 (defaultSettings C) currentSettings) w1)
    as [settings w2|e w2] eqn:Hvalid; simpl in Hworld; subst w2; rewrite Hstep.
  - exists settings. split; [by eapply settingsValidator_validated | done].
  - split.
    { intros settings Hok.
      destruct (settingsValidator_accepts _ _ w1 Hok) as [settings' Hrun]. congruence. }
    split; [done|]. split; [done|]. split.
    + specialize (Hkeeps ltac:(unfold movedKeys; repeat constructor; discriminate) w).
      by rewrite Hedit in Hkeeps.
    + apply runSchemaMigration_rejects. by rewrite Hstep.
Qed.

End FinalValidationProperties.

(** *** Migration from schema v0 to schema v1: the fields it moves *)

Section StepV0toV1Fields.
Variable C : Externals.

Lemma get_renamed_other k (settings : props) :
  k ∉ editedNames → get k (renamed settings) = get k settings.
Proof.
  unfold editedNames. rewrite !not_elem_of_cons.
  intros (? & ? & ? & ? & ? & ? & ? & ? & ? & ? & ? & _). unfold renamed.
  by rewrite !get_renameField_other, !get_deleteIfTruthy.
Qed.

Lemma get_renamed_new old new (settings : props) v :
  (old, new) ∈ [ ("default-whitelist-mode", "default-allowlist-mode");
                 ("white-list-domains", "allowlist-domains");
                 ("stealth_disable_stealth_mode", "stealth-disable-stealth-mode") ] →
  get old settings = Some v →
  get new (renamed settings) = Some v.
Proof.
  intros Hpair Hold. unfold renamed.
  repeat (apply elem_of_cons in Hpair as [[= -> ->]|Hpair]);
    [ | | | by apply elem_of_nil in Hpair ].
  - rewrite !get_renameField_other by done.
    apply get_renameField_new; [done|]. by rewrite !get_deleteIfTruthy.
  - rewrite !get_renameField_other by done.
    apply get_renameField_new; [done|].
    rewrite get_renameField_other by done. by rewrite !get_deleteIfTruthy.
  - rewrite get_renameField_other by done.
    apply get_renameField_new; [done|].
    rewrite !get_renameField_other by done. by rewrite !get_deleteIfTruthy.
Qed.

Lemma not_elem_of_by_computation (k : string) (ks : list string) :
  bool_decide (k ∈ ks) = false → k ∉ ks.
Proof. intros Hk Hin. by rewrite bool_decide_eq_true_2 in Hk. Qed.

(** X16. When the v0 to v1 step resolves, each of the six fields it
    moves out of the settings is at the root of the storage with the
    value it had in the old settings, when that value was truthy; the
    root key is as before when the field was missing or falsy. The
    stored settings record has none of the six. *)
Theorem X16_migrateFromV0toV1_moves_the_root_fields w w' data k :
  browser w !! "adguard-settings" = Some (Obj data) →
  NoDup (keys data) →
  migrateFromV0toV1 C w = Ok tt w' →
  k ∈ movedKeys →
  browser w' !! k = (if truthy (get k data) then get k data else browser w !! k)
  ∧ ∀ settings, browser w' !! "adguard-settings" = Some (Obj settings) →
      get k settings = None.
Proof.
  intros Hsettings Hnd Hrun Hk.
  assert ((k ∉ nestedFields) ∧ (k ∉ editedNames) ∧ k ≠ "adguard-settings"
          ∧ declared (settingsShape C None) k = false ∧ Zod.settable k = true)
    as (Hnested & Hedited & Hne & Hdecl & Hset).
  { unfold movedKeys in Hk.
    repeat (apply elem_of_cons in Hk as [->|Hk]);
      [ .. | by apply elem_of_nil in Hk ];
      (split; [by apply not_elem_of_by_computation|]);
      (split; [by apply not_elem_of_by_computation|]); done. }
  split.
  - pose proof (migrateFromV0toV1_run C w data Hsettings Hnd) as Hphases.
    cbv zeta in Hphases.
    destruct (reshaped C (renamed (Zod.withoutProto data)) _) as [reshaped_ w0|e w0];
      [|congruence].
    destruct Hphases as (_ & Hget & moved & w1 & _ & _ & _ & _ & _ & Hmoved & Hvalid).
    destruct (Hmoved k) as [_ Hb].
    rewrite bool_decide_eq_true_2 in Hb by done. simpl in Hb.
    rewrite Hget, get_renamed_other in Hb by done.
    rewrite get_withoutProto, Hset in Hb.
    destruct (settingsValidator C (spread2 (defaultSettings C) moved) w1)
      as [settings w2|]; [|congruence].
    rewrite Hvalid in Hrun. injection Hrun as <-. simpl.
    by rewrite lookup_insert_ne.
  - intros settings Hstored.
    apply migrateFromV0toV1_resolved in Hrun
      as (current & w1 & settings' & theme & _ & Hparse & ->).
    simpl in Hstored. rewrite lookup_insert_eq in Hstored. injection Hstored as <-.
    destruct (get k settings') eqn:Hv; [|done].
    rewrite <- (declared_settingsShape C theme) in Hdecl.
    erewrite declared_key_of_parsed in Hdecl; [done | done | by eexists].
Qed.

End StepV0toV1Fields.

(** *** Migration from schema v0 to schema v1: renamings and rejections *)

Section StepV0toV1Outcomes.
Variable C : Externals.

(** X17. The legacy names are read into the new ones. When the v0 to v1
    step resolves, the [allowlist-domains] of the stored settings is
    what the old settings had as [white-list-domains], and their
    [default-allowlist-mode] and [stealth-disable-stealth-mode] are what
    the boolean validator made of the old [default-whitelist-mode] and
    [stealth_disable_stealth_mode], whatever the old settings had under
    the new names. *)
Theorem X17_migrateFromV0toV1_reads_the_legacy_names w w' data settings :
  browser w !! "adguard-settings" = Some (Obj data) →
  NoDup (keys data) →
  migrateFromV0toV1 C w = Ok tt w' →
  browser w' !! "adguard-settings" = Some (Obj settings) →
  (∀ v, get "white-list-domains" data = Some v →
        get "allowlist-domains" settings = Some v)
  ∧ (∀ old new v,
       (old, new) ∈ [ ("default-whitelist-mode", "default-allowlist-mode");
                      ("stealth_disable_stealth_mode", "stealth-disable-stealth-mode") ] →
       get old data = Some v →
       ∃ b, SchemaPreprocessor_booleanValidator C (Some v) = Some b
         ∧ get new settings = Some (Bool b)).
Proof.
  intros Hsettings Hnd Hrun Hstored.
  pose proof (migrateFromV0toV1_run C w data Hsettings Hnd) as Hphases.
  cbv zeta in Hphases.
  destruct (reshaped C (renamed (Zod.withoutProto data)) _) as [reshaped_ w0|e w0];
    [|congruence].
  destruct Hphases as (_ & Hget & moved & w1 & _ & Hkeys & _ & _ & _ & Hmoved & Hvalid).
  destruct (settingsValidator C (spread2 (defaultSettings C) moved) w1)
    as [settings' w2|] eqn:Hvalidated; [|congruence].
  rewrite Hvalid in Hrun. injection Hrun as <-.
  simpl in Hstored. rewrite lookup_insert_eq in Hstored. injection Hstored as ->.
  apply settingsValidator_inv in Hvalidated as (_ & theme & Hparse).
  pose proof (field_parseShape _ _ _ (NoDup_settingsShape C theme) Hparse) as Hfield.
  assert (∀ old new v,
            (old, new) ∈ [ ("default-whitelist-mode", "default-allowlist-mode");
                           ("white-list-domains", "allowlist-domains");
                           ("stealth_disable_stealth_mode",
                            "stealth-disable-stealth-mode") ] →
            get old data = Some v →
            get new (spread2 (defaultSettings C) moved) = Some v) as Hmerged.
  { intros old new v Hpair Hold.
    assert ((new ∉ nestedFields) ∧ bool_decide (new ∈ movedKeys) = false
            ∧ Zod.settable old = true) as (Hnested & Hnot & Hset).
    { repeat (apply elem_of_cons in Hpair as [[= -> ->]|Hpair]);
        [ .. | by apply elem_of_nil in Hpair ];
        (split; [by apply not_elem_of_by_computation | done]). }
    rewrite get_spread2 by done. destruct (Hmoved new) as [-> _].
    rewrite Hnot. simpl. rewrite Hget by done.
    by rewrite (get_renamed_new old new (Zod.withoutProto data) v)
      by (by rewrite ?get_withoutProto, ?Hset). }
  split.
  - intros v Hold.
    assert (("allowlist-domains", Zod.required Zod.string_) ∈ settingsShape C theme)
      as Hin by (apply list_elem_of_In; simpl; repeat first [left; reflexivity | right]).
    pose proof (Hfield _ _ Hin) as Hout.
    rewrite (Hmerged "white-list-domains" "allowlist-domains" v) in Hout;
      [|in_list|done].
    apply required_string_Some in Hout as (s & Hs & [= ->]). done.
  - intros old new v Hpair Hold.
    assert ((new, booleanField C) ∈ settingsShape C theme
            ∧ get new (spread2 (defaultSettings C) moved) = Some v) as [Hin Hnew].
    { repeat (apply elem_of_cons in Hpair as [[= -> ->]|Hpair]);
        [ .. | by apply elem_of_nil in Hpair ];
        (split;
           [ apply list_elem_of_In; simpl; repeat first [left; reflexivity | right]
           | eapply Hmerged; [in_list | exact Hold] ]). }
    pose proof (Hfield _ _ Hin) as Hout. rewrite Hnew in Hout.
    unfold booleanField in Hout.
    destruct (SchemaPreprocessor_booleanValidator C (Some v)) as [b|]; [|done].
    exists b. split; [done|]. by injection Hout as <-.
Qed.

Lemma reshaped_throws key (settings : props) raw w :
  key ∈ nestedFields →
  get key settings = Some (Str raw) → JSON.parse raw = None →
  ∃ e, reshaped C settings w = Throw e w ∧ (key = "groups-state" → e = SyntaxError).
Proof.
  intros Hkey Hget Hparse. unfold reshaped, bind.
  destruct (decide (key = "groups-state")) as [->|Hne1].
  { rewrite (reshapeField_throws _ _ _ raw) by done. by exists SyntaxError. }
  pose proof (reshapeField_inv "groups-state" groupsStateTransformer settings w) as H1.
  destruct (reshapeField "groups-state" _ settings w) as [s1 w1|e w1];
    [destruct H1 as (-> & Hg1 & _) | destruct H1 as [-> _]; by exists e].
  rewrite <- Hg1 in Hget by done.
  destruct (decide (key = "filters-state")) as [->|Hne2].
  { rewrite (reshapeField_throws _ _ _ raw) by done. by exists SyntaxError. }
  pose proof (reshapeField_inv "filters-state" filtersStateTransformer s1 w) as H2.
  destruct (reshapeField "filters-state" _ s1 w) as [s2 w2|e w2];
    [destruct H2 as (-> & Hg2 & _) | destruct H2 as [-> _]; by exists e].
  rewrite <- Hg2 in Hget by done.
  destruct (decide (key = "custom-filters")) as [->|Hne3].
  { rewrite (reshapeField_throws _ _ _ raw) by done. by exists SyntaxError. }
  pose proof (reshapeField_inv "custom-filters" (customFiltersDataTransformerV0 C) s2 w)
    as H3.
  destruct (reshapeField "custom-filters" _ s2 w) as [s3 w3|e w3];
    [destruct H3 as (-> & Hg3 & _) | destruct H3 as [-> _]; by exists e].
  rewrite <- Hg3 in Hget by done.
  assert (key = "filters-version") as ->.
  { unfold nestedFields in Hkey.
    repeat (apply elem_of_cons in Hkey as [->|Hkey]); try done.
    by apply elem_of_nil in Hkey. }
  rewrite (reshapeField_throws _ _ _ raw) by done. by exists SyntaxError.
Qed.

(** X18. A nested field that is a string and cannot be JSON (it is
    empty, or begins with a character no JSON value begins with) makes
    the v0 to v1 step reject before it has written anything to the
    browser storage. For [groups-state], the first field it reshapes,
    the error is the syntax error of [JSON.parse]. *)
Theorem X18_migrateFromV0toV1_rejects_malformed_nested_json w data key raw :
  browser w !! "adguard-settings" = Some (Obj data) →
  NoDup (keys data) →
  key ∈ ["groups-state"; "filters-state"; "filters-version"] →
  get key data = Some (Str raw) →
  cannotBeJSON raw = true →
  ∃ e w1, migrateFromV0toV1 C w = Throw e w1
    ∧ browser w1 = browser w
    ∧ (key = "groups-state" → e = SyntaxError).
Proof.
  intros Hsettings Hnd Hkey Hget Hparse%cannotBeJSON_parse.
  pose proof (migrateFromV0toV1_run C w data Hsettings Hnd) as Hphases.
  cbv zeta in Hphases.
  assert (key ∈ nestedFields ∧ (key ∉ editedNames) ∧ Zod.settable key = true)
    as (Hnested & Hedited & Hset).
  { repeat (apply elem_of_cons in Hkey as [->|Hkey]);
      [ .. | by apply elem_of_nil in Hkey ];
      (split; [unfold nestedFields; in_list|]);
      (split; [by apply not_elem_of_by_computation | done]). }
  assert (get key (renamed (Zod.withoutProto data)) = Some (Str raw)) as Hget'.
  { by rewrite get_renamed_other, get_withoutProto, Hset. }
  clear Hget. rename Hget' into Hget.
  destruct (reshaped_throws key (renamed (Zod.withoutProto data)) raw
              (mkWorld (browser w) (hybrid w)
                 (delete "viewed-notification-time"
                    (delete "viewed-notifications" (localStorage w))) (logs w))
              Hnested Hget Hparse) as (e & Hthrow & He).
  rewrite Hthrow in Hphases. by eexists e, _.
Qed.

(** X19. The v0 to v1 step writes no key of the browser storage other
    than the settings record and the six fields it moves, and it logs
    nothing, whether it resolves or rejects. When it rejects, the
    settings record is as it found it; when it rejects because it found
    no settings record, or one that is no object, the error is a
    validation error and the browser storage is untouched. *)
Theorem X19_migrateFromV0toV1_writes_little_when_it_rejects w :
  (∀ k, k ∉ keysOfSteps →
        browser (worldOf (migrateFromV0toV1 C w)) !! k = browser w !! k)
  ∧ logs (worldOf (migrateFromV0toV1 C w)) = logs w
  ∧ ∀ e w1, migrateFromV0toV1 C w = Throw e w1 →
      browser w1 !! "adguard-settings" = browser w !! "adguard-settings"
      ∧ (recordOfUnknown (browser w !! "adguard-settings") = None →
         e = ZodError ∧ browser w1 = browser w).
Proof.
  split; [|split].
  - intros k Hk. unfold keysOfSteps in Hk. apply not_elem_of_cons in Hk as [Hne Hmoved].
    assert (Forall (λ k', k ≠ k') movedKeys) as Hall.
    { apply Forall_forall. intros k' Hk' ->. done. }
    pose proof (keeps_editSettingsV0toV1 C k Hall w) as Hedit.
    rewrite migrateFromV0toV1_unfold.
    destruct (editSettingsV0toV1 C w) as [current w1|e w1]; simpl in Hedit; [|done].
    pose proof (settingsValidator_world C (spread2 (defaultSettings C) current) w1) as Hw.
    destruct (settingsValidator C _ w1) as [settings w2|e w2]; simpl in *; subst w2;
      [|done].
    by rewrite lookup_insert_ne.
  - apply leaves_logs_V0toV1.
  - intros e w1 Hthrow. split.
    + assert (Forall (λ k', "adguard-settings" ≠ k') movedKeys) as Hall.
      { unfold movedKeys. repeat constructor; discriminate. }
      pose proof (keeps_editSettingsV0toV1 C "adguard-settings" Hall w) as Hedit.
      rewrite migrateFromV0toV1_unfold in Hthrow.
      destruct (editSettingsV0toV1 C w) as [current w0|e0 w0]; simpl in Hedit;
        [|congruence].
      pose proof (settingsValidator_world C (spread2 (defaultSettings C) current) w0)
        as Hw.
      destruct (settingsValidator C _ w0) as [settings w2|e2 w2]; simpl in *; [done|].
      congruence.
    + intros Hnone. pose proof (migrateFromV0toV1_phases C w) as Hphases.
      cbv zeta in Hphases. rewrite Hnone, Hthrow in Hphases. by injection Hphases as -> ->.
Qed.

End StepV0toV1Outcomes.

(** *** Migration from schema v2 to schema v3: the step as a whole *)

Section StepV2toV3.
Variables (C : Externals) (H : Host).

(** The user rules block: it resolves, and what it writes depends on
    the database alone. *)
Lemma migrateUserRules_run :
  ∃ lists, ∀ w,
    ∃ w1, migrateUserRules C H w = Ok tt w1
      ∧ ∀ key,
          browser w1 !! key
          = match get key (reverse lists) with
            | Some val => Some (Arr (Str <$> splitLines val))
            | None => browser w !! key
            end.
Proof.
  unfold migrateUserRules, tryCatch.
  destruct (idbRows H) as [e|data]; simpl.
  { exists []. intros w. eexists. split; [reflexivity|]. done. }
  destruct (keyValueRows Zod.Strip data) as [lists|]; simpl.
  - exists lists. intros w. unfold bind. simpl.
    destruct (setEach_run lists w) as (w' & -> & Hh & Hl & Hlogs & Hb).
    by exists w'.
  - exists []. intros w. eexists. split; [reflexivity|]. done.
Qed.

Lemma migrateFromV2toV3_phases w :
  migrateFromV2toV3 C H w
  = match migrateUserRules C H w with
    | Throw e w1 => Throw e w1
    | Ok _ w1 =>
        match recordOfUnknown (browser w1 !! "adguard-settings") with
        | None => Throw ZodError w1
        | Some settings =>
            match get "custom-filters" settings with
            | Some (Str raw) =>
                match JSON.parse raw with
                | None => Throw SyntaxError w1
                | Some parsed =>
                    match customFiltersDataTransformerV2 parsed with
                    | None => Throw ZodError w1
                    | Some out =>
                        Ok tt (withBrowser
                                 (insert "adguard-settings"
                                    (Obj (set "custom-filters"
                                            (Str (JSON.stringify out)) settings))) w1)
                    end
                end
            | _ => Ok tt w1
            end
        end
    end.
Proof.
  unfold migrateFromV2toV3. unfold bind at 1.
  destruct (migrateUserRules C H w) as [[] w1|e w1]; [|done].
  unfold bind, browserStorage_get, parseOrThrow. 
  destruct (recordOfUnknown (browser w1 !! "adguard-settings")) as [settings|]; [|done].
  simpl. destruct (get "custom-filters" settings) as [[| | |raw| |]|]; try done.
  unfold reserialize, bind, JSON_parse.
  destruct (JSON.parse raw) as [parsed|]; [|done]. simpl.
  by destruct (customFiltersDataTransformerV2 parsed).
Qed.

Lemma NoDup_recordOfUnknown_Some storageData settings :
  recordOfUnknown storageData = Some settings → NoDup (keys settings).
Proof.
  destruct storageData as [[| | | | |data]|]; simpl; try done.
  rewrite recordEntries_unknown. intros [= <-].
  apply NoDup_keys_assign. apply NoDup_nil_2.
Qed.

(** X20. When the v2 to v3 step resolves and the settings it read, once
    the user rules were copied, have a string as [custom-filters], that
    string is JSON the transformer accepts, and the stored settings are
    the ones read with the field replaced by a text that is JSON for
    what the transformer returned. *)
Theorem X20_migrateFromV2toV3_stores_what_the_transformer_returns w w' settings raw :
  migrateFromV2toV3 C H w = Ok tt w' →
  recordOfUnknown (browser (worldOf (migrateUserRules C H w)) !! "adguard-settings")
  = Some settings →
  get "custom-filters" settings = Some (Str raw) →
  ∃ parsed out text,
    JSON.parse raw = Some parsed
    ∧ customFiltersDataTransformerV2 parsed = Some out
    ∧ browser w' !! "adguard-settings"
      = Some (Obj (set "custom-filters" (Str text) settings))
    ∧ JSON.parse text = Some out.
Proof.
  intros Hrun Hsettings Hget. rewrite migrateFromV2toV3_phases in Hrun.
  destruct (migrateUserRules C H w) as [[] w1|e w1]; [|done]. simpl in Hsettings.
  rewrite Hsettings, Hget in Hrun.
  destruct (JSON.parse raw) as [parsed|] eqn:Hparse; [|done].
  destruct (customFiltersDataTransformerV2 parsed) as [out|] eqn:Hout; [|done].
  injection Hrun as <-.
  exists parsed, out, (JSON.stringify out). split; [done|]. split; [done|].
  split; [apply lookup_insert_eq|].
  apply parse_stringify. eapply customFiltersDataTransformerV2_wellKeyed; [|done].
  by eapply parse_wellKeyed.
Qed.

(** X21. The v2 to v3 step is idempotent on the browser storage: run
    again on the state a resolved run left, it resolves and leaves the
    browser storage as it found it. *)
Theorem X21_migrateFromV2toV3_is_idempotent_on_the_storage w w' :
  migrateFromV2toV3 C H w = Ok tt w' →
  ∃ w'', migrateFromV2toV3 C H w' = Ok tt w'' ∧ browser w'' = browser w'.
Proof.
  intros Hrun. rewrite migrateFromV2toV3_phases in Hrun.
  destruct migrateUserRules_run as [lists Hrules].
  destruct (Hrules w) as (w1 & Hr1 & Hb1). rewrite Hr1 in Hrun.
  destruct (recordOfUnknown (browser w1 !! "adguard-settings")) as [settings|] eqn:Hrec;
    [|done].
  assert (get "adguard-settings" (reverse lists) = None) as Hfree.
  { specialize (Hb1 "adguard-settings").
    destruct (get "adguard-settings" (reverse lists)); [|done].
    by rewrite Hb1 in Hrec. }
  pose proof (NoDup_recordOfUnknown_Some _ _ Hrec) as Hnd.
  destruct (Hrules w') as (w2 & Hr2 & Hb2).
  assert (browser w2 = browser w') as Hsame.
  { apply map_eq. intros key. rewrite Hb2.
    destruct (get key (reverse lists)) as [val|] eqn:Hkey; [|done].
    assert (browser w1 !! key = Some (Arr (Str <$> splitLines val))) as Hval
      by by rewrite Hb1, Hkey.
    destruct (get "custom-filters" settings) as [[| | |raw| |]|];
      try (by injection Hrun as <-).
    destruct (JSON.parse raw) as [parsed|]; [|done].
    destruct (customFiltersDataTransformerV2 parsed) as [out|]; [|done].
    injection Hrun as <-. simpl. rewrite lookup_insert_ne; [done|].
    intros <-. congruence. }
  rewrite migrateFromV2toV3_phases, Hr2, Hsame.
  destruct (get "custom-filters" settings) as [[| | |raw| |]|] eqn:Hcf;
    try (injection Hrun as <-; rewrite Hrec, Hcf; by exists w2).
  destruct (JSON.parse raw) as [parsed|] eqn:Hparse; [|done].
  destruct (customFiltersDataTransformerV2 parsed) as [out|] eqn:Hout; [|done].
  injection Hrun as <-. simpl. rewrite lookup_insert_eq.
  assert (wellKeyed parsed) as Hparsed by by eapply parse_wellKeyed.
  destruct (customFiltersDataTransformerV2_form parsed out Hparsed Hout)
    as (xs & ys & -> & -> & Hform).
  rewrite recordOfUnknown_object by by apply NoDup_keys_set.
  rewrite withoutProto_absent
    by (rewrite get_set_ne by done; by eapply recordOfUnknown_no_proto).
  rewrite get_set_eq, parse_stringify
    by by eapply customFiltersDataTransformerV2_wellKeyed.
  rewrite (customFiltersDataTransformerV2_fixed xs ys Hform).
  rewrite (set_same "custom-filters") by apply get_set_eq.
  eexists. split; [reflexivity|]. simpl. rewrite Hsame. simpl.
  apply insert_id. apply lookup_insert_eq.
Qed.

End StepV2toV3.

(** *** Migration from schema v0 to schema v1: the four transformers *)

Section TransformersV0.
Variable C : Externals.

Lemma record_entrywise (s : Zod.schema) (R : props → props → Prop) v v' :
  (∀ x y, wellKeyed x → s x = Some y → ∃ d o, x = Obj d ∧ y = Obj o ∧ R d o) →
  wellKeyed v → Zod.record s v = Some v' → entrywise R v v'.
Proof.
  intros Hs Hkeyed Hv.
  destruct v as [| | | | |data]; try done.
  apply wellKeyed_Obj in Hkeyed as [Hnd Hall].
  apply record_Forall2 in Hv as (out & -> & Hout); [|done].
  exists data, out. split; [done|]. split; [done|].
  apply (Forall_withoutProto _ data) in Hall.
  induction Hout as [|p q kept out [Hk Hpq] Hout IH]; [constructor|].
  apply Forall_cons in Hall as [Hp Hall].
  constructor; [|by apply IH]. split; [done|]. by apply Hs.
Qed.

Lemma array_elementwise (s : Zod.schema) (R : props → props → Prop) v v' :
  (∀ x y, wellKeyed x → s x = Some y → ∃ d o, x = Obj d ∧ y = Obj o ∧ R d o) →
  wellKeyed v → Zod.array s v = Some v' → elementwise R v v'.
Proof.
  intros Hs Hkeyed Hv.
  destruct v as [| | | |xs|]; try done.
  apply wellKeyed_Arr in Hkeyed.
  apply array_Forall2 in Hv as (ys & -> & Hall).
  exists xs, ys. split; [done|]. split; [done|].
  induction Hall as [|x y xs ys Hxy Hall IH]; [constructor|].
  apply Forall_cons in Hkeyed as [Hx Hxs]. constructor; [by apply Hs | by apply IH].
Qed.

(** The object a transformer is given, once its declared fields were
    validated: it has no key twice ([Hkeys]), no [__proto__]
    ([Hproto]), and the other properties it came with ([Hother]). *)
Ltac parsed_object Hy d data Hkeys Hproto Hother :=
  let Hobj := fresh "Hobj" in
  let Hsame := fresh "Hsame" in
  cbv beta in Hy;
  destruct (Zod.object _ Zod.Passthrough (Obj d)) as [data|] eqn:Hobj; [|done];
  apply object_passthrough_spec in Hobj as [Hkeys Hsame];
  [ assert (get "__proto__" data = None) as Hproto
      by (rewrite Hsame; reflexivity);
    assert (∀ k, k ≠ "__proto__" → get k data = get k d) as Hother
      by (intros ? ?; rewrite Hsame, settable_ne by done; reflexivity);
    clear Hsame
  | repeat constructor;
      first [ apply faithful_optional_boolean | apply faithful_optional_number
            | apply faithful_optional_timeUpdated ]
  | apply (bool_decide_unpack _); vm_compute; exact I
  | done ].

(** X22. [groupsStateTransformer] keeps the groups and their order, but
    for a group under the key [__proto__], which the validator leaves
    out. It gives each group a boolean [enabled], the one it had or
    [false] when it had none, and a [touched] equal to it, whatever
    [touched] was; a field [__proto__] is left out of the group and
    every other field is kept. *)
Theorem X22_groupsStateTransformer_marks_every_group v v' :
  wellKeyed v →
  groupsStateTransformer v = Some v' →
  entrywise (λ d o,
    get "enabled" o = Some (Bool (truthy (get "enabled" d)))
    ∧ get "touched" o = Some (Bool (truthy (get "enabled" d)))
    ∧ get "__proto__" o = None
    ∧ ∀ k, k ≠ "enabled" → k ≠ "touched" → k ≠ "__proto__" → get k o = get k d) v v'.
Proof.
  apply record_entrywise. intros x y Hx Hy.
  destruct x as [| | | | |d]; try done. apply wellKeyed_Obj in Hx as [Hnd _].
  parsed_object Hy d data Hkeys Hproto Hother.
  exists d, (assign (assign [] data)
               [("enabled", Bool (truthy (get "enabled" data)));
                ("touched", Bool (truthy (get "enabled" data)))]).
  split; [done|]. split; [by injection Hy as <-|].
  assert (NoDup (keys [("enabled", Bool (truthy (get "enabled" data)));
                       ("touched", Bool (truthy (get "enabled" data)))])) as Hsrc
    by by apply NoDup_keys_pair.
  rewrite <- (Hother "enabled") by done. split_and!.
  - by rewrite get_assign.
  - by rewrite get_assign.
  - rewrite get_assign by done. cbn [get]. by rewrite get_assign_nil.
  - intros k Hk Hk' Hk''. rewrite get_assign by done. cbn [get].
    rewrite !eqb_false_of_ne by done. rewrite get_assign_nil by done. by apply Hother.
Qed.

(** X23. [filtersStateTransformer] keeps the filters and their order,
    but for a filter under the key [__proto__], which the validator
    leaves out. It gives each filter a boolean [enabled] and a boolean
    [installed]: the ones it had, or [false] for one it did not have; a
    field [__proto__] is left out of the filter and every other field is
    kept. *)
Theorem X23_filtersStateTransformer_completes_every_filter v v' :
  wellKeyed v →
  filtersStateTransformer v = Some v' →
  entrywise (λ d o,
    get "enabled" o = Some (Bool (truthy (get "enabled" d)))
    ∧ get "installed" o = Some (Bool (truthy (get "installed" d)))
    ∧ get "__proto__" o = None
    ∧ ∀ k, k ≠ "enabled" → k ≠ "installed" → k ≠ "__proto__" → get k o = get k d) v v'.
Proof.
  apply record_entrywise. intros x y Hx Hy.
  destruct x as [| | | | |d]; try done. apply wellKeyed_Obj in Hx as [Hnd _].
  parsed_object Hy d data Hkeys Hproto Hother.
  exists d, (assign (assign [] (del "enabled" (del "installed" data)))
               [("enabled", Bool (truthy (get "enabled" data)));
                ("installed", Bool (truthy (get "installed" data)))]).
  split; [done|]. split; [by injection Hy as <-|].
  assert (NoDup (keys [("enabled", Bool (truthy (get "enabled" data)));
                       ("installed", Bool (truthy (get "installed" data)))])) as Hsrc
    by by apply NoDup_keys_pair.
  rewrite <- (Hother "enabled"), <- (Hother "installed") by done. split_and!.
  - by rewrite get_assign.
  - by rewrite get_assign.
  - rewrite get_assign by done. cbn [get].
    rewrite get_assign_nil by by do 2 apply NoDup_keys_del.
    by rewrite !get_del_ne.
  - intros k Hk Hk' Hk''. rewrite get_assign by done. cbn [get].
    rewrite !eqb_false_of_ne by done.
    rewrite get_assign_nil by by do 2 apply NoDup_keys_del.
    rewrite !get_del_ne by done. by apply Hother.
Qed.

(** X24. [filtersVersionsTransformer] keeps the filters and their
    order, but for a filter under the key [__proto__], which the
    validator leaves out. It gives each filter a [lastUpdateTime]: the
    one it had, or [0] when it had none; a field [__proto__] is left out
    of the filter and every other field is kept. *)
Theorem X24_filtersVersionsTransformer_dates_every_filter v v' :
  wellKeyed v →
  filtersVersionsTransformer v = Some v' →
  entrywise (λ d o,
    get "lastUpdateTime" o = Some (default (Num 0) (get "lastUpdateTime" d))
    ∧ get "__proto__" o = None
    ∧ ∀ k, k ≠ "lastUpdateTime" → k ≠ "__proto__" → get k o = get k d) v v'.
Proof.
  apply record_entrywise. intros x y Hx Hy.
  destruct x as [| | | | |d]; try done. apply wellKeyed_Obj in Hx as [Hnd _].
  parsed_object Hy d data Hkeys Hproto Hother.
  exists d, (assign (assign [] (del "lastUpdateTime" data))
               [("lastUpdateTime", default (Num 0) (get "lastUpdateTime" data))]).
  split; [done|]. split; [by injection Hy as <-|].
  rewrite <- (Hother "lastUpdateTime") by done. split_and!.
  - by rewrite get_assign by apply NoDup_singleton.
  - rewrite get_assign by apply NoDup_singleton. cbn [get].
    rewrite get_assign_nil by by apply NoDup_keys_del.
    by rewrite !get_del_ne.
  - intros k Hk Hk'. rewrite get_assign by apply NoDup_singleton. cbn [get].
    rewrite !eqb_false_of_ne by done.
    rewrite get_assign_nil by by apply NoDup_keys_del.
    rewrite !get_del_ne by done. by apply Hother.
Qed.

(** X25. The transformer of the custom filters in the v0 to v1 step
    keeps the filters and their order and gives each of them a boolean
    [trusted], the one it had or [false], and a [timeUpdated]: [0] when
    it had none, and what [Number] makes of the one it had otherwise.
    It drops the deprecated [languages]; a field [__proto__] is left out
    by the validator, and every other field is kept. *)
Theorem X25_customFiltersDataTransformerV0_completes_every_filter v v' :
  wellKeyed v →
  customFiltersDataTransformerV0 C v = Some v' →
  elementwise (λ d o,
    get "trusted" o = Some (Bool (truthy (get "trusted" d)))
    ∧ get "timeUpdated" o
      = Some (match get "timeUpdated" d with
              | None => Num 0
              | Some t => Number_ C t
              end)
    ∧ get "languages" o = None
    ∧ get "__proto__" o = None
    ∧ ∀ k, k ≠ "trusted" → k ≠ "timeUpdated" → k ≠ "languages" → k ≠ "__proto__" →
           get k o = get k d) v v'.
Proof.
  apply array_elementwise. intros x y Hx Hy.
  destruct x as [| | | | |d]; try done. apply wellKeyed_Obj in Hx as [Hnd _].
  parsed_object Hy d data Hkeys Hproto Hother.
  exists d, (assign (assign [] (del "languages" data))
               [("trusted", Bool (truthy (get "trusted" data)));
                ("timeUpdated", match get "timeUpdated" data with
                                | None => Num 0
                                | Some t => Number_ C t
                                end)]).
  split; [done|]. split; [by injection Hy as <-|].
  assert (∀ t, NoDup (keys [("trusted", Bool (truthy (get "trusted" data)));
                            ("timeUpdated", t)])) as Hsrc
    by (intros t; by apply NoDup_keys_pair).
  rewrite <- (Hother "trusted"), <- (Hother "timeUpdated") by done. split_and!.
  - by rewrite get_assign.
  - by rewrite get_assign.
  - rewrite get_assign by done. cbn [get].
    rewrite get_assign_nil by by apply NoDup_keys_del. apply get_del_eq.
  - rewrite get_assign by done. cbn [get].
    rewrite get_assign_nil by by apply NoDup_keys_del. by rewrite get_del_ne.
  - intros k Hk Hk' Hk'' Hk'''. rewrite get_assign by done. cbn [get].
    rewrite !eqb_false_of_ne by done.
    rewrite get_assign_nil by by apply NoDup_keys_del.
    rewrite !get_del_ne by done. by apply Hother.
Qed.

End TransformersV0.

(* ===================================================================== *)
(** ** The claims on concrete stores *)
(* ===================================================================== *)

Section Concrete.
Import Sample.

Ltac by_computation := vm_compute; reflexivity.

Lemma sample_keys_apart : SCHEMA_VERSION_KEY externals ≠ APP_VERSION_KEY externals.
Proof. discriminate. Defined.

Lemma sample_schema_key_outOfReach :
  outOfReach externals host (SCHEMA_VERSION_KEY externals).
Proof.
  split; [discriminate|]. split; [repeat constructor; discriminate|].
  split; [reflexivity|]. split; [reflexivity | exact I].
Defined.

(** C1 is not met. On a store at schema 0 whose settings name a theme
    that is not one, the v0 to v1 step throws at its final validation:
    no step resolves, and the stored schema version is 1. *)
Lemma C1_counterexample :
  completed (update externals host (runInfo 0 1) storeV0BadTheme).1 = []
  ∧ reachedVersion (completed (update externals host (runInfo 0 1) storeV0BadTheme).1) = 0
  ∧ browser (worldOf (update externals host (runInfo 0 1) storeV0BadTheme).2)
      !! SCHEMA_VERSION_KEY externals = Some (Num 1)
  ∧ ¬ (1 ≤ reachedVersion
             (completed (update externals host (runInfo 0 1) storeV0BadTheme).1)).
Proof.
  split; [by_computation|]. split; [by_computation|]. split; [by_computation|].
  assert (reachedVersion
            (completed (update externals host (runInfo 0 1) storeV0BadTheme).1)
          = 0) as -> by by_computation.
  lia.
Qed.

Lemma C1_witness :
  SCHEMA_VERSION_KEY externals ≠ APP_VERSION_KEY externals
  ∧ outOfReach externals host (SCHEMA_VERSION_KEY externals)
  ∧ browser (worldOf (update externals host (runInfo 0 1) storeV0BadTheme).2)
      !! SCHEMA_VERSION_KEY externals = Some (Num 1).
Proof.
  split; [exact sample_keys_apart|]. split; [exact sample_schema_key_outOfReach|].
  exact (C1_stored_schema_version_is_the_current_one externals host
           (runInfo 0 1) storeV0BadTheme sample_keys_apart sample_schema_key_outOfReach).
Defined.

(** C2 is not met. From schema 0 to schema 2 on that store the step of
    version 0 throws and the step of version 1 never runs. *)
Lemma C2_counterexample :
  0 ≤ 2
  ∧ started (runMigrations externals host 2 0 storeV0BadTheme).1 = [0]
  ∧ started (runMigrations externals host 2 0 storeV0BadTheme).1 ≠ seqZ 0 (2 - 0).
Proof.
  split; [lia|]. split; [by_computation|].
  assert (started (runMigrations externals host 2 0 storeV0BadTheme).1 = [0]) as ->
    by by_computation.
  discriminate.
Qed.

Lemma C2_witness :
  0 ≤ 4
  ∧ ∃ wk,
      resolvedRun (schemaMigrationMap externals host) 0 4 storeV0 wk
      ∧ tryMigrations externals (schemaMigrationMap externals host) 4 0 storeV0
        = ([(0, true); (1, true); (2, true); (3, true)], Ok tt wk).
Proof.
  split; [lia|].
  assert (∃ w', tryMigrations externals (schemaMigrationMap externals host) 4 0 storeV0
                = ([(0, true); (1, true); (2, true); (3, true)], Ok tt w'))
    as [w' Hrun] by (eexists; by_computation).
  destruct (C2_steps_run_in_ascending_order externals
              (schemaMigrationMap externals host) 4 0 storeV0 ltac:(lia))
    as (k & wk & Hk & Hsteps & Hend & _).
  rewrite Hrun in Hend. destruct Hend as (Hk4 & Hw & _).
  assert (k = 4%nat) as Hk' by lia.
  rewrite Hk' in Hsteps. rewrite Hw in Hrun.
  exists wk. split; [exact Hsteps | exact Hrun].
Defined.

Example C2_all_steps_on_a_v0_store :
  runMigrations externals host 4 0 storeV0
  = ([(0, true); (1, true); (2, true); (3, true)],
     (runMigrations externals host 4 0 storeV0).2)
  ∧ ∃ w', (runMigrations externals host 4 0 storeV0).2 = Ok tt w'.
Proof. split; [by_computation|]. eexists. by_computation. Qed.

Example C3_update_on_an_empty_store :
  ∃ w', update externals host (runInfo 0 2) emptyWorld = ([(0, false)], Ok tt w')
    ∧ browser w' !! "adguard-settings" = Some (Obj defaults).
Proof. eexists. split; by_computation. Qed.



Example C4_error_names_the_span :
  (tryMigrations externals (schemaMigrationMap externals host) 6 3 legacyStore).1
  = [(3, true)]
  ∧ ∃ w1, (tryMigrations externals (schemaMigrationMap externals host) 6 3 legacyStore).2
          = Throw (Error "Cannot find schema migration action from 3 to 6." None) w1.
Proof. split; [by_computation|]. eexists. by_computation. Qed.

Lemma legacyStore_hasLegacyFilters : hasLegacyFilters externals legacyStore.
Proof. left. vm_compute. discriminate. Defined.

Lemma C5_witness :
  hasLegacyFilters externals legacyStore
  ∧ ∃ w', migrateFromV3toV4 externals failingHost legacyStore
          = Throw transactionFailed w'
      ∧ browser w' = browser legacyStore.
Proof.
  split; [exact legacyStore_hasLegacyFilters|].
  destruct (C5_legacy_keys_survive_a_failed_transaction externals failingHost
              legacyStore legacyStore_hasLegacyFilters)
    as (w' & Hthrow & Hbrowser & _).
  exists w'. split; [exact Hthrow | exact Hbrowser].
Defined.

Example C5_committed_transaction :
  ∃ w', migrateFromV3toV4 externals host legacyStore = Ok tt w'
    ∧ hybrid w' = list_to_map [("filter_1", "line1" +:+ String (ascii_of_nat 10) "line2");
                               ("filter_raw_2", "rawtext")]
    ∧ browser w' !! "filter_1" = None
    ∧ browser w' !! "filter_raw_2" = None.
Proof. eexists. split; [by_computation|]. split; [by_computation|]. split; by_computation. Qed.



Example C7_rejected_theme_is_not_persisted :
  ∃ w1, migrateFromV0toV1 externals storeV0BadTheme = Throw ZodError w1
    ∧ browser w1 !! "adguard-settings" = browser storeV0BadTheme !! "adguard-settings"
    ∧ browser w1 !! "client-id" = Some (Str "0123456789abcdef").
Proof. eexists. split; [by_computation|]. split; by_computation. Qed.

Example C7_renamed_field_is_validated :
  ∃ w1 settings,
    migrateFromV0toV1 externals storeV0 = Ok tt w1
    ∧ browser w1 !! "adguard-settings" = Some (Obj settings)
    ∧ get "default-allowlist-mode" settings = Some (Bool true)
    ∧ get "default-whitelist-mode" settings = None
    ∧ get "appearance-theme" settings = Some (Str "system").
Proof.
  eexists _, _. split; [by_computation|]. split; [by_computation|].
  split; [by_computation|]. split; by_computation.
Qed.

Example C8_stages_the_legacy_store :
  stageAll externals (browser legacyStore)
  = ([("filter_1", "line1" +:+ String (ascii_of_nat 10) "line2");
      ("filter_raw_2", "rawtext")],
     [(LDebug, "Failed to extract filter ID from the key: filter_raw_2, skipping")]).
Proof. by_computation. Qed.

Lemma C8_witness :
  hasLegacyFilters externals legacyStore
  ∧ "filter_raw_2" ∈ filterKeysOf externals (browser legacyStore)
  ∧ FiltersStorage_extractFilterIdFromFilterKey externals "filter_raw_2" = None
  ∧ (LDebug, "Failed to extract filter ID from the key: " +:+ "filter_raw_2"
               +:+ ", skipping")
    ∈ logs (worldOf (migrateFromV3toV4 externals host legacyStore))
  ∧ hybrid (worldOf (migrateFromV3toV4 externals host legacyStore))
    = setAll [("filter_1", "line1" +:+ String (ascii_of_nat 10) "line2");
              ("filter_raw_2", "rawtext")] (hybrid legacyStore).
Proof.
  assert (filterKeysOf externals (browser legacyStore) = ["filter_1"; "filter_raw_2"])
    as Hkeys by by_computation.
  assert ("filter_raw_2" ∈ filterKeysOf externals (browser legacyStore)) as Hin.
  { rewrite Hkeys. right. left. }
  assert (FiltersStorage_extractFilterIdFromFilterKey externals "filter_raw_2" = None)
    as Hid by by_computation.
  assert ((fold_left (stageRawFilter externals (browser legacyStore))
             (List.filter
                (λ key, negb (skippedRawFilter externals (browser legacyStore) key))
                (rawFilterKeysOf externals (browser legacyStore)))
             (fold_left (stageFilter externals (browser legacyStore))
                (List.filter
                   (λ key, negb (skippedFilter externals (browser legacyStore) key))
                   (filterKeysOf externals (browser legacyStore)))
                ([], []))).1
          = [("filter_1", "line1" +:+ String (ascii_of_nat 10) "line2");
             ("filter_raw_2", "rawtext")]) as Hstaged by by_computation.
  split; [exact legacyStore_hasLegacyFilters|]. split; [exact Hin|].
  split; [exact Hid|].
  destruct (C8_invalid_keys_are_skipped externals host legacyStore
              legacyStore_hasLegacyFilters)
    as (Hunreadable & _ & _ & _ & _ & _ & Hhybrid & _).
  split; [exact (Hunreadable "filter_raw_2" Hin Hid)|].
  rewrite Hstaged in Hhybrid. exact Hhybrid.
Defined.

(** C9 is not met. A notification time of [0] is a field of the
    settings, and [moveStorageData] neither takes it out of them nor
    writes it to the storage. *)
Lemma C9_counterexample :
  get "viewed-notification-time" [("viewed-notification-time", Num 0)] = Some (Num 0)
  ∧ moveStorageData "viewed-notification-time" [("viewed-notification-time", Num 0)]
      emptyWorld
    = Ok [("viewed-notification-time", Num 0)] emptyWorld
  ∧ browser emptyWorld !! "viewed-notification-time" = None.
Proof. split; [reflexivity|]. split; by_computation. Qed.







End Concrete.

(* ===================================================================== *)
(** ** The further properties on concrete stores *)
(* ===================================================================== *)

Section FurtherWitnesses.
Import Sample.

Ltac by_computation := vm_compute; reflexivity.
Ltac well_keyed :=
  simpl; repeat split; apply (bool_decide_unpack _); vm_compute; exact I.

Lemma sample_app_key_outOfReach :
  outOfReach externals host (APP_VERSION_KEY externals).
Proof.
  split; [discriminate|]. split; [repeat constructor; discriminate|].
  split; [reflexivity|]. split; [reflexivity | exact I].
Defined.

Lemma X1_witness :
  outOfReach externals host (APP_VERSION_KEY externals)
  ∧ browser (worldOf (update externals host (runInfo 0 1) storeV0BadTheme).2)
      !! APP_VERSION_KEY externals = Some (Str "5.0.0").
Proof.
  split; [exact sample_app_key_outOfReach|].
  exact (X1_update_stores_the_app_version externals host (runInfo 0 1) storeV0BadTheme
           sample_app_key_outOfReach).
Defined.

Lemma X2_witness :
  currentSchemaVersion (runInfo 4 4) ≤ previousSchemaVersion (runInfo 4 4)
  ∧ ∃ w', update externals host (runInfo 4 4) storeV0 = ([], Ok tt w')
      ∧ browser w' !! "client-id" = Some (Str "generated-client-id")
      ∧ browser w' !! "adguard-settings" = Some (Obj settingsV0).
Proof.
  assert (currentSchemaVersion (runInfo 4 4) ≤ previousSchemaVersion (runInfo 4 4))
    as Hle by (simpl; lia).
  split; [exact Hle|].
  eexists. split.
  - exact (X2_update_with_nothing_to_migrate externals host (runInfo 4 4) storeV0 Hle).
  - split; by_computation.
Defined.

Lemma X3_witness :
  0 ≤ 2 ≤ 4
  ∧ runMigrationsWith externals (schemaMigrationMap externals host) 4 0 storeV0
    = (resolvedSteps 0 (4 - 0),
       Ok tt (worldOf
                (runMigrationsWith externals (schemaMigrationMap externals host) 4 2
                   (worldOf
                      (runMigrationsWith externals (schemaMigrationMap externals host)
                         2 0 storeV0).2)).2)).
Proof.
  assert (0 ≤ 2 ≤ 4) as Hv by lia.
  split; [exact Hv|].
  assert (runMigrationsWith externals (schemaMigrationMap externals host) 2 0 storeV0
          = (resolvedSteps 0 (2 - 0),
             Ok tt (worldOf
                      (runMigrationsWith externals (schemaMigrationMap externals host)
                         2 0 storeV0).2))) as Hfirst by by_computation.
  assert (runMigrationsWith externals (schemaMigrationMap externals host) 4 2
            (worldOf
               (runMigrationsWith externals (schemaMigrationMap externals host)
                  2 0 storeV0).2)
          = (resolvedSteps 2 (4 - 2),
             Ok tt (worldOf
                      (runMigrationsWith externals (schemaMigrationMap externals host) 4 2
                         (worldOf
                            (runMigrationsWith externals
                               (schemaMigrationMap externals host) 2 0 storeV0).2)).2)))
    as Hsecond by by_computation.
  exact (X3_migrations_in_two_hops externals (schemaMigrationMap externals host)
           4 0 2 storeV0 _ _ Hv Hfirst Hsecond).
Defined.

Lemma X4_witness :
  0 ≤ 0 < 2
  ∧ migrateFromV0toV1 externals storeV0BadTheme
    = Throw ZodError (worldOf (migrateFromV0toV1 externals storeV0BadTheme))
  ∧ ∃ w', runMigrationsWith externals (schemaMigrationMap externals host) 2 0
            storeV0BadTheme
          = (resolvedSteps 0 (0 - 0) ++ [(0, false)], Ok tt w')
      ∧ browser w' !! "adguard-settings" = Some (Obj defaults)
      ∧ logs w'
        = [ (LError, "Error while schema migrating from 0 to 1: ZodError");
            (LError, "Error while migrate: Error while schema migrating from 0 to 1: ZodError");
            (LInfo, "Reset settings...") ].
Proof.
  assert (0 ≤ 0 < 2) as Hv by lia.
  assert (migrateFromV0toV1 externals storeV0BadTheme
          = Throw ZodError (worldOf (migrateFromV0toV1 externals storeV0BadTheme)))
    as Hthrow by by_computation.
  split; [exact Hv|]. split; [exact Hthrow|].
  eexists. split.
  - exact (X4_rejected_step_is_logged_and_settings_reset externals
             (schemaMigrationMap externals host) 2 0 0 (migrateFromV0toV1 externals)
             storeV0BadTheme storeV0BadTheme ZodError _ Hv eq_refl eq_refl Hthrow).
  - split; by_computation.
Defined.

Lemma X14_witness :
  schemaMigrationMap externals host 2 = Some (migrateFromV2toV3 externals host)
  ∧ hybrid (worldOf (migrateFromV2toV3 externals host storeV2)) = hybrid storeV2.
Proof.
  split; [reflexivity|].
  exact (proj1 (X14_only_the_last_step_writes_the_hybrid_storage externals host 2 _ eq_refl)
           ltac:(discriminate) storeV2).
Defined.

Lemma X5_witness :
  hybridCommits host (stageAll externals (browser legacyStore)).1 = true
  ∧ browser legacyStore !! "filter_raw_2" = Some (Str "rawtext")
  ∧ hybrid (worldOf (migrateFromV3toV4 externals host legacyStore)) !! "filter_raw_2"
    = Some "rawtext"
  ∧ browser (worldOf (migrateFromV3toV4 externals host legacyStore)) !! "filter_raw_2"
    = None.
Proof.
  assert (browser legacyStore !! "filter_raw_2" = Some (Str "rawtext")) as Hval
    by by_computation.
  split; [reflexivity|]. split; [exact Hval|].
  refine (X5_raw_filter_is_copied_verbatim externals host legacyStore "filter_raw_2" 2
            "rawtext" eq_refl _ _ Hval); by_computation.
Defined.

Lemma X6_witness :
  ∃ w' w'',
    migrateFromV3toV4 externals host legacyStore = Ok tt w'
    ∧ migrateFromV3toV4 externals host w' = Ok tt w''
    ∧ browser w'' = browser w' ∧ hybrid w'' = hybrid w'.
Proof.
  eexists _, _. split; [by_computation|]. split.
  - refine (X6_migrateFromV3toV4_second_run_finds_nothing externals host legacyStore _
              eq_refl eq_refl _). by_computation.
  - split; reflexivity.
Defined.

Lemma filtersOnlyStore_hasLegacyFilters : hasLegacyFilters externals filtersOnlyStore.
Proof. left. vm_compute. discriminate. Defined.

Lemma badVersionsStore_hasLegacyFilters : hasLegacyFilters externals badVersionsStore.
Proof. left. vm_compute. discriminate. Defined.

Lemma X7_witness :
  (hasLegacyFilters externals filtersOnlyStore
   ∧ migrateFromV3toV4 externals host filtersOnlyStore
     = Throw ZodError (afterConsolidation externals filtersOnlyStore)
   ∧ hybrid (afterConsolidation externals filtersOnlyStore) !! "filter_raw_2"
     = Some "rawtext"
   ∧ browser (afterConsolidation externals filtersOnlyStore) !! "filter_raw_2" = None)
  ∧ (hasLegacyFilters externals badVersionsStore
     ∧ cannotBeJSON "undefined" = true
     ∧ migrateFromV3toV4 externals host badVersionsStore
       = Throw SyntaxError (afterConsolidation externals badVersionsStore)
     ∧ hybrid (afterConsolidation externals badVersionsStore) !! "filter_raw_2"
       = Some "rawtext"
     ∧ browser (afterConsolidation externals badVersionsStore) !! "filter_raw_2" = None).
Proof.
  split.
  - split; [exact filtersOnlyStore_hasLegacyFilters|]. split.
    + exact (X7_migrateFromV3toV4_is_not_rolled_back externals host filtersOnlyStore
               filtersOnlyStore_hasLegacyFilters eq_refl eq_refl eq_refl).
    + split; by_computation.
  - split; [exact badVersionsStore_hasLegacyFilters|]. split; [reflexivity|]. split.
    + exact (X7_migrateFromV3toV4_is_not_rolled_back externals host badVersionsStore
               badVersionsStore_hasLegacyFilters eq_refl eq_refl eq_refl eq_refl).
    + split; by_computation.
Defined.

Lemma customFiltersV2_wellKeyed : wellKeyed customFiltersV2.
Proof. well_keyed. Defined.

Lemma X10_witness :
  wellKeyed customFiltersV2
  ∧ customFiltersDataTransformerV2 customFiltersV2 = Some customFiltersV3
  ∧ customFiltersDataTransformerV2 customFiltersV3 = Some customFiltersV3.
Proof.
  split; [exact customFiltersV2_wellKeyed|]. split; [reflexivity|].
  exact (proj2 (X10_customFiltersDataTransformerV2_adds_the_trusted_flag
                  customFiltersV2 customFiltersV3 customFiltersV2_wellKeyed eq_refl)).
Defined.

Lemma X20_witness :
  ∃ w', migrateFromV2toV3 externals host storeV2 = Ok tt w'
    ∧ get "custom-filters" settingsV2 = Some (Str (JSON.stringify customFiltersV2))
    ∧ ∃ text,
        browser w' !! "adguard-settings"
        = Some (Obj (set "custom-filters" (Str text) settingsV2))
        ∧ JSON.parse text = Some customFiltersV3.
Proof.
  eexists. split; [by_computation|]. split; [reflexivity|].
  assert (JSON.parse (JSON.stringify customFiltersV2) = Some customFiltersV2) as Hparse
    by by_computation.
  destruct (X20_migrateFromV2toV3_stores_what_the_transformer_returns externals host
              storeV2 _ settingsV2 (JSON.stringify customFiltersV2)
              ltac:(by_computation) ltac:(by_computation) eq_refl)
    as (parsed & out & text & Hparsed & Hout & Hstored & Htext).
  exists text. split; [exact Hstored|].
  rewrite Hparse in Hparsed. injection Hparsed as <-.
  assert (customFiltersDataTransformerV2 customFiltersV2 = Some customFiltersV3) as Hv3
    by reflexivity.
  rewrite Hv3 in Hout. injection Hout as <-. exact Htext.
Defined.

Lemma X21_witness :
  ∃ w' w'',
    migrateFromV2toV3 externals host storeV2 = Ok tt w'
    ∧ migrateFromV2toV3 externals host w' = Ok tt w''
    ∧ browser w'' = browser w'.
Proof.
  assert (∃ w', migrateFromV2toV3 externals host storeV2 = Ok tt w') as [w' Hrun]
    by (eexists; by_computation).
  destruct (X21_migrateFromV2toV3_is_idempotent_on_the_storage externals host storeV2 w' Hrun)
    as (w'' & Hagain & Hsame).
  exists w', w''. split; [exact Hrun|]. split; [exact Hagain | exact Hsame].
Defined.

Lemma storeV1_cache : browser storeV1 !! "sb-lru-cache" = Some (Str sbCacheV1).
Proof. by_computation. Defined.

Lemma X11_witness :
  browser storeV1 !! "sb-lru-cache" = Some (Str sbCacheV1)
  ∧ ∃ text' records,
      migrateFromV1toV2 externals host storeV1
      = Ok tt (withBrowser (insert "sb-lru-cache" (Str text')) storeV1)
      ∧ JSON.parse text' = Some (Arr records)
      ∧ length records = 2%nat.
Proof.
  split; [exact storeV1_cache|].
  destruct (X11_migrateFromV1toV2_rewrites_every_record externals host storeV1 sbCacheV1
              _ sbRowsV1 storeV1_cache ltac:(by_computation) ltac:(by_computation))
    as (text' & records & Hrun & Hparse & Hlen & _).
  exists text', records. split; [exact Hrun|]. split; [exact Hparse | exact Hlen].
Defined.

Lemma X12_witness :
  browser storeV1 !! "sb-lru-cache" = Some (Str sbCacheV1)
  ∧ sbRowsV1 ≠ []
  ∧ ∃ w', migrateFromV1toV2 externals host storeV1 = Ok tt w'
      ∧ migrateFromV1toV2 externals host w' = Throw ZodError w'.
Proof.
  assert (sbRowsV1 ≠ []) as Hrows by discriminate.
  split; [exact storeV1_cache|]. split; [exact Hrows|].
  refine (X12_migrateFromV1toV2_rejects_a_migrated_cache externals host storeV1 sbCacheV1
            _ sbRowsV1 storeV1_cache _ _ Hrows); by_computation.
Defined.

Lemma X15_witness :
  ∃ w' settings,
    migrateFromV0toV1 externals storeV0 = Ok tt w'
    ∧ browser w' !! "adguard-settings" = Some (Obj settings)
    ∧ NoDup (keys settings)
    ∧ ∃ t, get "appearance-theme" settings = Some (Str t) ∧ t ∈ themes.
Proof.
  assert (∃ w', migrateFromV0toV1 externals storeV0 = Ok tt w') as [w' Hrun]
    by (eexists; by_computation).
  destruct (X15_migrateFromV0toV1_stores_a_validated_record externals storeV0 w' Hrun)
    as (settings & Hstored & Hnd & _ & _ & _ & Htheme).
  exists w', settings. split; [exact Hrun|]. split; [exact Hstored|].
  split; [exact Hnd | exact Htheme].
Defined.

Lemma storeV0_settings : browser storeV0 !! "adguard-settings" = Some (Obj settingsV0).
Proof. by_computation. Defined.

Lemma settingsV0_NoDup : NoDup (keys settingsV0).
Proof. apply (bool_decide_unpack _). vm_compute. exact I. Defined.

Lemma client_id_is_moved : "client-id" ∈ movedKeys.
Proof. apply (bool_decide_unpack _). vm_compute. exact I. Defined.

Lemma X16_witness :
  browser storeV0 !! "adguard-settings" = Some (Obj settingsV0)
  ∧ NoDup (keys settingsV0)
  ∧ "client-id" ∈ movedKeys
  ∧ ∃ w', migrateFromV0toV1 externals storeV0 = Ok tt w'
      ∧ browser w' !! "client-id" = Some (Str "0123456789abcdef").
Proof.
  split; [exact storeV0_settings|]. split; [exact settingsV0_NoDup|].
  split; [exact client_id_is_moved|].
  assert (∃ w', migrateFromV0toV1 externals storeV0 = Ok tt w') as [w' Hrun]
    by (eexists; by_computation).
  exists w'. split; [exact Hrun|].
  exact (proj1 (X16_migrateFromV0toV1_moves_the_root_fields externals storeV0 w' settingsV0
                  "client-id" storeV0_settings settingsV0_NoDup Hrun client_id_is_moved)).
Defined.

Lemma X17_witness :
  browser storeV0 !! "adguard-settings" = Some (Obj settingsV0)
  ∧ NoDup (keys settingsV0)
  ∧ get "default-whitelist-mode" settingsV0 = Some (Bool true)
  ∧ ∃ w' settings b,
      migrateFromV0toV1 externals storeV0 = Ok tt w'
      ∧ browser w' !! "adguard-settings" = Some (Obj settings)
      ∧ SchemaPreprocessor_booleanValidator externals (Some (Bool true)) = Some b
      ∧ get "default-allowlist-mode" settings = Some (Bool b).
Proof.
  split; [exact storeV0_settings|]. split; [exact settingsV0_NoDup|].
  split; [reflexivity|].
  assert (∃ w' settings, migrateFromV0toV1 externals storeV0 = Ok tt w'
            ∧ browser w' !! "adguard-settings" = Some (Obj settings))
    as (w' & settings & Hrun & Hstored)
    by (eexists _, _; split; by_computation).
  destruct (proj2 (X17_migrateFromV0toV1_reads_the_legacy_names externals storeV0 w'
                     settingsV0 settings storeV0_settings settingsV0_NoDup Hrun Hstored)
              "default-whitelist-mode" "default-allowlist-mode" (Bool true)
              ltac:(left) eq_refl)
    as (b & Hb & Hnew).
  exists w', settings, b. split; [exact Hrun|]. split; [exact Hstored|].
  split; [exact Hb | exact Hnew].
Defined.

Lemma storeV0BadJson_settings :
  browser storeV0BadJson !! "adguard-settings"
  = Some (Obj [("groups-state", Str "undefined")]).
Proof. by_computation. Defined.

Lemma X18_witness :
  browser storeV0BadJson !! "adguard-settings"
  = Some (Obj [("groups-state", Str "undefined")])
  ∧ cannotBeJSON "undefined" = true
  ∧ ∃ w1, migrateFromV0toV1 externals storeV0BadJson = Throw SyntaxError w1
      ∧ browser w1 = browser storeV0BadJson.
Proof.
  split; [exact storeV0BadJson_settings|]. split; [reflexivity|].
  destruct (X18_migrateFromV0toV1_rejects_malformed_nested_json externals storeV0BadJson
              [("groups-state", Str "undefined")] "groups-state" "undefined"
              storeV0BadJson_settings ltac:(apply NoDup_singleton) ltac:(left)
              eq_refl eq_refl)
    as (e & w1 & Hthrow & Hsame & He).
  exists w1. rewrite <- (He eq_refl). split; [exact Hthrow | exact Hsame].
Defined.

Lemma groupsStateV0_wellKeyed : wellKeyed groupsStateV0.
Proof. well_keyed. Defined.

Lemma X22_witness :
  wellKeyed groupsStateV0
  ∧ groupsStateTransformer groupsStateV0
    = Some (Obj [ ("1", Obj [("enabled", Bool true); ("touched", Bool true)]);
                  ("2", Obj [("enabled", Bool false); ("touched", Bool false)]) ])
  ∧ entrywise (λ d o,
       get "enabled" o = Some (Bool (truthy (get "enabled" d)))
       ∧ get "touched" o = Some (Bool (truthy (get "enabled" d)))
       ∧ get "__proto__" o = None
       ∧ ∀ k, k ≠ "enabled" → k ≠ "touched" → k ≠ "__proto__" → get k o = get k d)
      groupsStateV0
      (Obj [ ("1", Obj [("enabled", Bool true); ("touched", Bool true)]);
             ("2", Obj [("enabled", Bool false); ("touched", Bool false)]) ]).
Proof.
  split; [exact groupsStateV0_wellKeyed|]. split; [reflexivity|].
  exact (X22_groupsStateTransformer_marks_every_group groupsStateV0 _
           groupsStateV0_wellKeyed eq_refl).
Defined.

Lemma filtersStateV0_wellKeyed : wellKeyed filtersStateV0.
Proof. well_keyed. Defined.

Lemma X23_witness :
  wellKeyed filtersStateV0
  ∧ filtersStateTransformer filtersStateV0
    = Some (Obj [ ("10", Obj [("loaded", Bool true); ("enabled", Bool true);
                              ("installed", Bool false)]) ])
  ∧ entrywise (λ d o,
       get "enabled" o = Some (Bool (truthy (get "enabled" d)))
       ∧ get "installed" o = Some (Bool (truthy (get "installed" d)))
       ∧ get "__proto__" o = None
       ∧ ∀ k, k ≠ "enabled" → k ≠ "installed" → k ≠ "__proto__" → get k o = get k d)
      filtersStateV0
      (Obj [ ("10", Obj [("loaded", Bool true); ("enabled", Bool true);
                         ("installed", Bool false)]) ]).
Proof.
  split; [exact filtersStateV0_wellKeyed|]. split; [reflexivity|].
  exact (X23_filtersStateTransformer_completes_every_filter filtersStateV0 _
           filtersStateV0_wellKeyed eq_refl).
Defined.

Lemma customFiltersV0_wellKeyed : wellKeyed customFiltersV0.
Proof. well_keyed. Defined.

Lemma X25_witness :
  wellKeyed customFiltersV0
  ∧ customFiltersDataTransformerV0 externals customFiltersV0
    = Some (Arr [ Obj [("timeUpdated", Num 1700000000000);
                       ("customUrl", Str "https://example.org/a.txt");
                       ("trusted", Bool false)] ])
  ∧ elementwise (λ d o,
       get "trusted" o = Some (Bool (truthy (get "trusted" d)))
       ∧ get "timeUpdated" o
         = Some (match get "timeUpdated" d with
                 | None => Num 0
                 | Some t => Number_ externals t
                 end)
       ∧ get "languages" o = None
       ∧ get "__proto__" o = None
       ∧ ∀ k, k ≠ "trusted" → k ≠ "timeUpdated" → k ≠ "languages" →
              k ≠ "__proto__" → get k o = get k d)
      customFiltersV0
      (Arr [ Obj [("timeUpdated", Num 1700000000000);
                  ("customUrl", Str "https://example.org/a.txt");
                  ("trusted", Bool false)] ]).
Proof.
  assert (customFiltersDataTransformerV0 externals customFiltersV0
          = Some (Arr [ Obj [("timeUpdated", Num 1700000000000);
                             ("customUrl", Str "https://example.org/a.txt");
                             ("trusted", Bool false)] ])) as Hrun by by_computation.
  split; [exact customFiltersV0_wellKeyed|]. split; [exact Hrun|].
  exact (X25_customFiltersDataTransformerV0_completes_every_filter externals
           customFiltersV0 _ customFiltersV0_wellKeyed Hrun).
Defined.

Lemma filtersVersionV0_wellKeyed : wellKeyed filtersVersionV0.
Proof. well_keyed. Defined.

Lemma X24_witness :
  wellKeyed filtersVersionV0
  ∧ filtersVersionsTransformer filtersVersionV0
    = Some (Obj [ ("10", Obj [("version", Str "1.0.0.0"); ("lastUpdateTime", Num 0)]) ])
  ∧ entrywise (λ d o,
       get "lastUpdateTime" o = Some (default (Num 0) (get "lastUpdateTime" d))
       ∧ get "__proto__" o = None
       ∧ ∀ k, k ≠ "lastUpdateTime" → k ≠ "__proto__" → get k o = get k d)
      filtersVersionV0
      (Obj [ ("10", Obj [("version", Str "1.0.0.0"); ("lastUpdateTime", Num 0)]) ]).
Proof.
  split; [exact filtersVersionV0_wellKeyed|]. split; [reflexivity|].
  exact (X24_filtersVersionsTransformer_dates_every_filter filtersVersionV0 _
           filtersVersionV0_wellKeyed eq_refl).
Defined.

End FurtherWitnesses.
